(** * code-researcher: alert admission, repository ranking and the
      research-job life cycle

    A shallow embedding of the decision logic of

    - [src/alerts/cloudwatch_handler.py]   (alert parsing and validation),
    - [src/vcs/github_handler.py]          (relevance score and ranking),
    - [src/core/code_researcher_system.py] (the research-job processor),

    followed by the properties the specification states about them.

    Modelling conventions.
    - Python [str] values are [string]s of ASCII characters; [str.lower]
      and the regular-expression class [\w] are modelled on ASCII.
    - The score formula is stated over exact rationals [Q], equality of
      scores being [Qeq]; the ranking is also given on the binary64
      numbers of the program ([Float64]), where rounding decides what
      passes the threshold and what ties.
    - Python [set]s of strings are [gset string]; [list(set(..))] is
      [elements], an enumeration without duplicates in an order the
      program does not control.
    - An exception is a value [Raise msg], [msg] being [str(e)]. *)

From Stdlib Require Import Ascii String DecimalString QArith Qminmax Lqa.
From Stdlib Require SpecFloat.
From stdpp Require Import gmap strings list sorting.

Open Scope string_scope.
Open Scope list_scope.

(** ** Strings *)

Module Str.

Definition is_upper (c : ascii) : bool :=
  let n := nat_of_ascii c in (65 <=? n)%nat && (n <=? 90)%nat.

Definition is_lower (c : ascii) : bool :=
  let n := nat_of_ascii c in (97 <=? n)%nat && (n <=? 122)%nat.

Definition is_digit (c : ascii) : bool :=
  let n := nat_of_ascii c in (48 <=? n)%nat && (n <=? 57)%nat.

Definition lower_char (c : ascii) : ascii :=
  if is_upper c then ascii_of_nat (nat_of_ascii c + 32) else c.

(** [str.lower()] *)
Fixpoint lower (s : string) : string :=
  match s with
  | EmptyString => EmptyString
  | String c s' => String (lower_char c) (lower s')
  end.

(** the class [\w]: letters, digits and the underscore *)
Definition is_word_char (c : ascii) : bool :=
  is_upper c || is_lower c || is_digit c || bool_decide (c = "_"%char).

Definition flush (cur : string) : list string :=
  match cur with EmptyString => [] | _ => [cur] end.

(** [re.findall(r'\b\w+\b', s)]: the maximal runs of word characters,
    from left to right; [cur] is the run being read. *)
Fixpoint word_runs (cur : string) (s : string) : list string :=
  match s with
  | EmptyString => flush cur
  | String c s' =>
      if is_word_char c
      then word_runs (String.append cur (String c EmptyString)) s'
      else (flush cur ++ word_runs EmptyString s')%list
  end.

Definition findall_words (s : string) : list string := word_runs EmptyString s.

(** [p in s] for strings: [p] occurs in [s] as a contiguous substring. *)
Fixpoint contains (p s : string) : bool :=
  String.prefix p s ||
  match s with
  | EmptyString => false
  | String _ s' => contains p s'
  end.

(** The relation [contains] decides. *)
Definition substring_of (p s : string) : Prop :=
  exists pre post, s = String.append pre (String.append p post).

End Str.

(** ** Repository configuration ([github_handler.RepositoryConfig]) *)

Record RepositoryConfig := mkRepositoryConfig {
  owner : string;
  name : string;
  access_token : string;
  branch : string;
  file_patterns : list string;
  alert_keywords : list string;
  priority : string          (* low, medium, high *)
}.

Definition full_name (r : RepositoryConfig) : string :=
  String.append (owner r) (String.append "/" (name r)).

(** ** Alerts ([cloudwatch_handler.CloudWatchAlert])

    The dataclass declares every field a [str] but stores whatever it is
    given, so the record is parametric in the type of field values:
    [CloudWatchAlert string] is the declared type. *)

Record CloudWatchAlert (V : Type) := mkCloudWatchAlert {
  alarm_name : V;
  alarm_description : V;
  metric_name : V;
  namespace : V;
  timestamp : V;
  state : V;
  reason : V;
  region : V;
  account_id : V
}.
Arguments mkCloudWatchAlert {V}.
Arguments alarm_name {V}.
Arguments alarm_description {V}.
Arguments metric_name {V}.
Arguments namespace {V}.
Arguments timestamp {V}.
Arguments state {V}.
Arguments reason {V}.
Arguments region {V}.
Arguments account_id {V}.

Definition Alert := CloudWatchAlert string.

(** ** Relevance score and ranking ([github_handler.GitHubHandler]) *)

Definition stop_words : list string :=
  ["the"; "and"; "or"; "but"; "in"; "on"; "at"; "to"; "for"; "of"; "with";
   "by"; "is"; "are"; "was"; "were"].

(** [len(word) > 2] *)
Definition long_word (w : string) : bool := (2 <? String.length w)%nat.

Definition _extract_words_from_text (text : string) : list string :=
  let words := Str.findall_words (Str.lower text) in
  List.filter (fun word => negb (bool_decide (word ∈ stop_words)) && long_word word)
              words.

(** A non-empty string is truthy. *)
Definition truthy (s : string) : bool :=
  match s with EmptyString => false | _ => true end.

(** The branch of [_extract_alert_keywords] taken for a [CloudWatchAlert]:
    the object has no [extract_keywords] attribute (that method belongs to
    the handler) and it has [alarm_name]. *)
Definition _extract_alert_keywords (alert : Alert) : list string :=
  let keywords : list string :=
    (_extract_words_from_text (alarm_name alert)
     ++ (if truthy (namespace alert)
         then _extract_words_from_text (namespace alert) else [])
     ++ (if truthy (metric_name alert)
         then _extract_words_from_text (metric_name alert) else []))%list in
  elements (list_to_set (List.filter long_word keywords) : gset string).

(** [len(a) / len(b)] on floats, here exact. *)
Definition ratio (k n : nat) : Q := inject_Z (Z.of_nat k) / inject_Z (Z.of_nat n).

Definition priority_boost : gmap string Q :=
  {[ "high" := (2 # 10)%Q; "medium" := (1 # 10)%Q; "low" := 0%Q ]}.

(** [min(a, b)] of Python: [b] when [b < a], else [a]. *)
Definition py_min (a b : Q) : Q := if Qlt_le_dec b a then b else a.

Definition _calculate_relevance_score
    (alert_keywords0 : list string) (repo_config : RepositoryConfig) : Q :=
  match alert_keywords0 with
  | [] => 0
  | _ =>
    let alert_set : gset string := list_to_set alert_keywords0 in
    let score : Q :=
      match alert_keywords repo_config with
      | _ :: _ =>
          let repo_set : gset string :=
            list_to_set (Str.lower <$> alert_keywords repo_config) in
          let overlap := alert_set ∩ repo_set in
          if bool_decide (overlap ≠ ∅)
          then (0 + ratio (size overlap) (size alert_set) * (8 # 10))%Q
          else 0%Q
      | [] => (3 # 10)%Q
      end in
    let score : Q :=
      (score + default 0 (priority_boost !! priority repo_config))%Q in
    let repo_name_words := _extract_words_from_text (name repo_config) in
    let name_overlap : gset string := alert_set ∩ list_to_set repo_name_words in
    let score : Q :=
      if bool_decide (name_overlap ≠ ∅)
      then (score
            + ratio (size name_overlap) (length alert_keywords0) * (3 # 10))%Q
      else score in
    py_min score 1
  end.

Definition Scored : Type := RepositoryConfig * Q.

(** [relevance_score > 0.1] *)
Definition above_threshold (x : Scored) : bool :=
  if Qlt_le_dec (1 # 10) (snd x) then true else false.

(** The loop of [identify_relevant_repositories] for given keywords. *)
Definition relevant_repos (kws : list string) (repo_configs : list RepositoryConfig)
    : list Scored :=
  List.filter above_threshold
    ((fun r => (r, _calculate_relevance_score kws r)) <$> repo_configs).

(** [list.sort(key=lambda x: x[1], reverse=True)]: descending by key and
    stable. [insert_desc x l] puts [x], which precedes all of [l] in the
    input, in front of the first entry whose key is not greater. *)
Fixpoint insert_desc {A} (key : A -> Q) (x : A) (l : list A) : list A :=
  match l with
  | [] => [x]
  | y :: l' =>
      if Qlt_le_dec (key x) (key y) then y :: insert_desc key x l' else x :: l
  end.

Definition sort_desc {A} (key : A -> Q) (l : list A) : list A :=
  foldr (insert_desc key) [] l.

Definition rank_with (kws : list string) (repo_configs : list RepositoryConfig)
    : list Scored :=
  firstn 3 (sort_desc snd (relevant_repos kws repo_configs)).

(** The method catches every exception and returns the empty list then;
    on an alert and profiles whose fields are strings nothing raises. *)
Definition identify_relevant_repositories
    (alert : Alert) (repo_configs : list RepositoryConfig) : list Scored :=
  rank_with (_extract_alert_keywords alert) repo_configs.

(** [before key pos a b]: [a] ranks before [b], by greater key, and by
    earlier position among equal keys. *)
Definition before {A} (key : A -> Q) (pos : A -> nat) (a b : A) : Prop :=
  (key b < key a)%Q \/ ((key a == key b)%Q /\ pos a < pos b).

(** [enumerate(l, start=n)] *)
Fixpoint enumerate_from {A} (n : nat) (l : list A) : list (nat * A) :=
  match l with
  | [] => []
  | x :: l' => (n, x) :: enumerate_from (S n) l'
  end.

(** ** The score as the specification words it (section 4.1)

    Kept apart from the program, to be compared with it. *)

Module Spec.

Inductive Priority := low | medium | high.

Definition priority_name (p : Priority) : string :=
  match p with low => "low" | medium => "medium" | high => "high" end.

(** the table [{high: 0.2, medium: 0.1, low: 0.0}] *)
Definition priority_term (p : Priority) : Q :=
  match p with high => 2 # 10 | medium => 1 # 10 | low => 0 end.

(** [repo.keywords]: the configured keywords, lower-cased, as a set *)
Definition keywords (r : RepositoryConfig) : gset string :=
  list_to_set (Str.lower <$> alert_keywords r).

(** [nameTokens]: [repo.name] tokenized the way alert text is *)
Definition name_tokens (r : RepositoryConfig) : gset string :=
  list_to_set (_extract_words_from_text (name r)).

Definition score (K : gset string) (r : RepositoryConfig) (p : Priority) : Q :=
  if decide (K = ∅) then 0
  else
    Qmin ((if decide (keywords r = ∅) then 3 # 10
           else ratio (size (K ∩ keywords r)) (size K) * (8 # 10))
          + priority_term p
          + ratio (size (K ∩ name_tokens r)) (size K) * (3 # 10))
         1.

End Spec.

(** ** Alert validation ([CloudWatchAlertHandler.validate_alert]) *)

(** The handler's configuration dictionary, as far as the handler reads it:
    [ignore_patterns] is [None] when the key is absent. *)
Record HandlerConfig := mkHandlerConfig {
  ignore_patterns : option (list string)
}.

Definition validate_alert (config : HandlerConfig) (alert : Alert) : bool :=
  if bool_decide (state alert ≠ "ALARM") then false
  else
    let ignore_patterns := default [] (ignore_patterns config) in
    (fix loop (patterns : list string) : bool :=
       match patterns with
       | [] => true
       | pattern :: rest =>
           if Str.contains pattern (Str.lower (alarm_name alert)) then false
           else loop rest
       end) ignore_patterns.

(** ** Alert parsing ([CloudWatchAlert.from_sns_message]) *)

(** Values as [json.loads] produces them (floats left out); a [dict] with
    string keys is an association list read by its first matching key. *)
#[warnings="-register-all"]
Inductive json :=
| JNull
| JBool (b : bool)
| JNum (z : Z)
| JStr (s : string)
| JArr (items : list json)
| JObj (members : list (string * json)).

Definition dict := list (string * json).

Fixpoint dict_lookup (key : string) (d : dict) : option json :=
  match d with
  | [] => None
  | (k, v) :: d' => if bool_decide (k = key) then Some v else dict_lookup key d'
  end.

(** [key in d] *)
Definition dict_mem (key : string) (d : dict) : bool :=
  match dict_lookup key d with Some _ => true | None => false end.

(** [d.get(key, dflt)] *)
Definition dict_get (key : string) (dflt : json) (d : dict) : json :=
  default dflt (dict_lookup key d).

Section Parsing.

(** [json.loads] of the Python library; [None] when it raises. *)
Variable json_loads : string -> option json.

(** [None] stands for the [ValueError] the method raises for whatever
    goes wrong inside it. *)
Definition from_sns_message (sns_message : dict) : option (CloudWatchAlert json) :=
  let message_data : option json :=
    if dict_mem "Message" sns_message
    then
      match dict_get "Message" JNull sns_message with
      | JStr s => json_loads s
      | _ => None                       (* json.loads of a non-string *)
      end
    else Some (JObj sns_message) in
  match message_data with
  | Some (JObj message_data) =>
      Some {| alarm_name := dict_get "AlarmName" (JStr EmptyString) message_data;
              alarm_description := dict_get "AlarmDescription" (JStr EmptyString) message_data;
              metric_name := dict_get "MetricName" (JStr EmptyString) message_data;
              namespace := dict_get "Namespace" (JStr EmptyString) message_data;
              timestamp := dict_get "StateChangeTime" (JStr EmptyString) message_data;
              state := dict_get "NewStateValue" (JStr EmptyString) message_data;
              reason := dict_get "NewStateReason" (JStr EmptyString) message_data;
              region := dict_get "Region" (JStr EmptyString) message_data;
              account_id := dict_get "AWSAccountId" (JStr EmptyString) message_data |}
  | Some _ => None                      (* no [get] on a non-dict *)
  | None => None
  end.

End Parsing.

(** The fields of the alert, with the keys they are read from. *)
Definition alert_fields : list (string * (CloudWatchAlert json -> json)) :=
  [("AlarmName", alarm_name); ("AlarmDescription", alarm_description);
   ("MetricName", metric_name); ("Namespace", namespace);
   ("StateChangeTime", timestamp); ("NewStateValue", state);
   ("NewStateReason", reason); ("Region", region);
   ("AWSAccountId", account_id)].

(** A JSON encoder and decoder for the fragment without floats and without
    escapes other than those of the quote and the backslash. It stands for
    the library where an example needs to run [json.dumps] and
    [json.loads]. *)
Module MiniJson.

Definition quote_char : ascii := ascii_of_nat 34.
Definition backslash : ascii := "\"%char.

Fixpoint escape (s : string) : string :=
  match s with
  | EmptyString => EmptyString
  | String c s' =>
      if bool_decide (c = quote_char) || bool_decide (c = backslash)
      then String backslash (String c (escape s'))
      else String c (escape s')
  end.

Definition quoted (s : string) : string :=
  String quote_char (String.append (escape s) (String quote_char EmptyString)).

Fixpoint join (sep : string) (l : list string) : string :=
  match l with
  | [] => EmptyString
  | [x] => x
  | x :: l' => String.append x (String.append sep (join sep l'))
  end.

Definition digits_of_Z (z : Z) : string :=
  NilZero.string_of_int (Z.to_int z).

Fixpoint dumps (v : json) : string :=
  match v with
  | JNull => "null"
  | JBool true => "true"
  | JBool false => "false"
  | JNum z => digits_of_Z z
  | JStr s => quoted s
  | JArr items =>
      String.append "[" (String.append (join ", " (List.map dumps items)) "]")
  | JObj members =>
      String.append "{"
        (String.append
           (join ", "
              (List.map (fun kv : string * json =>
                           let (k, v) := kv in
                           String.append (quoted k) (String.append ": " (dumps v)))
                        members))
           "}")
  end.

Definition is_space (c : ascii) : bool :=
  bool_decide (c = " "%char) || bool_decide (c = "010"%char)
  || bool_decide (c = "009"%char) || bool_decide (c = "013"%char).

Fixpoint skip_ws (s : string) : string :=
  match s with
  | String c s' => if is_space c then skip_ws s' else s
  | EmptyString => s
  end.

(** the rest of a string literal, after its opening quote *)
Fixpoint string_body (s : string) : option (string * string) :=
  match s with
  | EmptyString => None
  | String c s' =>
      if bool_decide (c = quote_char) then Some (EmptyString, s')
      else if bool_decide (c = backslash) then
        match s' with
        | String e s'' =>
            if bool_decide (e = quote_char) || bool_decide (e = backslash)
            then '(body, rest) ← string_body s''; Some (String e body, rest)
            else None
        | EmptyString => None
        end
      else '(body, rest) ← string_body s'; Some (String c body, rest)
  end.

Definition is_num_char (c : ascii) : bool :=
  Str.is_digit c || bool_decide (c = "-"%char).

Fixpoint span_num (s : string) : string * string :=
  match s with
  | String c s' =>
      if is_num_char c then let (d, r) := span_num s' in (String c d, r)
      else (EmptyString, s)
  | EmptyString => (EmptyString, s)
  end.

Definition strip (p s : string) : option string :=
  if String.prefix p s
  then Some (String.substring (String.length p) (String.length s - String.length p) s)
  else None.

Fixpoint value (fuel : nat) (s : string) : option (json * string) :=
  match fuel with
  | O => None
  | S fuel =>
      let s := skip_ws s in
      match s with
      | EmptyString => None
      | String c s' =>
          if bool_decide (c = quote_char) then
            '(body, rest) ← string_body s'; Some (JStr body, rest)
          else if bool_decide (c = "["%char) then
            match skip_ws s' with
            | String "]" rest => Some (JArr [], rest)
            | _ => '(items, rest) ← elements fuel s'; Some (JArr items, rest)
            end
          else if bool_decide (c = "{"%char) then
            match skip_ws s' with
            | String "}" rest => Some (JObj [], rest)
            | _ => '(members, rest) ← members fuel s'; Some (JObj members, rest)
            end
          else if is_num_char c then
            let (d, rest) := span_num s in
            z ← NilZero.int_of_string d; Some (JNum (Z.of_int z), rest)
          else
            match strip "null" s, strip "true" s, strip "false" s with
            | Some rest, _, _ => Some (JNull, rest)
            | _, Some rest, _ => Some (JBool true, rest)
            | _, _, Some rest => Some (JBool false, rest)
            | _, _, _ => None
            end
      end
  end
with elements (fuel : nat) (s : string) : option (list json * string) :=
  match fuel with
  | O => None
  | S fuel =>
      '(v, rest) ← value fuel s;
      match skip_ws rest with
      | String "," rest' =>
          '(vs, rest'') ← elements fuel rest'; Some (v :: vs, rest'')
      | String "]" rest' => Some ([v], rest')
      | _ => None
      end
  end
with members (fuel : nat) (s : string) : option (list (string * json) * string) :=
  match fuel with
  | O => None
  | S fuel =>
      match skip_ws s with
      | String c s' =>
          if bool_decide (c = quote_char) then
            '(k, rest) ← string_body s';
            match skip_ws rest with
            | String ":" rest1 =>
                '(v, rest2) ← value fuel rest1;
                match skip_ws rest2 with
                | String "," rest3 =>
                    '(kvs, rest4) ← members fuel rest3; Some ((k, v) :: kvs, rest4)
                | String "}" rest3 => Some ([(k, v)], rest3)
                | _ => None
                end
            | _ => None
            end
          else None
      | EmptyString => None
      end
  end.

(** The whole text must be one value. *)
Definition loads (s : string) : option json :=
  '(v, rest) ← value (S (String.length s)) s;
  match skip_ws rest with EmptyString => Some v | _ => None end.

End MiniJson.

(** ** Research jobs ([code_researcher_system.ResearchJob]) *)

Inductive Status :=
| pending | analyzing | generating_fixes | creating_prs | completed | failed.

Global Instance Status_eq_dec : EqDecision Status.
Proof. solve_decision. Defined.

(** What the processor reads of the dictionary [analyze_crash] returns:
    the truth value of its [analysis_complete] entry, and the proposals
    [_extract_fixes_from_orchestrator_response] collects from its
    [messages] (a scan that catches its own exceptions). *)
Record OrchestratorResult := mkOrchestratorResult {
  analysis_complete : bool;
  fix_proposals : list string
}.

Record ResearchJob := mkResearchJob {
  job_id : string;
  alert : Alert;
  repositories : list RepositoryConfig;
  status : Status;
  orchestrator_response : option OrchestratorResult;
  pull_requests : option (list string);
  error_message : option string;
  created_at : option nat;
  completed_at : option nat
}.

Definition set_status (s : Status) (j : ResearchJob) : ResearchJob :=
  mkResearchJob (job_id j) (alert j) (repositories j) s (orchestrator_response j)
    (pull_requests j) (error_message j) (created_at j) (completed_at j).

Definition set_orchestrator_response (r : option OrchestratorResult) (j : ResearchJob)
    : ResearchJob :=
  mkResearchJob (job_id j) (alert j) (repositories j) (status j) r
    (pull_requests j) (error_message j) (created_at j) (completed_at j).

Definition set_pull_requests (p : option (list string)) (j : ResearchJob) : ResearchJob :=
  mkResearchJob (job_id j) (alert j) (repositories j) (status j)
    (orchestrator_response j) p (error_message j) (created_at j) (completed_at j).

Definition set_error_message (m : option string) (j : ResearchJob) : ResearchJob :=
  mkResearchJob (job_id j) (alert j) (repositories j) (status j)
    (orchestrator_response j) (pull_requests j) m (created_at j) (completed_at j).

Definition set_completed_at (t : option nat) (j : ResearchJob) : ResearchJob :=
  mkResearchJob (job_id j) (alert j) (repositories j) (status j)
    (orchestrator_response j) (pull_requests j) (error_message j) (created_at j) t.

(** The job [process_alert] registers: [status='pending'], [created_at]
    set, every other optional field at its default [None]. *)
Definition new_job (id : string) (a : Alert) (repos : list RepositoryConfig)
    (created : nat) : ResearchJob :=
  mkResearchJob id a repos pending None None None (Some created) None.

(** ** Collaborators

    A call either returns or raises; [Raise msg] carries [str(e)]. *)
Inductive Result (A : Type) :=
| Ok (a : A)
| Raise (msg : string).
Arguments Ok {A}.
Arguments Raise {A}.

(** The outside world answers each call; the calls of one job are told
    apart by the position [i] of the candidate they are made for. *)
Record GitHubHandler := mkGitHubHandler {
  clone_repository : nat -> RepositoryConfig -> Result unit;
  (** [_create_pull_request_for_fixes], down to the host's answer *)
  create_pull_request_for_fixes :
    nat -> RepositoryConfig -> list string -> Result string
}.

Record CodeResearcherSystem := mkCodeResearcherSystem {
  (** [None] when no access token is configured *)
  github_handler : option GitHubHandler;
  (** [orchestrator.analyze_crash] *)
  analyze_crash : nat -> RepositoryConfig -> Result OrchestratorResult;
  (** entering and leaving [with tempfile.TemporaryDirectory()] *)
  workspace_enter : nat -> Result unit;
  workspace_exit : nat -> Result unit;
  (** [datetime.now()] when the job ends *)
  now : nat
}.

(** ** The processor monad

    [_process_research_job] is a coroutine that mutates one job. A run
    threads the job, may raise, and records what happens: every attribute
    assignment with the job as it is afterwards, every [await] with the job
    as other tasks of the event loop can read it while the coroutine is
    suspended, and the start of each candidate's processing. *)

Inductive Field :=
| F_status | F_orchestrator_response | F_pull_requests | F_error_message
| F_completed_at.

Global Instance Field_eq_dec : EqDecision Field.
Proof. solve_decision. Defined.

Inductive Entry :=
| Assign (f : Field) (after : ResearchJob)
| Await (visible : ResearchJob)
| Visit (i : nat) (repo_config : RepositoryConfig).

Definition proc (A : Type) : Type :=
  ResearchJob -> Result A * ResearchJob * list Entry.

Global Instance proc_ret : MRet proc := fun A (a : A) j => (Ok a, j, []).

Global Instance proc_bind : MBind proc := fun A B (k : A -> proc B) (m : proc A) j =>
  match m j with
  | (Ok a, j1, log1) =>
      match k a j1 with (r, j2, log2) => (r, j2, log1 ++ log2) end
  | (Raise msg, j1, log1) => (Raise msg, j1, log1)
  end.

(** [try: body except Exception as e: handler(str(e))] *)
Definition try_except (body : proc unit) (handler : string -> proc unit) : proc unit :=
  fun j =>
    match body j with
    | (Ok tt, j1, log1) => (Ok tt, j1, log1)
    | (Raise msg, j1, log1) =>
        match handler msg j1 with (r, j2, log2) => (r, j2, log1 ++ log2) end
    end.

Definition get_job : proc ResearchJob := fun j => (Ok j, j, []).

(** [job.f = ...] *)
Definition assign (f : Field) (update : ResearchJob -> ResearchJob) : proc unit :=
  fun j => (Ok tt, update j, [Assign f (update j)]).

(** a synchronous call to a collaborator *)
Definition call {A} (answer : Result A) : proc A := fun j => (answer, j, []).

(** [await] of a collaborator: the coroutine may be suspended until the
    answer is there *)
Definition await {A} (answer : Result A) : proc A := fun j => (answer, j, [Await j]).

Definition visit (i : nat) (r : RepositoryConfig) : proc unit :=
  fun j => (Ok tt, j, [Visit i r]).

Definition when (b : bool) (m : proc unit) : proc unit := if b then m else mret tt.

(** Truth value of an optional list or string: [None] and the empty value
    are false. *)
Definition some_nonempty {A} (l : option (list A)) : bool :=
  match l with Some (_ :: _) => true | _ => false end.

Definition some_text (s : option string) : bool :=
  match s with Some (String _ _) => true | _ => false end.

(** ** The processor ([CodeResearcherSystem._process_research_job]) *)

Section Processor.

Variable self : CodeResearcherSystem.

(** The body of the loop over candidates, for the candidate at position
    [i]. *)
Definition process_candidate (gh : GitHubHandler) (i : nat) (candidate : Scored)
    : proc unit :=
  let repo_config := fst candidate in
  visit i repo_config ;;
  call (workspace_enter self i) ;;
  try_except
    (call (clone_repository gh i repo_config) ;;
     orchestrator_result ← await (analyze_crash self i repo_config);
     assign F_orchestrator_response
       (set_orchestrator_response (Some orchestrator_result)) ;;
     when (analysis_complete orchestrator_result)
       (assign F_status (set_status creating_prs) ;;
        let fix_proposals := fix_proposals orchestrator_result in
        when (bool_decide (fix_proposals ≠ []))
          (pr_url ← await (create_pull_request_for_fixes gh i repo_config
                             fix_proposals);
           job ← get_job;
           when (negb (some_nonempty (pull_requests job)))
             (assign F_pull_requests (set_pull_requests (Some []))) ;;
           assign F_pull_requests
             (fun j => set_pull_requests
                         (Some (default [] (pull_requests j) ++ [pr_url])) j))))
    (fun e => assign F_error_message (set_error_message (Some e))) ;;
  call (workspace_exit self i).

(** [for repo_config, relevance_score in candidates:], positions counted
    from [i] *)
Fixpoint process_candidates (gh : GitHubHandler) (i : nat) (candidates : list Scored)
    : proc unit :=
  match candidates with
  | [] => mret tt
  | candidate :: rest =>
      process_candidate gh i candidate ;;
      process_candidates gh (S i) rest
  end.

(** The statements after the loop. *)
Definition update_job_status : proc unit :=
  job ← get_job;
  (if some_nonempty (pull_requests job)
   then assign F_status (set_status completed)
   else
     assign F_status (set_status failed) ;;
     job ← get_job;
     when (negb (some_text (error_message job)))
       (assign F_error_message
          (set_error_message (Some "No pull requests created")))) ;;
  assign F_completed_at (set_completed_at (Some (now self))).

Definition _process_research_job : proc unit :=
  try_except
    (assign F_status (set_status analyzing) ;;
     match github_handler self with
     | None =>
         assign F_status (set_status failed) ;;
         assign F_error_message
           (set_error_message (Some "GitHub handler not configured"))
     | Some gh =>
         job ← get_job;
         let relevant_repos :=
           identify_relevant_repositories (alert job) (repositories job) in
         match relevant_repos with
         | [] =>
             assign F_status (set_status failed) ;;
             assign F_error_message
               (set_error_message (Some "No relevant repositories found"))
         | _ :: _ =>
             process_candidates gh 0 (firstn 2 relevant_repos) ;;
             update_job_status
         end
     end)
    (fun e =>
       assign F_status (set_status failed) ;;
       assign F_error_message (set_error_message (Some e)) ;;
       assign F_completed_at (set_completed_at (Some (now self)))).

(** *** What a run shows *)

Definition run (job : ResearchJob) : Result unit * ResearchJob * list Entry :=
  _process_research_job job.

Definition final_job (job : ResearchJob) : ResearchJob := snd (fst (run job)).

Definition log_of (job : ResearchJob) : list Entry := snd (run job).

End Processor.

(** The jobs after each assignment, in order. *)
Definition writes (log : list Entry) : list ResearchJob :=
  omap (fun e => match e with Assign _ j => Some j | _ => None end) log.

(** The jobs visible at the suspension points, in order. *)
Definition suspensions (log : list Entry) : list ResearchJob :=
  omap (fun e => match e with Await j => Some j | _ => None end) log.

(** The candidates whose processing started, in order. *)
Definition visited (log : list Entry) : list RepositoryConfig :=
  omap (fun e => match e with Visit _ r => Some r | _ => None end) log.

(** The jobs after the assignments to field [f]. *)
Definition assignments_to (f : Field) (log : list Entry) : list ResearchJob :=
  omap (fun e => match e with
                 | Assign g j => if decide (g = f) then Some j else None
                 | _ => None
                 end) log.

(** Every value the [status] attribute holds, from creation on. *)
Definition status_trace (self : CodeResearcherSystem) (job : ResearchJob) : list Status :=
  status job :: (status <$> writes (log_of self job)).

(** What readers of the job can see. The job is registered before its
    task starts; the task shares one event loop with every reader
    ([get_job_status] is called from coroutines of the server), so a reader
    runs before the task starts, while it is suspended at an [await], or
    after it has ended. *)
Definition observations (self : CodeResearcherSystem) (job : ResearchJob)
    : list ResearchJob :=
  job :: suspensions (log_of self job) ++ [final_job self job].

(** The job as a reader finds it at point [t] of these; a reader may come
    at any point, any number of times, and from the end of the task on
    readers see the final job. *)
Definition snapshot (self : CodeResearcherSystem) (job : ResearchJob) (t : nat)
    : ResearchJob :=
  nth t (observations self job) (final_job self job).

(** ** The life cycle the processor implements *)

Definition active (s : Status) : Prop := s = analyzing \/ s = creating_prs.

Definition terminal (s : Status) : Prop := s = completed \/ s = failed.

(** The changes of status the processor makes. *)
Definition transition (s s' : Status) : bool :=
  match s, s' with
  | pending, analyzing
  | analyzing, creating_prs
  | analyzing, failed
  | creating_prs, completed
  | creating_prs, failed => true
  | _, _ => false
  end.

(** [follows edge s l]: from [s] on, every next value of [l] equals the one
    before it or is reached from it by an edge. *)
Fixpoint follows (edge : Status -> Status -> bool) (s : Status) (l : list Status) : bool :=
  match l with
  | [] => true
  | s' :: l' => (bool_decide (s' = s) || edge s s') && follows edge s' l'
  end.

(** One entry of a run's log, leading from one job to the next. The status
    is assigned along the edges, or again while the job is active; once it
    is terminal only the error message and [completed_at] are assigned, and
    nothing happens to a job whose [completed_at] is set. *)
Inductive step : ResearchJob -> Entry -> ResearchJob -> Prop :=
| step_status j s j' :
    completed_at j = None ->
    (s = status j /\ active s) \/ transition (status j) s = true ->
    j' = set_status s j ->
    step j (Assign F_status j') j'
| step_field j f j' :
    f <> F_status -> f <> F_completed_at ->
    completed_at j = None ->
    status j' = status j -> completed_at j' = None ->
    (terminal (status j) -> f = F_error_message) ->
    step j (Assign f j') j'
| step_completed_at j t j' :
    completed_at j = None ->
    terminal (status j) ->
    j' = set_completed_at (Some t) j ->
    step j (Assign F_completed_at j') j'
| step_await j :
    completed_at j = None ->
    active (status j) ->
    step j (Await j) j
| step_visit j i r :
    active (status j) ->
    step j (Visit i r) j.

Inductive steps : ResearchJob -> list Entry -> ResearchJob -> Prop :=
| steps_nil j : steps j [] j
| steps_cons j e j1 log j2 : step j e j1 -> steps j1 log j2 -> steps j (e :: log) j2.

(** The job while candidates are processed. *)
Definition in_progress (j : ResearchJob) : Prop :=
  active (status j)
  /\ completed_at j = None
  /\ (some_nonempty (pull_requests j) = true -> status j = creating_prs).

(** A job as it is registered: [pending], with nothing recorded yet. *)
Definition fresh (j : ResearchJob) : Prop :=
  status j = pending /\ completed_at j = None /\ pull_requests j = None.

(** The order in which the statuses of the diagram come. *)
Definition rank (s : Status) : nat :=
  match s with
  | pending => 0 | analyzing => 1 | generating_fixes => 2 | creating_prs => 3
  | completed => 4 | failed => 5
  end.

(** [path edge l]: [l] is a walk along the edges, values repeated at
    will. *)
Definition path (edge : Status -> Status -> bool) (l : list Status) : bool :=
  match l with
  | [] => true
  | s :: l' => follows edge s l'
  end.

(** The run of the loop over candidates inside [_process_research_job],
    when the run gets that far. *)
Definition candidate_iteration (self : CodeResearcherSystem) (job : ResearchJob)
    : option (Result unit * ResearchJob * list Entry) :=
  match github_handler self with
  | None => None
  | Some gh =>
      match identify_relevant_repositories (alert job) (repositories job) with
      | [] => None
      | relevant_repos =>
          Some (process_candidates self gh 0 (firstn 2 relevant_repos)
                  (set_status analyzing job))
      end
  end.

(** The message of the exception a collaborator raises while the candidate
    at position [i] is processed, if one does. *)
Definition candidate_error (self : CodeResearcherSystem) (gh : GitHubHandler)
    (i : nat) (repo_config : RepositoryConfig) : option string :=
  match clone_repository gh i repo_config with
  | Raise msg => Some msg
  | Ok _ =>
      match analyze_crash self i repo_config with
      | Raise msg => Some msg
      | Ok res =>
          if analysis_complete res && bool_decide (fix_proposals res ≠ [])
          then match create_pull_request_for_fixes gh i repo_config
                       (fix_proposals res) with
               | Raise msg => Some msg
               | Ok _ => None
               end
          else None
      end
  end.

(** ** The state diagram of the specification (section 4.3) *)

Module SpecDiagram.

(** [pending → analyzing → {generating_fixes|failed} →
    {creating_prs|failed} → {completed|failed}] *)
Definition transition (s s' : Status) : bool :=
  match s, s' with
  | pending, analyzing
  | analyzing, generating_fixes
  | analyzing, failed
  | generating_fixes, creating_prs
  | generating_fixes, failed
  | creating_prs, completed
  | creating_prs, failed => true
  | _, _ => false
  end.

(** Every occurrence of [creating_prs] comes after one of
    [generating_fixes]. *)
Fixpoint fixes_before_prs (seen : bool) (l : list Status) : bool :=
  match l with
  | [] => true
  | s :: l' =>
      match s with
      | creating_prs => seen && fixes_before_prs seen l'
      | generating_fixes => fixes_before_prs true l'
      | _ => fixes_before_prs seen l'
      end
  end.

(** [l] is a path of the diagram on which [creating_prs] is reached
    through [generating_fixes]. *)
Definition conforms (l : list Status) : bool :=
  path transition l && fixes_before_prs false l.

End SpecDiagram.

(** ** Example data *)

Module Example.

(** the profiles of the ranking example of the specification *)
Definition repo_a : RepositoryConfig :=
  mkRepositoryConfig "acme" "lambda-service" "token" "main" ["**/*.py"]
    ["lambda"; "error"] "high".

Definition repo_b : RepositoryConfig :=
  mkRepositoryConfig "acme" "billing_api" "token" "main" ["**/*.py"] [] "low".

Definition keywords : list string := ["lambda"; "error"; "function"].

Definition alarm : Alert :=
  mkCloudWatchAlert "HighErrorRate-Lambda-Function" "Test" "ErrorRate"
    "AWS/Lambda" "2023-01-01T00:00:00.000Z" "ALARM"
    "Error rate exceeded threshold" "us-east-1" "123456789".

Definition config : HandlerConfig := mkHandlerConfig (Some ["test"; "canary"]).

(** an alarm whose name matches an ignore pattern, and one that is over *)
Definition test_alarm : Alert :=
  mkCloudWatchAlert "Nightly-TEST-Errors" "Test" "ErrorRate"
    "AWS/Lambda" "2023-01-01T00:00:00.000Z" "ALARM"
    "Error rate exceeded threshold" "us-east-1" "123456789".

Definition ok_alarm : Alert :=
  mkCloudWatchAlert "HighErrorRate-Lambda-Function" "Test" "ErrorRate"
    "AWS/Lambda" "2023-01-01T00:00:00.000Z" "OK"
    "Threshold not crossed" "us-east-1" "123456789".

(** the alarm of the parsing tests *)
Definition payload : dict :=
  [("AlarmName", JStr "TestAlarm");
   ("AlarmDescription", JStr "Test description");
   ("MetricName", JStr "ErrorRate");
   ("Namespace", JStr "AWS/Lambda");
   ("NewStateValue", JStr "ALARM");
   ("NewStateReason", JStr "Threshold crossed");
   ("StateChangeTime", JStr "2023-01-01T00:00:00.000Z");
   ("Region", JStr "us-east-1");
   ("AWSAccountId", JStr "123456789")].

(** a payload that itself has a [Message] entry *)
Definition payload_with_message : dict :=
  [("AlarmName", JStr "X"); ("Message", JStr "{}")].

(** The first clone fails; everything else succeeds. *)
Definition handler : GitHubHandler :=
  mkGitHubHandler
    (fun i _ => match i with 0 => Raise "clone failed" | _ => Ok tt end)
    (fun _ _ _ => Ok "https://github.com/acme/billing_api/pull/1").

Definition system : CodeResearcherSystem :=
  mkCodeResearcherSystem (Some handler)
    (fun _ _ => Ok (mkOrchestratorResult true ["fix"]))
    (fun _ => Ok tt) (fun _ => Ok tt) 160.

(** the same, without an access token *)
Definition system_without_handler : CodeResearcherSystem :=
  mkCodeResearcherSystem None
    (fun _ _ => Ok (mkOrchestratorResult true ["fix"]))
    (fun _ => Ok tt) (fun _ => Ok tt) 160.

Definition job : ResearchJob :=
  new_job "job-1" alarm [repo_a; repo_b] 100.

End Example.

(** ** The scores as binary64 numbers

    A Python [float] is an IEEE 754 binary64 number, and the threshold test
    and the sort of [identify_relevant_repositories] compare the scores as
    such numbers: what passes and what ties is decided by the rounded
    sums. This is the score and the ranking with the arithmetic of the
    program: every operation rounds to the nearest binary64 number, ties
    to even, and the operations come in the order of the source. *)

Module Float64.

Import SpecFloat.

Definition float : Type := spec_float.

Definition prec : Z := 53.

Definition emax : Z := 1024.

(** The value of an [int] as a [float]; exact below [2^53]. *)
Definition of_nat (n : nat) : float := binary_normalize prec emax (Z.of_nat n) 0 false.

Definition add (x y : float) : float := SFadd prec emax x y.

Definition mul (x y : float) : float := SFmul prec emax x y.

Definition div (x y : float) : float := SFdiv prec emax x y.

(** [x < y]; [y > x] is the same test *)
Definition ltb (x y : float) : bool := SFltb x y.

Definition is_nan (x : float) : bool :=
  match x with S754_nan => true | _ => false end.

(** [0.0] and [1.0] *)
Definition zero : float := S754_zero false.

Definition one : float := of_nat 1.

(** The literals [0.1], [0.2], [0.3] and [0.8]: a decimal literal is the
    binary64 number nearest to it, as is the quotient of [n] by [10]. *)
Definition tenths (n : nat) : float := div (of_nat n) (of_nat 10).

(** [len(a) / len(b)]: the quotient of two [int]s, rounded once. *)
Definition ratio (k n : nat) : float := div (of_nat k) (of_nat n).

Definition priority_boost : gmap string float :=
  {[ "high" := tenths 2; "medium" := tenths 1; "low" := zero ]}.

(** [min(a, b)] of Python: [b] when [b < a], else [a]. *)
Definition py_min (a b : float) : float := if ltb b a then b else a.

Definition _calculate_relevance_score
    (alert_keywords0 : list string) (repo_config : RepositoryConfig) : float :=
  match alert_keywords0 with
  | [] => zero
  | _ =>
    let alert_set : gset string := list_to_set alert_keywords0 in
    let score : float :=
      match alert_keywords repo_config with
      | _ :: _ =>
          let repo_set : gset string :=
            list_to_set (Str.lower <$> alert_keywords repo_config) in
          let overlap := alert_set ∩ repo_set in
          if bool_decide (overlap ≠ ∅)
          then add zero (mul (ratio (size overlap) (size alert_set)) (tenths 8))
          else zero
      | [] => tenths 3
      end in
    let score : float :=
      add score (default zero (priority_boost !! priority repo_config)) in
    let repo_name_words := _extract_words_from_text (name repo_config) in
    let name_overlap : gset string := alert_set ∩ list_to_set repo_name_words in
    let score : float :=
      if bool_decide (name_overlap ≠ ∅)
      then add score
             (mul (ratio (size name_overlap) (length alert_keywords0)) (tenths 3))
      else score in
    py_min score one
  end.

Definition Scored : Type := RepositoryConfig * float.

(** [relevance_score > 0.1] *)
Definition above_threshold (x : Scored) : bool := ltb (tenths 1) (snd x).

(** The loop of [identify_relevant_repositories] for given keywords. *)
Definition relevant_repos (kws : list string) (repo_configs : list RepositoryConfig)
    : list Scored :=
  List.filter above_threshold
    ((fun r => (r, _calculate_relevance_score kws r)) <$> repo_configs).

(** [list.sort(key=lambda x: x[1], reverse=True)]: descending by key and
    stable. [insert_desc x l] puts [x], which precedes all of [l] in the
    input, in front of the first entry whose key is not greater. *)
Fixpoint insert_desc {A} (key : A -> float) (x : A) (l : list A) : list A :=
  match l with
  | [] => [x]
  | y :: l' =>
      if ltb (key x) (key y) then y :: insert_desc key x l' else x :: l
  end.

Definition sort_desc {A} (key : A -> float) (l : list A) : list A :=
  foldr (insert_desc key) [] l.

Definition rank_with (kws : list string) (repo_configs : list RepositoryConfig)
    : list Scored :=
  firstn 3 (sort_desc snd (relevant_repos kws repo_configs)).

Definition identify_relevant_repositories
    (alert : Alert) (repo_configs : list RepositoryConfig) : list Scored :=
  rank_with (_extract_alert_keywords alert) repo_configs.

(** [before key pos a b]: [a] ranks before [b], by greater key, and by
    earlier position when neither key is less than the other. *)
Definition before {A} (key : A -> float) (pos : A -> nat) (a b : A) : Prop :=
  ltb (key b) (key a) = true
  \/ (ltb (key a) (key b) = false /\ ltb (key b) (key a) = false /\ pos a < pos b).

(** Four alert keywords; a profile of medium priority with one of them,
    which scores 1/4 * 0.8 + 0.1, in binary64 just above 0.3, and a profile
    without keywords, which scores 0.3. *)
Definition alarm4 : Alert :=
  mkCloudWatchAlert "alpha-beta-gamma-delta" "Test" EmptyString EmptyString
    "2023-01-01T00:00:00.000Z" "ALARM" "Threshold crossed" "us-east-1" "123456789".

Definition repo_yyy : RepositoryConfig :=
  mkRepositoryConfig "acme" "yyy" "token" "main" [] ["alpha"] "medium".

Definition repo_zzz : RepositoryConfig :=
  mkRepositoryConfig "acme" "zzz" "token" "main" [] [] "low".

End Float64.

(** * The rest of the alert path *)

(** ** More on strings *)

Module Str2.

(** [keep] holds of every character of [s]. *)
Fixpoint all_chars (keep : ascii -> bool) (s : string) : bool :=
  match s with
  | EmptyString => true
  | String c s' => keep c && all_chars keep s'
  end.

(** The maximal runs of characters that satisfy [keep], from left to
    right; [cur] is the run being read. *)
Fixpoint runs (keep : ascii -> bool) (cur : string) (s : string) : list string :=
  match s with
  | EmptyString => Str.flush cur
  | String c s' =>
      if keep c
      then runs keep (String.append cur (String c EmptyString)) s'
      else (Str.flush cur ++ runs keep EmptyString s')%list
  end.

(** The characters [str.isspace] accepts, among the ASCII ones: tab, line
    feed, vertical tab, form feed, carriage return, the four separators
    and the space. *)
Definition is_space (c : ascii) : bool :=
  let n := nat_of_ascii c in
  ((9 <=? n)%nat && (n <=? 13)%nat) || ((28 <=? n)%nat && (n <=? 32)%nat).

(** [s.split()] *)
Definition split (s : string) : list string :=
  runs (fun c => negb (is_space c)) EmptyString s.

(** [s.replace(a, b)] for single characters [a] and [b] *)
Fixpoint replace_char (a b : ascii) (s : string) : string :=
  match s with
  | EmptyString => EmptyString
  | String c s' =>
      String (if bool_decide (c = a) then b else c) (replace_char a b s')
  end.

(** A character of the ASCII range, on which [str.lower] and the class
    [\w] are what [Str.lower] and [Str.is_word_char] are. *)
Definition is_ascii (c : ascii) : bool := (nat_of_ascii c <? 128)%nat.

(** A word character that is not an upper-case letter. *)
Definition is_lower_word_char (c : ascii) : bool :=
  Str.is_lower c || Str.is_digit c || bool_decide (c = "_"%char).

End Str2.

(** [dataclasses.replace(r, priority=p)] *)
Definition with_priority (p : string) (r : RepositoryConfig) : RepositoryConfig :=
  mkRepositoryConfig (owner r) (name r) (access_token r) (branch r)
    (file_patterns r) (alert_keywords r) p.

(** ** Keywords of an alert ([CloudWatchAlertHandler.extract_keywords]) *)

Definition technical_terms : list string :=
  ["error"; "exception"; "timeout"; "fail"; "high"; "low"].

(** [any(tech in word for tech in [...])] *)
Definition is_technical (word : string) : bool :=
  existsb (fun tech => Str.contains tech word) technical_terms.

Definition extract_keywords (alert : Alert) : list string :=
  let alarm_words :=
    Str2.split (Str2.replace_char "_" " "
                  (Str2.replace_char "-" " " (Str.lower (alarm_name alert)))) in
  let keywords : list string := List.filter long_word alarm_words in
  let keywords :=
    if truthy (namespace alert)
    then
      let namespace_words :=
        Str2.split (Str2.replace_char "-" " "
                      (Str2.replace_char "/" " " (Str.lower (namespace alert)))) in
      keywords ++ List.filter long_word namespace_words
    else keywords in
  let keywords :=
    if truthy (metric_name alert)
    then
      let metric_words :=
        Str2.split (Str2.replace_char "_" " "
                      (Str2.replace_char "-" " " (Str.lower (metric_name alert)))) in
      keywords ++ List.filter long_word metric_words
    else keywords in
  let keywords :=
    if truthy (reason alert)
    then
      let reason_words := Str2.split (Str.lower (reason alert)) in
      keywords ++ List.filter is_technical reason_words
    else keywords in
  elements (list_to_set keywords : gset string).

(** ** Parsed alerts as the dataclass declares them *)

Definition as_string (v : json) : option string :=
  match v with JStr s => Some s | _ => None end.

(** The parsed alert when each of its fields is a string, as the dataclass
    declares. *)
Definition as_strings (a : CloudWatchAlert json) : option Alert :=
  alarm_name0 ← as_string (alarm_name a);
  alarm_description0 ← as_string (alarm_description a);
  metric_name0 ← as_string (metric_name a);
  namespace0 ← as_string (namespace a);
  timestamp0 ← as_string (timestamp a);
  state0 ← as_string (state a);
  reason0 ← as_string (reason a);
  region0 ← as_string (region a);
  account_id0 ← as_string (account_id a);
  Some (mkCloudWatchAlert alarm_name0 alarm_description0 metric_name0 namespace0
          timestamp0 state0 reason0 region0 account_id0).

(** ** Enrichment ([CloudWatchAlertHandler._enrich_alert_context]) *)

(** A datapoint of the monitoring service's answer: its [Timestamp],
    which the service always gives, and [Average] and [Maximum] as they
    print, [None] when the entry is missing. *)
Record Datapoint := mkDatapoint {
  dp_timestamp : nat;
  dp_average : option string;
  dp_maximum : option string
}.

(** [max(points, key=lambda x: x['Timestamp'])] with [best] the greatest so
    far: a later point replaces it only when its key is greater. *)
Fixpoint latest_of (best : Datapoint) (points : list Datapoint) : Datapoint :=
  match points with
  | [] => best
  | p :: rest =>
      if (dp_timestamp best <? dp_timestamp p)%nat then latest_of p rest
      else latest_of best rest
  end.

Definition latest_suffix (d : Datapoint) : string :=
  String.append " (Latest: Avg="
    (String.append (default "N/A" (dp_average d))
       (String.append ", Max="
          (String.append (default "N/A" (dp_maximum d)) ")"))).

Definition set_reason (r : string) (a : Alert) : Alert :=
  mkCloudWatchAlert (alarm_name a) (alarm_description a) (metric_name a)
    (namespace a) (timestamp a) (state a) r (region a) (account_id a).

(** [hour] is [datetime.now().hour]; [get_metric_statistics] is the
    service's answer, the [Datapoints] of its response. The start time is
    [datetime.now().replace(hour=hour - 1)], which raises [ValueError] for
    hour 0, before the service is called; the method catches every
    exception and returns the alert as it is. *)
Definition _enrich_alert_context
    (hour : nat) (get_metric_statistics : Result (list Datapoint)) (alert : Alert)
    : Alert :=
  if truthy (metric_name alert) && truthy (namespace alert)
  then
    match hour with
    | O => alert
    | S _ =>
        match get_metric_statistics with
        | Raise _ => alert
        | Ok [] => alert
        | Ok (p :: rest) =>
            let latest_datapoint := latest_of p rest in
            set_reason (String.append (reason alert) (latest_suffix latest_datapoint))
              alert
        end
    end
  else alert.

(** ** Configured repositories
       ([CodeResearcherSystem._get_configured_repositories]) *)

(** An entry of [vcs.github.repositories]; [None] for a missing key. *)
Record RepoData := mkRepoData {
  rd_owner : option string;
  rd_name : option string;
  rd_branch : option string;
  rd_file_patterns : option (list string);
  rd_alert_keywords : option (list string);
  rd_priority : option string
}.

(** [config['vcs']['github']], an empty dictionary when it is missing. *)
Record GitHubConfig := mkGitHubConfig {
  gc_access_token : option string;
  gc_repositories : option (list RepoData)
}.

Definition default_file_patterns : list string :=
  ["**/*.py"; "**/*.js"; "**/*.java"; "**/*.go"].

(** The constructor call of the loop body; a missing key raises
    [KeyError], whose text is the key in quotes. The arguments are
    evaluated in the order they are written. *)
Definition repository_config_of (github_config : GitHubConfig) (repo_data : RepoData)
    : Result RepositoryConfig :=
  match rd_owner repo_data with
  | None => Raise "'owner'"
  | Some o =>
      match rd_name repo_data with
      | None => Raise "'name'"
      | Some n =>
          match gc_access_token github_config with
          | None => Raise "'access_token'"
          | Some t =>
              Ok (mkRepositoryConfig o n t
                    (default "main" (rd_branch repo_data))
                    (default default_file_patterns (rd_file_patterns repo_data))
                    (default [] (rd_alert_keywords repo_data))
                    (default "medium" (rd_priority repo_data)))
          end
      end
  end.

Fixpoint configured_repositories (github_config : GitHubConfig) (datas : list RepoData)
    : Result (list RepositoryConfig) :=
  match datas with
  | [] => Ok []
  | repo_data :: rest =>
      match repository_config_of github_config repo_data with
      | Raise e => Raise e
      | Ok repo_config =>
          match configured_repositories github_config rest with
          | Raise e => Raise e
          | Ok repos => Ok (repo_config :: repos)
          end
      end
  end.

Definition _get_configured_repositories (github_config : GitHubConfig)
    : Result (list RepositoryConfig) :=
  configured_repositories github_config (default [] (gc_repositories github_config)).

(** ** The job registry ([active_jobs], [process_alert], [get_job_status],
       [list_active_jobs]) *)

(** The registry as it is at one moment: every id with its job as the job
    is then. A [dict] keeps its keys in the order of their first
    insertion. *)
Definition Jobs := list (string * ResearchJob).

(** [active_jobs.get(job_id)] *)
Fixpoint jobs_get (id : string) (jobs : Jobs) : option ResearchJob :=
  match jobs with
  | [] => None
  | (k, j) :: rest => if bool_decide (k = id) then Some j else jobs_get id rest
  end.

(** [active_jobs[job_id] = job] *)
Fixpoint jobs_set (id : string) (job : ResearchJob) (jobs : Jobs) : Jobs :=
  match jobs with
  | [] => [(id, job)]
  | (k, j) :: rest =>
      if bool_decide (k = id) then (k, job) :: rest
      else (k, j) :: jobs_set id job rest
  end.

(** What [process_alert] does: the job id it returns ([None] for a skipped
    alert), or the exception it lets through; the registry afterwards; the
    job whose processing it starts. [parsed] is the answer of
    [alert_handler.process_alert], [uuid] that of [uuid.uuid4()], [created]
    that of [datetime.now()]. *)
Definition process_alert
    (github_config : GitHubConfig) (handler_config : HandlerConfig)
    (parsed : Result Alert) (uuid : string) (created : nat) (active_jobs : Jobs)
    : Result (option string) * Jobs * option ResearchJob :=
  match parsed with
  | Raise e => (Raise e, active_jobs, None)
  | Ok alert =>
      if negb (validate_alert handler_config alert)
      then (Ok None, active_jobs, None)
      else
        let job_id := uuid in
        match _get_configured_repositories github_config with
        | Raise e => (Raise e, active_jobs, None)
        | Ok repositories =>
            let job := new_job job_id alert repositories created in
            (Ok (Some job_id), jobs_set job_id job active_jobs, Some job)
        end
  end.

(** The dictionary [get_job_status] returns, the entries of its [alert]
    entry among the others. *)
Record JobStatus := mkJobStatus {
  js_job_id : string;
  js_status : Status;
  js_alarm_name : string;
  js_timestamp : string;
  js_state : string;
  js_repositories_configured : nat;
  js_pull_requests_created : nat;
  js_error_message : option string;
  js_has_orchestrator_response : bool;
  js_created_at : option nat;
  js_completed_at : option nat
}.

Definition job_status_of (job : ResearchJob) : JobStatus :=
  mkJobStatus (job_id job) (status job)
    (alarm_name (alert job)) (timestamp (alert job)) (state (alert job))
    (length (repositories job))
    (length (default [] (pull_requests job)))
    (error_message job)
    (match orchestrator_response job with Some _ => true | None => false end)
    (created_at job) (completed_at job).

Definition get_job_status (active_jobs : Jobs) (id : string) : option JobStatus :=
  match jobs_get id active_jobs with
  | None => None
  | Some job => Some (job_status_of job)
  end.

(** [[self.get_job_status(job_id) for job_id in self.active_jobs.keys()]] *)
Definition list_active_jobs (active_jobs : Jobs) : list (option JobStatus) :=
  (fun id => get_job_status active_jobs id) <$> active_jobs.*1.

(** What the processing of a job leaves alone. *)
Definition same_identity (j j' : ResearchJob) : Prop :=
  job_id j' = job_id j /\ alert j' = alert j
  /\ repositories j' = repositories j /\ created_at j' = created_at j.

(** The pull request the processing of the candidate at position [i]
    creates: the answer of the host, asked after an analysis that is
    complete and proposes fixes. *)
Definition created_for (self : CodeResearcherSystem) (gh : GitHubHandler)
    (i : nat) (repo_config : RepositoryConfig) (url : string) : Prop :=
  exists res,
    analyze_crash self i repo_config = Ok res
    /\ analysis_complete res = true
    /\ fix_proposals res <> []
    /\ create_pull_request_for_fixes gh i repo_config (fix_proposals res) = Ok url.

(** The branch [_create_pull_request_for_fixes] names:
    [f"auto-fix/{alert.alarm_name.lower().replace(' ', '-')}-{int(time.time())}"];
    [time] is [int(time.time())]. *)
Definition branch_name (alert : Alert) (time : nat) : string :=
  String.append "auto-fix/"
    (String.append (Str2.replace_char " " "-" (Str.lower (alarm_name alert)))
       (String.append "-" (NilZero.string_of_uint (Nat.to_uint time)))).

(** ** The webhook ([webhook_server.cloudwatch_webhook]) *)

(** The request model: every field is optional. *)
Record CloudWatchWebhookRequest := mkWebhookRequest {
  wr_Type : option string;
  wr_MessageId : option string;
  wr_TopicArn : option string;
  wr_Subject : option string;
  wr_Message : option string;
  wr_Timestamp : option string;
  wr_SignatureVersion : option string;
  wr_Signature : option string;
  wr_SigningCertURL : option string;
  wr_UnsubscribeURL : option string
}.

Definition json_of_field (v : option string) : json :=
  match v with Some s => JStr s | None => JNull end.

(** [request.dict()]: every field of the model, [None] for those not
    given. *)
Definition request_dict (r : CloudWatchWebhookRequest) : dict :=
  [("Type", json_of_field (wr_Type r));
   ("MessageId", json_of_field (wr_MessageId r));
   ("TopicArn", json_of_field (wr_TopicArn r));
   ("Subject", json_of_field (wr_Subject r));
   ("Message", json_of_field (wr_Message r));
   ("Timestamp", json_of_field (wr_Timestamp r));
   ("SignatureVersion", json_of_field (wr_SignatureVersion r));
   ("Signature", json_of_field (wr_Signature r));
   ("SigningCertURL", json_of_field (wr_SigningCertURL r));
   ("UnsubscribeURL", json_of_field (wr_UnsubscribeURL r))].

Inductive WebhookAnswer :=
| SubscriptionReceived
| Queued (alert_data : dict)
| NotSupported.

(** The endpoint once the system is initialized. *)
Definition cloudwatch_webhook (request : CloudWatchWebhookRequest) : WebhookAnswer :=
  if bool_decide (wr_Type request = Some "SubscriptionConfirmation")
  then SubscriptionReceived
  else if bool_decide (wr_Type request = Some "Notification")
  then Queued (request_dict request)
  else NotSupported.

(** ** More example data *)

Module Example2.

Definition github_config : GitHubConfig :=
  mkGitHubConfig (Some "token")
    (Some [mkRepoData (Some "acme") (Some "lambda-service") None None
             (Some ["lambda"; "error"]) (Some "high");
           mkRepoData (Some "acme") (Some "billing_api") None None None None]).

(** no access token, and a repository *)
Definition config_without_token : GitHubConfig :=
  mkGitHubConfig None
    (Some [mkRepoData (Some "acme") (Some "billing_api") None None None None]).

Definition points : list Datapoint :=
  [mkDatapoint 10 (Some "1.5") (Some "3.0");
   mkDatapoint 30 (Some "2.5") None;
   mkDatapoint 20 None (Some "9.0")].

Definition notification : CloudWatchWebhookRequest :=
  mkWebhookRequest (Some "Notification") (Some "id-1") None None
    (Some (MiniJson.dumps (JObj Example.payload))) None None None None None.

(** The analysis of every candidate ends without result. *)
Definition system_without_analysis : CodeResearcherSystem :=
  mkCodeResearcherSystem
    (Some (mkGitHubHandler (fun _ _ => Ok tt) (fun _ _ _ => Raise "not asked")))
    (fun _ _ => Ok (mkOrchestratorResult false []))
    (fun _ => Ok tt) (fun _ => Ok tt) 160.

(** Both clones fail, the second without a message. *)
Definition handler_without_clones : GitHubHandler :=
  mkGitHubHandler
    (fun i _ => match i with 0 => Raise "clone failed" | _ => Raise EmptyString end)
    (fun _ _ _ => Raise "not asked").

Definition system_without_clones : CodeResearcherSystem :=
  mkCodeResearcherSystem (Some handler_without_clones)
    (fun _ _ => Ok (mkOrchestratorResult true ["fix"]))
    (fun _ => Ok tt) (fun _ => Ok tt) 160.

(** The workspace of the first candidate cannot be made; everything else
    succeeds. *)
Definition system_without_workspace : CodeResearcherSystem :=
  mkCodeResearcherSystem
    (Some (mkGitHubHandler (fun _ _ => Ok tt)
             (fun _ _ _ => Ok "https://github.com/acme/billing_api/pull/1")))
    (fun _ _ => Ok (mkOrchestratorResult true ["fix"]))
    (fun i => match i with 0 => Raise "No space left on device" | _ => Ok tt end)
    (fun _ => Ok tt) 160.

End Example2.

(** * Properties *)

(** ** Arithmetic of scores *)

Lemma py_min_Qmin (a b : Q) : py_min a b = Qmin a b.
Proof.
  unfold py_min, Qmin, GenericMinMax.gmin.
  destruct (Qlt_le_dec b a) as [Hlt | Hle].
  - apply Qgt_alt in Hlt. now rewrite Hlt.
  - destruct (a ?= b)%Q eqn:E; try reflexivity.
    apply Qgt_alt in E. exfalso. apply (Qlt_irrefl a). eapply Qle_lt_trans; eauto.
Qed.

Lemma ratio_0 (n : nat) : (ratio 0 n == 0)%Q.
Proof. unfold ratio. simpl. unfold Qdiv. apply Qmult_0_l. Qed.

Lemma ratio_nonneg (k n : nat) : (0 <= ratio k n)%Q.
Proof.
  unfold ratio, Qdiv. apply Qmult_le_0_compat.
  - unfold Qle; simpl. lia.
  - apply Qinv_le_0_compat. unfold Qle; simpl. lia.
Qed.

Lemma priority_boost_spec (p : Spec.Priority) :
  default 0%Q (priority_boost !! Spec.priority_name p) = Spec.priority_term p.
Proof. destruct p; reflexivity. Qed.

Lemma list_to_set_nil_iff (l : list string) :
  (list_to_set l : gset string) = ∅ <-> l = [].
Proof.
  split; [| intros ->; reflexivity].
  destruct l as [| x l]; [reflexivity |].
  intros H. exfalso. apply (not_elem_of_empty (C := gset string) x).
  rewrite <- H. set_solver.
Qed.

(** Adding an overlap term only when the overlap is non-empty adds it
    always: an empty overlap contributes zero. *)
Lemma add_if_nonempty (s : gset string) (n : nat) (acc w : Q) :
  ((if bool_decide (s ≠ ∅) then acc + ratio (size s) n * w else acc)
   == acc + ratio (size s) n * w)%Q.
Proof.
  case_bool_decide as H; [reflexivity |].
  rewrite H, size_empty, ratio_0. ring.
Qed.

(** ** C1: the score is the formula of section 4.1 *)

(** C1. For every alert keyword set [K], given as a duplicate-free list
    [ks], and every repository profile [r] whose priority is one of low,
    medium, high, the computed score equals the formula of the
    specification: 0 for empty [K]; otherwise the keyword-overlap term
    (|K ∩ keywords| / |K| * 0.8 for non-empty keywords, else 0.3) plus the
    priority term plus |K ∩ nameTokens| / |K| * 0.3, capped at 1. *)
Theorem score_formula (ks : list string) (r : RepositoryConfig) (p : Spec.Priority) :
  NoDup ks ->
  priority r = Spec.priority_name p ->
  (_calculate_relevance_score ks r == Spec.score (list_to_set ks) r p)%Q.
Proof.
  intros Hnd Hp. unfold Spec.score.
  destruct ks as [| k ks]; [reflexivity |].
  destruct (decide _) as [He | _].
  { apply list_to_set_nil_iff in He. discriminate. }
  unfold _calculate_relevance_score.
  rewrite py_min_Qmin. apply Q.min_compat; [| reflexivity].
  rewrite add_if_nonempty, Hp, priority_boost_spec.
  rewrite (size_list_to_set (C := gset string)) by assumption.
  apply Qplus_comp; [| reflexivity].
  apply Qplus_comp; [| reflexivity].
  unfold Spec.keywords.
  destruct (alert_keywords r) as [| kw kws] eqn:Ekw.
  - rewrite decide_True by reflexivity. reflexivity.
  - rewrite decide_False by (rewrite list_to_set_nil_iff; discriminate).
    rewrite (add_if_nonempty _ _ 0%Q). ring.
Qed.

(** An instance: profile A of the ranking example. *)
Lemma score_formula_witness :
  NoDup Example.keywords
  /\ priority Example.repo_a = Spec.priority_name Spec.high
  /\ (_calculate_relevance_score Example.keywords Example.repo_a
       == Spec.score (list_to_set Example.keywords) Example.repo_a Spec.high)%Q.
Proof.
  assert (Hnd : NoDup Example.keywords).
  { apply (bool_decide_unpack _). vm_compute. exact I. }
  split; [exact Hnd |]. split; [reflexivity |].
  apply (score_formula Example.keywords Example.repo_a Spec.high Hnd).
  reflexivity.
Defined.

(** The ranking example of the specification: with alert keywords
    lambda, error and function, profile A scores 2/3 * 0.8 + 0.2 + 1/3 * 0.3
    and profile B, without keywords, 0.3. *)
Lemma example_scores :
  (_calculate_relevance_score Example.keywords Example.repo_a == 5 # 6)%Q
  /\ (_calculate_relevance_score Example.keywords Example.repo_b == 3 # 10)%Q.
Proof. split; vm_compute; reflexivity. Qed.

(** ** Stable descending sort *)

Section SortDesc.

Context {A : Type} (key : A -> Q).

Lemma insert_desc_perm (x : A) (l : list A) : insert_desc key x l ≡ₚ x :: l.
Proof.
  induction l as [| y l IH]; simpl; [reflexivity |].
  destruct (Qlt_le_dec (key x) (key y)); [| reflexivity].
  rewrite IH. apply Permutation_swap.
Qed.

Lemma sort_desc_perm (l : list A) : sort_desc key l ≡ₚ l.
Proof.
  induction l as [| x l IH]; simpl; [reflexivity |].
  rewrite insert_desc_perm. now rewrite IH.
Qed.

Lemma sort_desc_Forall (P : A -> Prop) (l : list A) :
  Forall P l -> Forall P (sort_desc key l).
Proof. intros H. now rewrite sort_desc_perm. Qed.

Variable pos : A -> nat.

Lemma before_key_le (a b : A) : before key pos a b -> (key b <= key a)%Q.
Proof.
  intros [H | [H _]]; [now apply Qlt_le_weak |].
  rewrite H. apply Qle_refl.
Qed.

Lemma insert_desc_sorted (x : A) (l : list A) :
  StronglySorted (before key pos) l ->
  Forall (fun y => pos x < pos y) l ->
  StronglySorted (before key pos) (insert_desc key x l).
Proof.
  induction 1 as [| y l Hs IH Hy]; intros Hpos; simpl.
  - repeat constructor.
  - apply Forall_cons in Hpos as [Hxy Hpos].
    destruct (Qlt_le_dec (key x) (key y)) as [Hlt | Hle].
    + constructor; [now apply IH |].
      rewrite insert_desc_perm. constructor; [now left | assumption].
    + constructor; [now constructor |].
      assert (Hall : Forall (fun z => (key z <= key x)%Q /\ pos x < pos z) (y :: l)).
      { constructor; [easy |].
        rewrite Forall_forall in Hy, Hpos |- *. intros z Hz. split; [| now apply Hpos].
        eapply Qle_trans; [apply before_key_le, Hy, Hz | exact Hle]. }
      eapply Forall_impl; [exact Hall |].
      intros z [Hz Hp]. apply Qle_lt_or_eq in Hz as [Hz | Hz]; [now left |].
      right. split; [now symmetry | exact Hp].
Qed.

(** Sorting a list whose positions increase yields a list ranked by
    [before]: descending keys, equal keys in input order. *)
Lemma sort_desc_sorted (l : list A) :
  StronglySorted (fun a b => pos a < pos b) l ->
  StronglySorted (before key pos) (sort_desc key l).
Proof.
  induction 1 as [| x l Hs IH Hx]; simpl; [constructor |].
  apply insert_desc_sorted; [exact IH |].
  now apply sort_desc_Forall.
Qed.

End SortDesc.

Lemma insert_desc_fmap {A B} (f : A -> B) (key : B -> Q) (x : A) (l : list A) :
  insert_desc key (f x) (f <$> l) = f <$> insert_desc (key ∘ f) x l.
Proof.
  induction l as [| y l IH]; simpl; [reflexivity |].
  destruct (Qlt_le_dec (key (f x)) (key (f y))); simpl; [| reflexivity].
  f_equal. exact IH.
Qed.

Lemma sort_desc_fmap {A B} (f : A -> B) (key : B -> Q) (l : list A) :
  sort_desc key (f <$> l) = f <$> sort_desc (key ∘ f) l.
Proof.
  unfold sort_desc. induction l as [| x l IH]; simpl; [reflexivity |].
  etransitivity; [| apply insert_desc_fmap]. f_equal. exact IH.
Qed.

Lemma filter_fmap {A B} (f : A -> B) (p : B -> bool) (l : list A) :
  List.filter p (f <$> l) = f <$> List.filter (p ∘ f) l.
Proof.
  induction l as [| x l IH]; simpl; [reflexivity |].
  destruct (p (f x)); simpl; [f_equal |]; exact IH.
Qed.

Lemma StronglySorted_filter {A} (R : A -> A -> Prop) (p : A -> bool) (l : list A) :
  StronglySorted R l -> StronglySorted R (List.filter p l).
Proof.
  induction 1 as [| x l Hs IH Hx]; simpl; [constructor |].
  destruct (p x); [| exact IH].
  constructor; [exact IH |].
  rewrite List.Forall_forall in Hx |- *. intros y Hy. apply Hx.
  apply filter_In in Hy. tauto.
Qed.

Lemma In_firstn {A} (x : A) (n : nat) (l : list A) : In x (firstn n l) -> In x l.
Proof.
  intros H. rewrite <- (firstn_skipn n l). apply in_or_app. now left.
Qed.

Lemma StronglySorted_firstn {A} (R : A -> A -> Prop) (n : nat) (l : list A) :
  StronglySorted R l -> StronglySorted R (firstn n l).
Proof.
  intros H. revert n. induction H as [| x l Hs IH Hx]; intros [| n]; simpl;
    try constructor; [apply IH |].
  rewrite List.Forall_forall in Hx |- *. intros y Hy. apply Hx.
  eapply In_firstn, Hy.
Qed.

Lemma enumerate_from_snd {A} (n : nat) (l : list A) : (enumerate_from n l).*2 = l.
Proof.
  revert n. induction l as [| x l IH]; intros n; simpl; [reflexivity |].
  f_equal. apply IH.
Qed.

Lemma enumerate_from_lookup {A} (n i : nat) (x : A) (l : list A) :
  In (i, x) (enumerate_from n l) -> n <= i /\ l !! (i - n) = Some x.
Proof.
  revert n. induction l as [| y l IH]; intros n; simpl; [tauto |].
  intros [H | H].
  - inversion H; subst. split; [lia |]. now rewrite Nat.sub_diag.
  - apply IH in H as [Hle Hl]. split; [lia |].
    replace (i - n) with (S (i - S n)) by lia. exact Hl.
Qed.

Lemma enumerate_from_sorted {A} (n : nat) (l : list A) :
  StronglySorted (fun a b : nat * A => fst a < fst b) (enumerate_from n l).
Proof.
  revert n. induction l as [| x l IH]; intros n; simpl; constructor; [apply IH |].
  rewrite List.Forall_forall. intros [i y] Hy. simpl.
  apply enumerate_from_lookup in Hy. lia.
Qed.

(** Two rankings of the same entries by a relation that no two entries
    satisfy both ways are the same list. *)
Lemma sorted_perm_unique {A} (R : A -> A -> Prop) (l1 l2 : list A) :
  (forall a b, R a b -> R b a -> False) ->
  StronglySorted R l1 -> StronglySorted R l2 -> l1 ≡ₚ l2 -> l1 = l2.
Proof.
  intros Hasym Hs1. revert l2.
  induction Hs1 as [| a l1 Hs1 IH Ha]; intros l2 Hs2 Hp.
  - now apply Permutation_nil_l in Hp.
  - destruct Hs2 as [| b l2 Hs2 Hb].
    + now apply Permutation_nil_r in Hp.
    + assert (a = b) as ->.
      { assert (Hin : In a (b :: l2))
          by (eapply Permutation_in; [exact Hp | now left]).
        assert (Hin' : In b (a :: l1))
          by (eapply Permutation_in; [symmetry; exact Hp | now left]).
        destruct Hin as [<- | Hin]; [reflexivity |].
        destruct Hin' as [<- | Hin']; [reflexivity |].
        rewrite List.Forall_forall in Ha, Hb.
        exfalso. eapply Hasym; [apply Ha, Hin' | apply Hb, Hin]. }
      f_equal. apply IH; [exact Hs2 |]. eapply Permutation_cons_inv, Hp.
Qed.

Lemma before_asym {A} (key : A -> Q) (pos : A -> nat) (a b : A) :
  before key pos a b -> before key pos b a -> False.
Proof.
  intros [H1 | [H1 P1]] [H2 | [H2 P2]].
  - apply (Qlt_irrefl (key a)). eapply Qlt_trans; eauto.
  - rewrite H2 in H1. now apply Qlt_irrefl in H1.
  - rewrite H1 in H2. now apply Qlt_irrefl in H2.
  - lia.
Qed.

(** [sort_desc] is the stable descending sort: any rearrangement of the
    input, taken with its positions, that is descending by key with equal
    keys in input order, is the list [sort_desc] returns. So the model
    does not depend on the algorithm behind [list.sort]. *)
Lemma sort_desc_unique {A} (key : A -> Q) (l : list A) (placed : list (nat * A)) :
  placed ≡ₚ enumerate_from 0 l ->
  StronglySorted (before (key ∘ snd) fst) placed ->
  placed.*2 = sort_desc key l.
Proof.
  intros Hp Hs.
  rewrite <- (enumerate_from_snd 0 l) at 1. rewrite sort_desc_fmap. f_equal.
  apply (sorted_perm_unique (before (key ∘ snd) fst)).
  - apply before_asym.
  - exact Hs.
  - apply sort_desc_sorted, enumerate_from_sorted.
  - rewrite Hp. symmetry. apply sort_desc_perm.
Qed.

(** ** The score depends on the keyword set only *)

Lemma score_perm (ks ks' : list string) (r : RepositoryConfig) :
  ks ≡ₚ ks' -> _calculate_relevance_score ks r = _calculate_relevance_score ks' r.
Proof.
  intros Hp. unfold _calculate_relevance_score.
  destruct ks as [| k ks], ks' as [| k' ks'].
  - reflexivity.
  - apply Permutation_nil_l in Hp. discriminate.
  - apply Permutation_nil_r in Hp. discriminate.
  - rewrite (list_to_set_perm_L (C := gset string) _ _ Hp).
    now rewrite (Permutation_length Hp).
Qed.

Lemma relevant_repos_perm (ks ks' : list string) (repo_configs : list RepositoryConfig) :
  ks ≡ₚ ks' -> relevant_repos ks repo_configs = relevant_repos ks' repo_configs.
Proof.
  intros Hp. unfold relevant_repos. f_equal.
  apply list_fmap_ext. intros _ r _. f_equal. now apply score_perm.
Qed.

(** ** C2: ranking *)

Lemma above_threshold_lt (x : Scored) : above_threshold x = true <-> (1 # 10 < snd x)%Q.
Proof.
  unfold above_threshold. destruct (Qlt_le_dec (1 # 10) (snd x)) as [H | H].
  - tauto.
  - split; [discriminate |]. intros H'. exfalso.
    apply (Qlt_irrefl (snd x)). eapply Qle_lt_trans; eauto.
Qed.

(** The ranking, with every entry next to its position in the input. *)
Lemma rank_with_placed (kws : list string) (repo_configs : list RepositoryConfig) :
  let scored := (fun r => (r, _calculate_relevance_score kws r)) <$> repo_configs in
  let placed :=
    firstn 3 (sort_desc (snd ∘ snd)
                (List.filter (above_threshold ∘ snd) (enumerate_from 0 scored))) in
  rank_with kws repo_configs = placed.*2.
Proof.
  intros scored placed. unfold rank_with, relevant_repos. fold scored.
  rewrite <- (enumerate_from_snd 0 scored) at 1.
  rewrite filter_fmap, sort_desc_fmap. subst placed.
  now rewrite fmap_take.
Qed.

(** *** The order of binary64 numbers *)

Lemma float_ltb_not_nan (x y : Float64.float) :
  Float64.ltb x y = true -> Float64.is_nan x = false /\ Float64.is_nan y = false.
Proof. destruct x, y; simpl; try discriminate; auto. Qed.

Ltac float_compare :=
  repeat match goal with
         | |- context [Z.compare ?a ?b] => destruct (Z.compare_spec a b)
         | H : context [Z.compare ?a ?b] |- _ => destruct (Z.compare_spec a b)
         | |- context [Pos.compare_cont Eq ?a ?b] =>
             change (Pos.compare_cont Eq a b) with (Pos.compare a b);
             destruct (Pos.compare_spec a b)
         | H : context [Pos.compare_cont Eq ?a ?b] |- _ =>
             change (Pos.compare_cont Eq a b) with (Pos.compare a b) in H;
             destruct (Pos.compare_spec a b)
         end.

Lemma float_ltb_trans (x y z : Float64.float) :
  Float64.ltb x y = true -> Float64.ltb y z = true -> Float64.ltb x z = true.
Proof.
  unfold Float64.ltb, SpecFloat.SFltb, SpecFloat.SFcompare.
  destruct x as [[]|[]| |[] mx ex], y as [[]|[]| |[] my ey], z as [[]|[]| |[] mz ez];
    simpl; try discriminate; try reflexivity; intros H1 H2;
    float_compare; simpl in *; try discriminate; try reflexivity; try lia.
Qed.

Lemma float_ltb_asym (x y : Float64.float) :
  Float64.ltb x y = true -> Float64.ltb y x = false.
Proof.
  unfold Float64.ltb, SpecFloat.SFltb, SpecFloat.SFcompare.
  destruct x as [[]|[]| |[] mx ex], y as [[]|[]| |[] my ey];
    simpl; try discriminate; try reflexivity; intros H1;
    float_compare; simpl in *; try discriminate; try reflexivity; try lia.
Qed.

(** Among numbers, not to be less is transitive. *)
Lemma float_ltb_neg_trans (x y z : Float64.float) :
  Float64.is_nan y = false ->
  Float64.ltb x y = false -> Float64.ltb y z = false -> Float64.ltb x z = false.
Proof.
  unfold Float64.ltb, SpecFloat.SFltb, SpecFloat.SFcompare.
  destruct x as [[]|[]| |[] mx ex], y as [[]|[]| |[] my ey], z as [[]|[]| |[] mz ez];
    simpl; try discriminate; try reflexivity; intros _ H1 H2;
    float_compare; simpl in *; try discriminate; try reflexivity; try lia.
Qed.

(** *** The stable descending sort on binary64 keys *)

Section FloatSortDesc.

Context {A : Type} (key : A -> Float64.float).

Lemma float_insert_desc_perm (x : A) (l : list A) :
  Float64.insert_desc key x l ≡ₚ x :: l.
Proof.
  induction l as [| y l IH]; simpl; [reflexivity |].
  destruct (Float64.ltb (key x) (key y)); [| reflexivity].
  rewrite IH. apply Permutation_swap.
Qed.

Lemma float_sort_desc_perm (l : list A) : Float64.sort_desc key l ≡ₚ l.
Proof.
  induction l as [| x l IH]; simpl; [reflexivity |].
  rewrite float_insert_desc_perm. now rewrite IH.
Qed.

Variable pos : A -> nat.

(** An entry ranked before another has a key that is not less. *)
Lemma float_before_not_less (a b : A) :
  Float64.before key pos a b -> Float64.ltb (key a) (key b) = false.
Proof. intros [H | [H _]]; [now apply float_ltb_asym | exact H]. Qed.

Lemma float_insert_desc_sorted (x : A) (l : list A) :
  StronglySorted (Float64.before key pos) l ->
  List.Forall (fun y => pos x < pos y) l ->
  List.Forall (fun y => Float64.is_nan (key y) = false) l ->
  StronglySorted (Float64.before key pos) (Float64.insert_desc key x l).
Proof.
  induction 1 as [| y l Hs IH Hy]; intros Hpos Hnan; simpl.
  - repeat constructor.
  - inversion Hpos as [| ? ? Hxy Hpos']; subst.
    inversion Hnan as [| ? ? Hny Hnan']; subst.
    destruct (Float64.ltb (key x) (key y)) eqn:Hlt.
    + constructor; [now apply IH |].
      rewrite float_insert_desc_perm. constructor; [now left | assumption].
    + constructor; [now constructor |].
      assert (Hall : List.Forall
                       (fun z => Float64.ltb (key x) (key z) = false /\ pos x < pos z)
                       (y :: l)).
      { constructor; [easy |].
        rewrite List.Forall_forall in Hy, Hpos' |- *.
        intros z Hz. split; [| now apply Hpos'].
        apply (float_ltb_neg_trans _ (key y)); [exact Hny | exact Hlt |].
        apply float_before_not_less, Hy, Hz. }
      eapply List.Forall_impl; [| exact Hall].
      intros z [Hz Hp]. unfold Float64.before.
      destruct (Float64.ltb (key z) (key x)); [now left | right; auto].
Qed.

(** Sorting a list of numbers whose positions increase yields a list
    ranked by [before]: descending keys, and input order where neither
    key is less. *)
Lemma float_sort_desc_sorted (l : list A) :
  StronglySorted (fun a b => pos a < pos b) l ->
  List.Forall (fun y => Float64.is_nan (key y) = false) l ->
  StronglySorted (Float64.before key pos) (Float64.sort_desc key l).
Proof.
  induction 1 as [| x l Hs IH Hx]; intros Hnan; simpl; [constructor |].
  inversion Hnan as [| ? ? _ Hnan']; subst.
  apply float_insert_desc_sorted; [now apply IH | |].
  - eapply Permutation_Forall; [symmetry; apply float_sort_desc_perm | exact Hx].
  - eapply Permutation_Forall; [symmetry; apply float_sort_desc_perm | exact Hnan'].
Qed.

End FloatSortDesc.

Lemma float_insert_desc_fmap {A B} (f : A -> B) (key : B -> Float64.float)
    (x : A) (l : list A) :
  Float64.insert_desc key (f x) (f <$> l) = f <$> Float64.insert_desc (key ∘ f) x l.
Proof.
  induction l as [| y l IH]; simpl; [reflexivity |].
  destruct (Float64.ltb (key (f x)) (key (f y))); simpl; [| reflexivity].
  f_equal. exact IH.
Qed.

Lemma float_sort_desc_fmap {A B} (f : A -> B) (key : B -> Float64.float) (l : list A) :
  Float64.sort_desc key (f <$> l) = f <$> Float64.sort_desc (key ∘ f) l.
Proof.
  unfold Float64.sort_desc. induction l as [| x l IH]; simpl; [reflexivity |].
  etransitivity; [| apply float_insert_desc_fmap]. f_equal. exact IH.
Qed.

(** The binary64 score depends on the keyword list through its set and
    its length only. *)
Lemma float_score_perm (ks ks' : list string) (r : RepositoryConfig) :
  ks ≡ₚ ks' ->
  Float64._calculate_relevance_score ks r = Float64._calculate_relevance_score ks' r.
Proof.
  intros Hp. unfold Float64._calculate_relevance_score.
  destruct ks as [| k ks], ks' as [| k' ks'].
  - reflexivity.
  - apply Permutation_nil_l in Hp. discriminate.
  - apply Permutation_nil_r in Hp. discriminate.
  - rewrite (list_to_set_perm_L (C := gset string) _ _ Hp).
    now rewrite (Permutation_length Hp).
Qed.

Lemma float_relevant_repos_perm (ks ks' : list string)
    (repo_configs : list RepositoryConfig) :
  ks ≡ₚ ks' ->
  Float64.relevant_repos ks repo_configs = Float64.relevant_repos ks' repo_configs.
Proof.
  intros Hp. unfold Float64.relevant_repos. f_equal.
  apply list_fmap_ext. intros _ r _. f_equal. now apply float_score_perm.
Qed.

(** The ranking, with every entry next to its position in the input. *)
Lemma float_rank_with_placed (kws : list string) (repo_configs : list RepositoryConfig) :
  let scored :=
    (fun r => (r, Float64._calculate_relevance_score kws r)) <$> repo_configs in
  let placed :=
    firstn 3 (Float64.sort_desc (snd ∘ snd)
                (List.filter (Float64.above_threshold ∘ snd)
                   (enumerate_from 0 scored))) in
  Float64.rank_with kws repo_configs = placed.*2.
Proof.
  intros scored placed. unfold Float64.rank_with, Float64.relevant_repos. fold scored.
  rewrite <- (enumerate_from_snd 0 scored) at 1.
  rewrite filter_fmap, float_sort_desc_fmap. subst placed.
  now rewrite fmap_take.
Qed.

(** C2. For every alert and every list of repository profiles, the ranking
    the program computes on its binary64 scores has at most 3 entries;
    every entry scores strictly more than 0.1; the entries are input
    profiles with their scores, in descending order of score, entries
    neither of which scores less than the other in the order of their
    input positions; the output does not depend on the order in which the
    alert's keyword set is enumerated; and when no profile clears the
    threshold the result is the empty list. *)
Theorem rank_properties (alert : Alert) (repo_configs : list RepositoryConfig) :
  let kws := _extract_alert_keywords alert in
  let out := Float64.identify_relevant_repositories alert repo_configs in
  length out <= 3
  /\ Forall (fun x : Float64.Scored => Float64.ltb (Float64.tenths 1) (snd x) = true) out
  /\ (exists placed : list (nat * Float64.Scored),
        placed.*2 = out
        /\ Forall (fun p : nat * Float64.Scored =>
                     repo_configs !! fst p = Some (fst (snd p))
                     /\ snd (snd p)
                        = Float64._calculate_relevance_score kws (fst (snd p)))
                  placed
        /\ StronglySorted (Float64.before (snd ∘ snd) fst) placed)
  /\ (forall kws', kws' ≡ₚ kws -> Float64.rank_with kws' repo_configs = out)
  /\ ((forall r, In r repo_configs ->
         Float64.ltb (Float64.tenths 1) (Float64._calculate_relevance_score kws r)
         = false) ->
      out = []).
Proof.
  intros kws out. subst out. unfold Float64.identify_relevant_repositories. fold kws.
  repeat split.
  - unfold Float64.rank_with. rewrite length_take. lia.
  - unfold Float64.rank_with. rewrite List.Forall_forall. intros x Hx.
    apply In_firstn in Hx.
    apply (Permutation_in _ (float_sort_desc_perm snd _)) in Hx.
    apply filter_In in Hx as [_ Hx]. exact Hx.
  - eexists. split; [symmetry; apply float_rank_with_placed |]. split.
    + rewrite List.Forall_forall. intros [i [r s]] Hp. simpl.
      apply In_firstn in Hp.
      apply (Permutation_in _ (float_sort_desc_perm _ _)) in Hp.
      apply filter_In in Hp as [Hp _].
      apply enumerate_from_lookup in Hp as [_ Hp].
      rewrite Nat.sub_0_r, list_lookup_fmap in Hp.
      destruct (repo_configs !! i) as [r' |]; simpl in Hp; [| discriminate].
      now inversion Hp.
    + apply StronglySorted_firstn, float_sort_desc_sorted.
      * apply StronglySorted_filter, enumerate_from_sorted.
      * rewrite List.Forall_forall. intros [i x] Hx.
        apply filter_In in Hx as [_ Hx].
        exact (proj2 (float_ltb_not_nan _ _ Hx)).
  - intros kws' Hp. unfold Float64.rank_with.
    now rewrite (float_relevant_repos_perm _ _ _ Hp).
  - intros Hall. unfold Float64.rank_with.
    replace (Float64.relevant_repos kws repo_configs) with (@nil Float64.Scored);
      [reflexivity |].
    symmetry. unfold Float64.relevant_repos.
    induction repo_configs as [| r rs IH]; simpl; [reflexivity |].
    unfold Float64.above_threshold at 1. simpl.
    rewrite (Hall r) by now left.
    apply IH. intros r' Hr'. apply Hall. now right.
Qed.

(** Rounding decides: 1/4 * 0.8 + 0.1 is, in binary64, the number after
    0.3, so the profile that scores it comes before the one that scores
    0.3 although it comes after it in the input. *)
Lemma float_ranking_example :
  (Float64.identify_relevant_repositories Float64.alarm4
     [Float64.repo_zzz; Float64.repo_yyy]).*1
  = [Float64.repo_yyy; Float64.repo_zzz]
  /\ Float64.ltb (Float64.tenths 3)
       (Float64._calculate_relevance_score
          (_extract_alert_keywords Float64.alarm4) Float64.repo_yyy) = true.
Proof. split; vm_compute; reflexivity. Qed.

(** ** C10: profiles without keywords always clear the threshold *)

Lemma priority_boost_nonneg (p : string) : (0 <= default 0 (priority_boost !! p))%Q.
Proof.
  unfold priority_boost.
  destruct (decide (p = "high")) as [-> | Hh]; [vm_compute; discriminate |].
  rewrite lookup_insert_ne by congruence.
  destruct (decide (p = "medium")) as [-> | Hm]; [vm_compute; discriminate |].
  rewrite lookup_insert_ne by congruence.
  destruct (decide (p = "low")) as [-> | Hl]; [vm_compute; discriminate |].
  rewrite lookup_singleton_ne by congruence. apply Qle_refl.
Qed.

Lemma score_without_keywords (ks : list string) (r : RepositoryConfig) :
  ks <> [] -> alert_keywords r = [] ->
  (3 # 10 <= _calculate_relevance_score ks r)%Q.
Proof.
  intros Hks Hr. unfold _calculate_relevance_score.
  destruct ks as [| k ks]; [congruence |].
  rewrite Hr, py_min_Qmin. apply Q.min_glb; [| vm_compute; discriminate].
  rewrite add_if_nonempty.
  pose proof (priority_boost_nonneg (priority r)) as Hb.
  pose proof (ratio_nonneg
                (size (list_to_set (k :: ks) ∩ list_to_set
                         (_extract_words_from_text (name r)) : gset string))
                (length (k :: ks))) as Hn.
  assert (H3 : (0 <= 3 # 10)%Q) by (vm_compute; discriminate).
  pose proof (Qmult_le_0_compat _ _ Hn H3) as Hm.
  lra.
Qed.

Lemma insert_desc_desc {A} (key : A -> Q) (x : A) (l : list A) :
  StronglySorted (fun a b => (key b <= key a)%Q) l ->
  StronglySorted (fun a b => (key b <= key a)%Q) (insert_desc key x l).
Proof.
  induction 1 as [| y l Hs IH Hy]; simpl; [repeat constructor |].
  destruct (Qlt_le_dec (key x) (key y)) as [Hlt | Hle].
  - constructor; [exact IH |].
    rewrite insert_desc_perm. constructor; [now apply Qlt_le_weak | exact Hy].
  - constructor; [now constructor |].
    constructor; [exact Hle |].
    eapply Forall_impl; [exact Hy |]. intros z Hz. simpl in Hz.
    eapply Qle_trans; eauto.
Qed.

Lemma sort_desc_desc {A} (key : A -> Q) (l : list A) :
  StronglySorted (fun a b => (key b <= key a)%Q) (sort_desc key l).
Proof.
  induction l as [| x l IH]; simpl; [constructor |].
  now apply insert_desc_desc.
Qed.

(** An entry of a sorted list is in its first [n] entries, or those are
    [n] entries that all rank at least as high. *)
Lemma firstn_sorted_cut {A} (R : A -> A -> Prop) (n : nat) (x : A) (l : list A) :
  StronglySorted R l -> In x l ->
  In x (firstn n l) \/ (length (firstn n l) = n /\ Forall (fun y => R y x) (firstn n l)).
Proof.
  intros Hs. revert n. induction Hs as [| y l Hs IH Hy]; intros n Hx; [destruct Hx |].
  destruct n as [| n]; simpl; [right; split; [reflexivity | constructor] |].
  destruct Hx as [-> | Hx]; [left; now left |].
  destruct (IH n Hx) as [Hin | [Hlen Hall]]; [left; now right |].
  right. split; [now rewrite Hlen |].
  constructor; [| exact Hall].
  rewrite List.Forall_forall in Hy. now apply Hy.
Qed.

(** C10. For an alert with a non-empty keyword set, a profile without
    configured keywords scores at least 0.3, hence above 0.1; it passes the
    threshold filter, and it is in the ranking unless the ranking is full:
    3 entries, each with a score at least as high. *)
Theorem keywordless_repo_ranked
    (alert : Alert) (repo_configs : list RepositoryConfig) (r : RepositoryConfig) :
  _extract_alert_keywords alert <> [] ->
  In r repo_configs ->
  alert_keywords r = [] ->
  let kws := _extract_alert_keywords alert in
  let s := _calculate_relevance_score kws r in
  let out := identify_relevant_repositories alert repo_configs in
  (3 # 10 <= s)%Q
  /\ (1 # 10 < s)%Q
  /\ In (r, s) (relevant_repos kws repo_configs)
  /\ (In (r, s) out
      \/ (length out = 3 /\ Forall (fun x : Scored => (s <= snd x)%Q) out)).
Proof.
  intros Hk Hin Hr kws s out.
  assert (H3 : (3 # 10 <= s)%Q) by now apply score_without_keywords.
  assert (H1 : (1 # 10 < s)%Q) by lra.
  assert (Hrel : In (r, s) (relevant_repos kws repo_configs)).
  { unfold relevant_repos. apply filter_In. split.
    - apply in_map_iff. now exists r.
    - now apply above_threshold_lt. }
  repeat split; try assumption.
  subst out. unfold identify_relevant_repositories, rank_with. fold kws.
  apply (firstn_sorted_cut (fun a b : Scored => (snd b <= snd a)%Q)).
  - apply sort_desc_desc.
  - apply (Permutation_in _ (Permutation_sym (sort_desc_perm snd _))). exact Hrel.
Qed.

(** An instance: profile B of the ranking example, which has no keywords. *)
Lemma keywordless_repo_ranked_witness :
  _extract_alert_keywords Example.alarm <> []
  /\ In Example.repo_b [Example.repo_a; Example.repo_b]
  /\ alert_keywords Example.repo_b = []
  /\ (3 # 10
       <= _calculate_relevance_score (_extract_alert_keywords Example.alarm)
            Example.repo_b)%Q.
Proof.
  assert (Hk : _extract_alert_keywords Example.alarm <> [])
    by (vm_compute; discriminate).
  assert (Hin : In Example.repo_b [Example.repo_a; Example.repo_b])
    by (right; left; reflexivity).
  split; [exact Hk |]. split; [exact Hin |]. split; [reflexivity |].
  pose proof (keywordless_repo_ranked Example.alarm
                [Example.repo_a; Example.repo_b] Example.repo_b Hk Hin eq_refl)
    as H.
  exact (proj1 H).
Defined.

(** ** C7: validation *)

Lemma prefix_iff (p s : string) :
  String.prefix p s = true <-> exists post, s = String.append p post.
Proof.
  revert s. induction p as [| a p IH]; intros s.
  - split; [intros _; now exists s | intros _; now destruct s].
  - destruct s as [| b s]; simpl.
    + split; [discriminate | intros [post H]; discriminate].
    + destruct (ascii_dec a b) as [-> | Hne].
      * rewrite IH. split; intros [post H]; exists post;
          [now rewrite H | now inversion H].
      * split; [discriminate |]. intros [post H]. inversion H. congruence.
Qed.

Lemma contains_iff (p s : string) :
  Str.contains p s = true <-> Str.substring_of p s.
Proof.
  unfold Str.substring_of. induction s as [| c s IH].
  - change (Str.contains p EmptyString) with (String.prefix p EmptyString || false).
    rewrite orb_false_r, prefix_iff. split.
    + intros [post H]. now exists EmptyString, post.
    + intros [[| a pre] [post H]]; [now exists post | discriminate].
  - change (Str.contains p (String c s))
      with (String.prefix p (String c s) || Str.contains p s).
    rewrite orb_true_iff, prefix_iff, IH. split.
    + intros [[post H] | [pre [post H]]].
      * now exists EmptyString, post.
      * exists (String c pre), post. simpl. now rewrite H.
    + intros [[| a pre] [post H]].
      * left. now exists post.
      * right. simpl in H. inversion H. now exists pre, post.
Qed.

(** C7. [validate_alert] accepts an alert exactly when its state is
    ["ALARM"] and no ignore pattern is a substring of its lower-cased name;
    so it rejects every alert in any other state, whatever its other
    fields. *)
Theorem validate_alert_iff (config : HandlerConfig) (alert : Alert) :
  (validate_alert config alert = true <->
     state alert = "ALARM"
     /\ forall pattern, In pattern (default [] (ignore_patterns config)) ->
          ~ Str.substring_of pattern (Str.lower (alarm_name alert)))
  /\ (state alert <> "ALARM" -> validate_alert config alert = false).
Proof.
  unfold validate_alert.
  case_bool_decide as Hs.
  - split; [| reflexivity]. split; [discriminate | tauto].
  - split; [| congruence].
    induction (default [] (ignore_patterns config)) as [| p ps IH].
    + split; [intros _; split; [assumption | intros ? []] | reflexivity].
    + destruct (Str.contains p (Str.lower (alarm_name alert))) eqn:E.
      * split; [discriminate |]. intros [_ H]. exfalso.
        apply (H p); [now left | now apply contains_iff].
      * rewrite IH. split; intros [H1 H2]; (split; [assumption |]).
        -- intros q [<- | Hq]; [| now apply H2].
           rewrite <- contains_iff. congruence.
        -- intros q Hq. apply H2. now right.
Qed.

Lemma validate_examples :
  validate_alert Example.config Example.alarm = true
  /\ validate_alert Example.config Example.test_alarm = false
  /\ validate_alert Example.config Example.ok_alarm = false.
Proof. repeat split; vm_compute; reflexivity. Qed.

(** ** Runs of the processor *)

Lemma active_not_terminal (s : Status) : active s -> ~ terminal s.
Proof. intros [-> | ->] [H | H]; discriminate. Qed.

Lemma steps_app (j j1 j2 : ResearchJob) (l1 l2 : list Entry) :
  steps j l1 j1 -> steps j1 l2 j2 -> steps j (l1 ++ l2) j2.
Proof.
  induction 1 as [| j e ja l1 jb Hs Hl IH]; intros H2; simpl; [exact H2 |].
  econstructor; [exact Hs | now apply IH].
Qed.

Ltac unfold_proc :=
  unfold mbind, proc_bind, mret, proc_ret, call, await, assign, visit,
    try_except, when, get_job in *.

(** Split on the answer of the next collaborator call, or on the next
    test, that the run depends on. *)
Ltac next_case :=
  match goal with
  | |- context [match workspace_enter ?s ?i with _ => _ end] =>
      destruct (workspace_enter s i) as [[] | ?] eqn:?
  | |- context [match clone_repository ?g ?i ?r with _ => _ end] =>
      destruct (clone_repository g i r) as [[] | ?] eqn:?
  | |- context [match analyze_crash ?s ?i ?r with _ => _ end] =>
      destruct (analyze_crash s i r) as [[[] [| ? ?]] | ?] eqn:?
  | |- context [match create_pull_request_for_fixes ?g ?i ?r ?f with _ => _ end] =>
      destruct (create_pull_request_for_fixes g i r f) as [? | ?] eqn:?
  | |- context [match workspace_exit ?s ?i with _ => _ end] =>
      destruct (workspace_exit s i) as [[] | ?] eqn:?
  | |- context [some_nonempty (pull_requests ?j)] =>
      destruct (some_nonempty (pull_requests j)) eqn:?
  end; cbn.

Ltac solve_active :=
  match goal with
  | |- active _ => first [assumption | now right | now left]
  | H : active (status ?j)
    |- (?s = status ?j /\ active ?s) \/ transition (status ?j) ?s = true =>
      destruct H as [H | H]; rewrite H;
      [now right | left; split; [reflexivity | now right]]
  | H : active (status ?j) |- terminal (status ?j) -> _ =>
      let T := fresh in
      intros T; exfalso; destruct H as [H | H], T as [T | T]; congruence
  | |- terminal _ -> _ =>
      let T := fresh in intros [T | T]; discriminate
  | |- in_progress _ =>
      split; [| split]; cbn; first [assumption | now right | reflexivity | auto]
  end.

Ltac solve_step :=
  first
    [ apply step_visit; cbn; solve_active
    | apply step_await; cbn; [assumption | solve_active]
    | eapply step_field; cbn;
      [discriminate | discriminate | assumption | reflexivity | assumption
      | solve_active]
    | eapply (step_status _ creating_prs); cbn;
      [assumption | solve_active | reflexivity] ].

Lemma process_candidate_steps (self : CodeResearcherSystem) (gh : GitHubHandler)
    (i : nat) (c : Scored) (j : ResearchJob) :
  in_progress j ->
  match process_candidate self gh i c j with
  | (_, j', log) =>
      in_progress j' /\ steps j log j'
      /\ Forall (fun w => active (status w)) (writes log)
  end.
Proof.
  intros (Hact & Hc & Hpr).
  unfold process_candidate. unfold_proc. cbn.
  repeat next_case.
  all: split; [solve_active | split].
  all: try (repeat (eapply steps_cons; [solve_step |]); apply steps_nil).
  all: cbn;
    repeat match goal with
           | |- Forall _ (_ :: _) => constructor; [cbn; solve_active |]
           | |- Forall _ [] => constructor
           end.
Qed.

Lemma process_candidates_steps (self : CodeResearcherSystem) (gh : GitHubHandler)
    (cs : list Scored) (i : nat) (j : ResearchJob) :
  in_progress j ->
  match process_candidates self gh i cs j with
  | (_, j', log) =>
      in_progress j' /\ steps j log j'
      /\ Forall (fun w => active (status w)) (writes log)
  end.
Proof.
  revert i j. induction cs as [| c cs IH]; intros i j Hj; simpl.
  - split; [exact Hj |]. split; constructor.
  - unfold mbind, proc_bind.
    pose proof (process_candidate_steps self gh i c j Hj) as H1.
    destruct (process_candidate self gh i c j) as [[[[] | msg] j1] log1];
      destruct H1 as (Hj1 & Hs1 & Hw1); [| tauto].
    pose proof (IH (S i) j1 Hj1) as H2.
    destruct (process_candidates self gh (S i) cs j1) as [[r j2] log2].
    destruct H2 as (Hj2 & Hs2 & Hw2). split; [exact Hj2 |]. split.
    + eapply steps_app; eauto.
    + unfold writes. rewrite omap_app. apply Forall_app. now split.
Qed.

Lemma in_progress_failed (j : ResearchJob) :
  in_progress j ->
  (failed = status j /\ active failed) \/ transition (status j) failed = true.
Proof. intros [[H | H] _]; rewrite H; now right. Qed.

Lemma update_job_status_steps (self : CodeResearcherSystem) (j : ResearchJob) :
  in_progress j ->
  match update_job_status self j with
  | (r, j', log) => r = Ok tt /\ steps j log j' /\ terminal (status j')
  end.
Proof.
  intros Hj. pose proof Hj as (Hact & Hc & Hpr).
  unfold update_job_status. unfold_proc. cbn.
  destruct (some_nonempty (pull_requests j)) eqn:Hp; cbn.
  - split; [reflexivity |]. split; [| now left].
    rewrite (Hpr eq_refl) in *.
    eapply steps_cons;
      [eapply (step_status _ completed); [assumption | | reflexivity] |].
    { right. now rewrite (Hpr eq_refl). }
    eapply steps_cons; [| apply steps_nil].
    eapply step_completed_at; cbn; [assumption | now left | reflexivity].
  - destruct (some_text (error_message j)) eqn:He; cbn.
    all: split; [reflexivity |]; split; [| now right].
    all: eapply steps_cons;
      [eapply (step_status _ failed);
       [assumption | now apply in_progress_failed | reflexivity] |].
    2: eapply steps_cons;
      [eapply step_field; cbn; [discriminate | discriminate | auto ..] |].
    all: eapply steps_cons; [| apply steps_nil].
    all: eapply step_completed_at; cbn; [assumption | now right | reflexivity].
Qed.

Lemma new_job_fresh (id : string) (a : Alert) (repos : list RepositoryConfig) (t : nat) :
  fresh (new_job id a repos t).
Proof. repeat split. Qed.

Lemma analyzing_in_progress (j : ResearchJob) :
  fresh j -> in_progress (set_status analyzing j).
Proof.
  intros (Hs & Hc & Hp). split; [now left |]. split; [exact Hc |].
  cbn. rewrite Hp. discriminate.
Qed.

Local Opaque identify_relevant_repositories process_candidates update_job_status.

(** Every run follows the life cycle, returns, and leaves the job in a
    terminal status. *)
Lemma run_steps (self : CodeResearcherSystem) (job : ResearchJob) :
  fresh job ->
  match run self job with
  | (r, jf, log) => r = Ok tt /\ steps job log jf /\ terminal (status jf)
  end.
Proof.
  intros Hf. pose proof Hf as (Hs & Hc & Hp).
  pose proof (analyzing_in_progress job Hf) as Hj.
  assert (H0 : step job (Assign F_status (set_status analyzing job))
                 (set_status analyzing job)).
  { eapply step_status; [assumption | | reflexivity]. right. now rewrite Hs. }
  unfold run, _process_research_job. unfold_proc. cbn.
  destruct (github_handler self) as [gh |]; cbn.
  - destruct (identify_relevant_repositories (alert job) (repositories job))
      as [| c cs] eqn:Erel; cbn.
    + split; [reflexivity |]. split; [| now right].
      eapply steps_cons; [exact H0 |].
      eapply steps_cons;
        [eapply (step_status _ failed); cbn; [assumption | now right | reflexivity] |].
      eapply steps_cons; [| apply steps_nil].
      eapply step_field; cbn; [discriminate | discriminate | auto ..].
    + pose proof (process_candidates_steps self gh
                    (firstn 2 (c :: cs)) 0 _ Hj) as H1.
      destruct (process_candidates self gh 0 _ (set_status analyzing job))
        as [[[[] | msg] j1] log1]; destruct H1 as (Hj1 & Hs1 & _).
      * pose proof (update_job_status_steps self j1 Hj1) as H2.
        destruct (update_job_status self j1) as [[r2 j2] log2].
        destruct H2 as (-> & Hs2 & Ht). cbn.
        split; [reflexivity |]. split; [| exact Ht].
        eapply steps_cons; [exact H0 |]. eapply steps_app; eauto.
      * cbn. split; [reflexivity |]. split; [| now right].
        eapply steps_cons; [exact H0 |]. eapply steps_app; [exact Hs1 |].
        destruct Hj1 as (Ha1 & Hc1 & _).
        eapply steps_cons;
          [eapply (step_status _ failed);
           [assumption | destruct Ha1 as [E | E]; rewrite E; now right
           | reflexivity] |].
        eapply steps_cons;
          [eapply step_field; cbn; [discriminate | discriminate | auto ..] |].
        eapply steps_cons; [| apply steps_nil].
        eapply step_completed_at; cbn; [assumption | now right | reflexivity].
  - split; [reflexivity |]. split; [| now right].
    eapply steps_cons; [exact H0 |].
    eapply steps_cons;
      [eapply (step_status _ failed); cbn; [assumption | now right | reflexivity] |].
    eapply steps_cons; [| apply steps_nil].
    eapply step_field; cbn; [discriminate | discriminate | auto ..].
Qed.

(** ** What the life cycle implies *)

Lemma follows_cons (edge : Status -> Status -> bool) (s s' : Status) (l : list Status) :
  follows edge s (s' :: l) = true <->
  (s' = s \/ edge s s' = true) /\ follows edge s' l = true.
Proof.
  cbn. rewrite andb_true_iff, orb_true_iff, bool_decide_eq_true. tauto.
Qed.

Lemma step_status_follows (j j' : ResearchJob) (e : Entry) :
  step j e j' ->
  match e with
  | Assign _ _ => status j' = status j \/ transition (status j) (status j') = true
  | _ => j' = j
  end.
Proof.
  destruct 1 as [j s j' Hc Hs -> | j f j' _ _ _ Hs _ _ | j t j' _ _ -> | |];
    cbn; auto.
  destruct Hs as [[-> _] | Hs]; auto.
Qed.

Lemma steps_follows (j j' : ResearchJob) (log : list Entry) :
  steps j log j' ->
  follows transition (status j) (status <$> writes log) = true.
Proof.
  induction 1 as [| j e j1 log j2 Hs Hl IH]; [reflexivity |].
  pose proof (step_status_follows _ _ _ Hs) as He.
  destruct e as [f ja | ja | i r].
  - assert (ja = j1) as -> by (inversion Hs; subst; reflexivity).
    change (status <$> writes (Assign f j1 :: log))
      with (status j1 :: (status <$> writes log)).
    apply follows_cons. tauto.
  - subst j1. exact IH.
  - subst j1. exact IH.
Qed.

Lemma last_cons {A} (x d : A) (l : list A) : List.last (x :: l) d = List.last l x.
Proof.
  revert x d. induction l as [| y l IH]; intros x d; [reflexivity |].
  change (List.last (x :: y :: l) d) with (List.last (y :: l) d).
  now rewrite !IH.
Qed.

Lemma steps_last (j j' : ResearchJob) (log : list Entry) :
  steps j log j' -> j' = List.last (writes log) j.
Proof.
  induction 1 as [| j e j1 log j2 Hs Hl IH]; [reflexivity |].
  destruct e as [f ja | ja | i r].
  - assert (ja = j1) as -> by (inversion Hs; subst; reflexivity).
    rewrite IH. change (writes (Assign f j1 :: log)) with (j1 :: writes log).
    now rewrite last_cons.
  - assert (j1 = j) as -> by (inversion Hs; subst; reflexivity). exact IH.
  - assert (j1 = j) as -> by (inversion Hs; subst; reflexivity). exact IH.
Qed.

Lemma steps_suspensions (j j' : ResearchJob) (log : list Entry) :
  steps j log j' -> Forall (fun v => active (status v)) (suspensions log).
Proof.
  induction 1 as [| j e j1 log j2 Hs Hl IH]; [constructor |].
  destruct e as [f ja | ja | i r]; cbn; try exact IH.
  constructor; [| exact IH]. now inversion Hs.
Qed.

Lemma steps_completed_stays (j j' : ResearchJob) (log : list Entry) (t : nat) :
  steps j log j' -> completed_at j = Some t -> completed_at j' = Some t.
Proof.
  induction 1 as [| j e j1 log j2 Hs Hl IH]; intros Hc; [exact Hc |].
  apply IH. inversion Hs; subst; congruence.
Qed.

Lemma assignments_to_assign (f g : Field) (j : ResearchJob) (log : list Entry) :
  assignments_to f (Assign g j :: log)
  = if decide (g = f) then j :: assignments_to f log else assignments_to f log.
Proof. unfold assignments_to. cbn. now destruct (decide (g = f)). Qed.

Lemma assignments_to_app (f : Field) (l1 l2 : list Entry) :
  assignments_to f (l1 ++ l2) = assignments_to f l1 ++ assignments_to f l2.
Proof. unfold assignments_to. apply omap_app. Qed.

Lemma steps_completed_at_unassigned (j j' : ResearchJob) (log : list Entry) :
  steps j log j' -> completed_at j' = None ->
  assignments_to F_completed_at log = [].
Proof.
  induction 1 as [| j e j1 log j2 Hs Hl IH]; intros Hc; [reflexivity |].
  specialize (IH Hc).
  inversion Hs; subst; try exact IH.
  - rewrite assignments_to_assign. now rewrite decide_False by assumption.
  - exfalso. pose proof (steps_completed_stays _ _ _ t Hl eq_refl). congruence.
Qed.

(** *** Paths of the diagram *)

Lemma rank_inj (s s' : Status) : rank s = rank s' -> s = s'.
Proof. destruct s, s'; cbn; congruence. Qed.

Lemma transition_rank (s s' : Status) : transition s s' = true -> rank s < rank s'.
Proof. destruct s, s'; cbn; (discriminate || lia). Qed.

Lemma follows_rank (s : Status) (l : list Status) :
  follows transition s l = true ->
  StronglySorted (fun a b => rank a <= rank b) (s :: l).
Proof.
  revert s. induction l as [| s' l IH]; intros s H.
  - repeat constructor.
  - apply follows_cons in H as [Hs Hl]. specialize (IH _ Hl).
    constructor; [exact IH |].
    assert (Hr : rank s <= rank s').
    { destruct Hs as [-> | Hs]; [lia | apply transition_rank in Hs; lia]. }
    constructor; [exact Hr |].
    apply StronglySorted_inv in IH as [_ IH].
    eapply Forall_impl; [exact IH |]. cbn. intros; lia.
Qed.

Lemma sorted_middle {A} (R : A -> A -> Prop) (l1 l2 l3 : list A) (a b : A) :
  StronglySorted R (l1 ++ a :: l2 ++ b :: l3) ->
  Forall (fun x => R a x /\ R x b) l2.
Proof.
  induction l1 as [| x l1 IH]; cbn; intros H.
  - apply StronglySorted_inv in H as [Hs Ha].
    apply Forall_app in Ha as [Ha _].
    induction l2 as [| y l2 IH2]; [constructor |].
    cbn in Hs. apply StronglySorted_inv in Hs as [Hs Hy].
    apply Forall_cons in Ha as [Hay Ha].
    constructor; [| now apply IH2].
    split; [exact Hay |].
    apply Forall_app in Hy as [_ Hy]. now apply Forall_cons in Hy as [Hy _].
  - apply StronglySorted_inv in H as [H _]. now apply IH.
Qed.

(** No value is met again after another one. *)
Lemma follows_no_return (s : Status) (l l1 l2 l3 : list Status) (a : Status) :
  follows transition s l = true ->
  s :: l = l1 ++ a :: l2 ++ a :: l3 ->
  Forall (eq a) l2.
Proof.
  intros H E. apply follows_rank in H. rewrite E in H.
  apply sorted_middle in H.
  eapply Forall_impl; [exact H |]. cbn. intros x [H1 H2].
  apply rank_inj. lia.
Qed.

Lemma follows_suffix (edge : Status -> Status -> bool) (s a : Status)
    (l l1 l2 : list Status) :
  follows edge s l = true -> s :: l = l1 ++ a :: l2 -> follows edge a l2 = true.
Proof.
  revert s l. induction l1 as [| x l1 IH]; intros s l H E; cbn in E.
  - now inversion E; subst.
  - inversion E; subst. destruct l1 as [| y l1]; cbn in *.
    + apply andb_true_iff in H as [_ H]. exact H.
    + apply andb_true_iff in H as [_ H]. eapply (IH y); [exact H | reflexivity].
Qed.

(** [completed] and [failed] are kept. *)
Lemma follows_terminal (s : Status) (l : list Status) :
  terminal s -> follows transition s l = true -> Forall (eq s) l.
Proof.
  intros Ht. induction l as [| s' l IH]; intros H; [constructor |].
  apply follows_cons in H as [Hs Hl].
  assert (s' = s) as ->.
  { destruct Hs as [-> | Hs]; [reflexivity |].
    destruct Ht as [-> | ->]; destruct s'; discriminate. }
  constructor; [reflexivity | now apply IH].
Qed.

Lemma follows_never_generating (s : Status) (l : list Status) :
  s <> generating_fixes ->
  follows transition s l = true -> ~ In generating_fixes l.
Proof.
  revert s. induction l as [| s' l IH]; intros s Hs H; [intros [] |].
  apply follows_cons in H as [Hs' Hl].
  assert (Hne : s' <> generating_fixes).
  { destruct Hs' as [-> | Hs']; [exact Hs |]. destruct s, s'; discriminate. }
  intros [E | Hin]; [congruence |]. now apply (IH s').
Qed.

(** A status with a single way in is met only after the status it is
    entered from. *)
Lemma follows_entered_from (target source s : Status) (l l1 l2 : list Status) :
  (forall x, transition x target = true -> x = source) ->
  s <> target ->
  follows transition s l = true ->
  l = l1 ++ target :: l2 ->
  In source (s :: l1).
Proof.
  intros Hin. revert s l. induction l1 as [| x l1 IH]; intros s l Hs H E; subst l.
  - apply follows_cons in H as [[H | H] _]; [congruence |]. left. now apply Hin.
  - change ((x :: l1) ++ target :: l2) with (x :: (l1 ++ target :: l2)) in H.
    apply follows_cons in H as [H Hl].
    destruct (decide (x = target)) as [-> | Hx].
    + destruct H as [H | H]; [congruence |]. left. now apply Hin.
    + right. eapply IH; [exact Hx | exact Hl | reflexivity].
Qed.

Lemma last_fmap {A B} (f : A -> B) (l : list A) (d : A) :
  List.last (f <$> l) (f d) = f (List.last l d).
Proof.
  revert d. induction l as [| x l IH]; intros d; [reflexivity |].
  change (f <$> x :: l) with (f x :: (f <$> l)).
  now rewrite !last_cons.
Qed.

Lemma status_trace_follows (self : CodeResearcherSystem) (job : ResearchJob) :
  fresh job ->
  follows transition pending (status <$> writes (log_of self job)) = true
  /\ terminal (List.last (status_trace self job) pending).
Proof.
  intros Hf. pose proof (run_steps self job Hf) as H.
  unfold status_trace, log_of in *.
  destruct (run self job) as [[r jf] log]. destruct H as (_ & Hs & Ht).
  pose proof Hf as (Hp & _).
  change (snd (r, jf, log)) with log. split.
  - rewrite <- Hp. apply (steps_follows _ _ _ Hs).
  - rewrite last_cons, last_fmap, <- (steps_last _ _ _ Hs). exact Ht.
Qed.

(** ** C3: the path of a job through its statuses *)

(** C3, amended. For every research job, the sequence of values of its
    status is a path in the diagram
    pending → analyzing → {creating_prs | failed} → {completed | failed}:
    it starts at pending and ends at completed or failed, which are
    terminal; no status is revisited; generating_fixes is never entered,
    so a job that reaches creating_prs comes from analyzing, and a job that
    reaches completed was in creating_prs before. *)
Theorem status_path
    (self : CodeResearcherSystem) (id : string) (a : Alert)
    (repos : list RepositoryConfig) (created : nat) :
  let tr := status_trace self (new_job id a repos created) in
  path transition tr = true
  /\ hd_error tr = Some pending
  /\ terminal (List.last tr pending)
  /\ (forall l1 s l2, tr = l1 ++ s :: l2 -> terminal s -> Forall (eq s) l2)
  /\ (forall l1 s l2 l3, tr = l1 ++ s :: l2 ++ s :: l3 -> Forall (eq s) l2)
  /\ ~ In generating_fixes tr
  /\ (forall l1 l2, tr = l1 ++ creating_prs :: l2 -> In analyzing l1)
  /\ (forall l1 l2, tr = l1 ++ completed :: l2 -> In creating_prs l1).
Proof.
  intros tr.
  destruct (status_trace_follows self _ (new_job_fresh id a repos created))
    as [Hfol Hlast].
  subst tr.
  change (status_trace self (new_job id a repos created))
    with (pending :: (status <$> writes (log_of self (new_job id a repos created))))
    in *.
  set (l := status <$> writes (log_of self (new_job id a repos created))) in *.
  clearbody l.
  split; [exact Hfol |]. split; [reflexivity |]. split; [exact Hlast |].
  repeat split.
  - intros l1 s l2 E Hs. apply follows_terminal; [exact Hs |].
    eapply follows_suffix; eauto.
  - intros l1 s l2 l3 E. eapply follows_no_return; eauto.
  - intros [E | H]; [discriminate |].
    revert H. apply (follows_never_generating pending); [discriminate | exact Hfol].
  - intros [| x l1] l2 E; [discriminate |]. inversion E; subst.
    assert (H : In analyzing (pending :: l1)).
    { apply (follows_entered_from creating_prs analyzing pending
               (l1 ++ creating_prs :: l2) l1 l2);
        [intros []; (discriminate || reflexivity) | discriminate | exact Hfol
        | reflexivity]. }
    right. destruct H as [H | H]; [discriminate | exact H].
  - intros [| x l1] l2 E; [discriminate |]. inversion E; subst.
    assert (H : In creating_prs (pending :: l1)).
    { apply (follows_entered_from completed creating_prs pending
               (l1 ++ completed :: l2) l1 l2);
        [intros []; (discriminate || reflexivity) | discriminate | exact Hfol
        | reflexivity]. }
    right. destruct H as [H | H]; [discriminate | exact H].
Qed.

(** C3 as stated fails: in the example run the status goes from analyzing
    to creating_prs, without generating_fixes in between. *)
Lemma status_path_not_spec_diagram :
  SpecDiagram.conforms (status_trace Example.system Example.job) = false.
Proof. vm_compute. reflexivity. Qed.

(** ** C9: terminal jobs do not change *)

Lemma nth_observations (self : CodeResearcherSystem) (job : ResearchJob) (t : nat) :
  length (suspensions (log_of self job)) < t ->
  snapshot self job t = final_job self job.
Proof.
  intros Ht. unfold snapshot, observations.
  destruct t as [| t]; [lia |]. cbn.
  destruct (Nat.eq_dec t (length (suspensions (log_of self job)))) as [-> | Hne].
  - rewrite app_nth2 by lia. now rewrite Nat.sub_diag.
  - apply nth_overflow. rewrite length_app. cbn. lia.
Qed.

Lemma snapshot_not_terminal (self : CodeResearcherSystem) (job : ResearchJob) (t : nat) :
  fresh job ->
  t <= length (suspensions (log_of self job)) ->
  ~ terminal (status (snapshot self job t)).
Proof.
  intros Hf Ht. pose proof (run_steps self job Hf) as H.
  unfold snapshot, observations, log_of, final_job in *.
  destruct (run self job) as [[r jf] log]. destruct H as (_ & Hs & _).
  change (snd (r, jf, log)) with log in *.
  change (snd (fst (r, jf, log))) with jf in *.
  destruct t as [| t].
  - destruct Hf as (Hp & _). cbn. rewrite Hp. intros [H | H]; discriminate.
  - change (nth (S t) (job :: suspensions log ++ [jf]) jf)
      with (nth t (suspensions log ++ [jf]) jf).
    rewrite (app_nth1 (suspensions log) [jf] jf) by lia.
    pose proof (steps_suspensions _ _ _ Hs) as Hall.
    rewrite List.Forall_forall in Hall.
    assert (Ha : active (status (nth t (suspensions log) jf))).
    { apply Hall. apply nth_In. lia. }
    intros [H | H]; destruct Ha as [Ha | Ha]; congruence.
Qed.

(** C9. Once a reading of a job shows status completed or failed, every
    later reading shows the same job, field by field: the job is not
    mutated any more. *)
Theorem terminal_snapshots_stable
    (self : CodeResearcherSystem) (id : string) (a : Alert)
    (repos : list RepositoryConfig) (created : nat) (t1 t2 : nat) :
  let job := new_job id a repos created in
  t1 <= t2 ->
  terminal (status (snapshot self job t1)) ->
  snapshot self job t2 = snapshot self job t1.
Proof.
  intros job Hlt Ht.
  destruct (le_lt_dec t1 (length (suspensions (log_of self job)))) as [Hle | Hgt].
  - exfalso. revert Ht. apply snapshot_not_terminal; [apply new_job_fresh | exact Hle].
  - rewrite !nth_observations by lia. reflexivity.
Qed.

(** An instance: the example run is read as completed at point 3, and the
    same at point 5. *)
Lemma terminal_snapshots_stable_witness :
  snapshot Example.system Example.job 5 = snapshot Example.system Example.job 3.
Proof.
  apply (terminal_snapshots_stable Example.system "job-1" Example.alarm
           [Example.repo_a; Example.repo_b] 100 3 5).
  - lia.
  - left. vm_compute. reflexivity.
Defined.

(** What the processor still does in its last step, after it has assigned a
    terminal status: it assigns the error message and [completed_at], and
    is not suspended in between. *)
Lemma steps_after_terminal (j j' : ResearchJob) (log : list Entry) :
  steps j log j' ->
  terminal (status j) ->
  suspensions log = []
  /\ Forall (fun e => exists w, e = Assign F_error_message w
                               \/ e = Assign F_completed_at w) log.
Proof.
  induction 1 as [| j e j1 log j2 Hs Hl IH]; intros Ht; [now split |].
  assert (Hna : ~ active (status j)).
  { intros Ha. now apply (active_not_terminal _ Ha). }
  inversion Hs; subst.
  - exfalso. destruct H0 as [[-> Ha] | Htr]; [now apply Hna |].
    destruct Ht as [E | E]; rewrite E in Htr; discriminate.
  - destruct IH as [IH1 IH2]; [congruence |].
    rewrite (H4 Ht). split; [exact IH1 |]. constructor; [| exact IH2].
    eexists. now left.
  - destruct IH as [IH1 IH2]; [exact Ht |].
    split; [exact IH1 |]. constructor; [| exact IH2]. eexists. now right.
  - contradiction.
  - contradiction.
Qed.

Lemma steps_split (j j' : ResearchJob) (l1 l2 : list Entry) (e : Entry) :
  steps j (l1 ++ e :: l2) j' ->
  exists j1 j2, steps j l1 j1 /\ step j1 e j2 /\ steps j2 l2 j'.
Proof.
  revert j. induction l1 as [| x l1 IH]; intros j H; cbn in H.
  - inversion H; subst. eexists _, _. repeat split; eauto. constructor.
  - inversion H; subst. destruct (IH _ H5) as (ja & jb & Ha & Hb & Hc).
    exists ja, jb. repeat split; auto. econstructor; eauto.
Qed.

Lemma run_after_terminal_status
    (self : CodeResearcherSystem) (job js : ResearchJob) (pre post : list Entry) :
  fresh job ->
  log_of self job = pre ++ Assign F_status js :: post ->
  terminal (status js) ->
  suspensions post = []
  /\ Forall (fun e => exists w, e = Assign F_error_message w
                               \/ e = Assign F_completed_at w) post.
Proof.
  intros Hf Hlog Ht. pose proof (run_steps self job Hf) as H.
  unfold log_of in Hlog. destruct (run self job) as [[r jf] log].
  cbn in Hlog. subst log. destruct H as (_ & Hs & _).
  apply steps_split in Hs as (j1 & j2 & _ & Hstep & Hpost).
  assert (j2 = js) as -> by (inversion Hstep; subst; reflexivity).
  now apply (steps_after_terminal _ _ _ Hpost).
Qed.

(** ** C6: no access token *)

(** C6. A job processed while no GitHub handler is configured is read as
    pending and then as failed, with the error message
    "GitHub handler not configured"; no reading shows analyzing, for the
    run has no suspension point, and no candidate is visited. *)
Theorem unconfigured_handler_fails
    (self : CodeResearcherSystem) (id : string) (a : Alert)
    (repos : list RepositoryConfig) (created : nat) :
  github_handler self = None ->
  let job := new_job id a repos created in
  observations self job
  = [job;
     set_error_message (Some "GitHub handler not configured") (set_status failed job)]
  /\ (forall t, status (snapshot self job t) <> analyzing)
  /\ suspensions (log_of self job) = []
  /\ visited (log_of self job) = [].
Proof.
  intros Hgh job.
  assert (Hrun : run self job
                 = (Ok tt,
                    set_error_message (Some "GitHub handler not configured")
                      (set_status failed job),
                    [Assign F_status (set_status analyzing job);
                     Assign F_status (set_status failed job);
                     Assign F_error_message
                       (set_error_message (Some "GitHub handler not configured")
                          (set_status failed job))])).
  { unfold run, _process_research_job. unfold_proc. now rewrite Hgh. }
  assert (Hobs : observations self job
                 = [job;
                    set_error_message (Some "GitHub handler not configured")
                      (set_status failed job)]).
  { unfold observations, final_job, log_of. now rewrite Hrun. }
  split; [exact Hobs |]. split; [| unfold log_of; rewrite Hrun; now split].
  intros t. unfold snapshot, final_job. rewrite Hobs, Hrun.
  destruct t as [| [| [| t]]]; discriminate.
Qed.

(** An instance: the example job on the system without access token. *)
Lemma unconfigured_handler_fails_witness :
  observations Example.system_without_handler Example.job
  = [Example.job;
     set_error_message (Some "GitHub handler not configured")
       (set_status failed Example.job)].
Proof.
  apply (unconfigured_handler_fails Example.system_without_handler "job-1"
           Example.alarm [Example.repo_a; Example.repo_b] 100).
  reflexivity.
Defined.

(** The attribute itself is assigned [analyzing] before the handler is
    looked at; that assignment and the next belong to one step of the
    coroutine. *)
Lemma unconfigured_handler_writes
    (self : CodeResearcherSystem) (id : string) (a : Alert)
    (repos : list RepositoryConfig) (created : nat) :
  github_handler self = None ->
  status_trace self (new_job id a repos created)
  = [pending; analyzing; failed; failed].
Proof.
  intros Hgh. unfold status_trace, log_of, run, _process_research_job.
  unfold_proc. now rewrite Hgh.
Qed.

(** ** C4: the final disposition *)

Local Transparent update_job_status.
Local Arguments assignments_to : simpl never.
Local Arguments writes : simpl never.
Local Arguments suspensions : simpl never.
Local Arguments visited : simpl never.

Lemma update_job_status_returns (self : CodeResearcherSystem) (j : ResearchJob) :
  fst (fst (update_job_status self j)) = Ok tt.
Proof.
  unfold update_job_status. unfold_proc.
  destruct (some_nonempty (pull_requests j)); cbn; [reflexivity |].
  now destruct (some_text (error_message j)).
Qed.

Lemma run_iteration (self : CodeResearcherSystem) (job j1 : ResearchJob)
    (log1 : list Entry) :
  candidate_iteration self job = Some (Ok tt, j1, log1) ->
  run self job
  = match update_job_status self j1 with
    | (r, j2, log2) =>
        (r, j2, Assign F_status (set_status analyzing job) :: log1 ++ log2)
    end.
Proof.
  unfold candidate_iteration, run, _process_research_job. unfold_proc.
  destruct (github_handler self) as [gh |]; [| discriminate].
  cbn [alert repositories set_status].
  destruct (identify_relevant_repositories (alert job) (repositories job))
    as [| c cs]; [discriminate |].
  intros H.
  assert (H' : process_candidates self gh 0 (firstn 2 (c :: cs))
                 (set_status analyzing job) = (Ok tt, j1, log1)) by congruence.
  rewrite H'. pose proof (update_job_status_returns self j1) as Hr.
  destruct (update_job_status self j1) as [[r j2] log2]. cbn in Hr. now subst r.
Qed.

(** C4. When the processing of a job reaches the end of the iteration over
    candidates, the job ends completed if and only if its list of pull
    request URLs is non-empty; otherwise it ends failed, with the error
    recorded during the iteration, or with "No pull requests created" when
    none was. [completed_at] is assigned once, as the last action of the
    run, in the step that begins with the assignment of the terminal
    status and has no suspension point. *)
Theorem final_disposition
    (self : CodeResearcherSystem) (id : string) (a : Alert)
    (repos : list RepositoryConfig) (created : nat)
    (j1 : ResearchJob) (log1 : list Entry) :
  let job := new_job id a repos created in
  candidate_iteration self job = Some (Ok tt, j1, log1) ->
  let jf := final_job self job in
  let log := log_of self job in
  (status jf = completed <-> some_nonempty (pull_requests jf) = true)
  /\ (some_nonempty (pull_requests jf) = false ->
      status jf = failed
      /\ error_message jf
         = if some_text (error_message j1) then error_message j1
           else Some "No pull requests created")
  /\ completed_at jf = Some (now self)
  /\ assignments_to F_completed_at log = [jf]
  /\ exists pre js mid,
       log = pre ++ Assign F_status js :: mid ++ [Assign F_completed_at jf]
       /\ Forall (fun w => ~ terminal (status w)) (writes pre)
       /\ terminal (status js)
       /\ suspensions mid = [].
Proof.
  intros job Hit jf log.
  pose proof (run_iteration self job j1 log1 Hit) as Hrun.
  assert (Hloop : in_progress j1 /\ steps (set_status analyzing job) log1 j1
                  /\ Forall (fun w => active (status w)) (writes log1)).
  { unfold candidate_iteration in Hit.
    destruct (github_handler self) as [gh |]; [| discriminate].
    destruct (identify_relevant_repositories (alert job) (repositories job))
      as [| c cs]; [discriminate |].
    assert (H' : process_candidates self gh 0 (firstn 2 (c :: cs))
                   (set_status analyzing job) = (Ok tt, j1, log1)) by congruence.
    pose proof (process_candidates_steps self gh (firstn 2 (c :: cs)) 0 _
                  (analyzing_in_progress job (new_job_fresh id a repos created)))
      as H.
    now rewrite H' in H. }
  destruct Hloop as ((Hact & Hc & Hpr) & Hs & Hw).
  pose proof (steps_completed_at_unassigned _ _ _ Hs Hc) as Hnone.
  assert (Hpre : Forall (fun w => ~ terminal (status w))
                   (writes (Assign F_status (set_status analyzing job) :: log1))).
  { constructor; [intros [H | H]; discriminate |].
    eapply Forall_impl; [exact Hw |]. intros w. apply active_not_terminal. }
  subst jf log. unfold final_job, log_of. rewrite Hrun. clear Hrun.
  unfold update_job_status. unfold_proc. cbn.
  destruct (some_nonempty (pull_requests j1)) eqn:Hp; cbn.
  - rewrite Hp. repeat split; try congruence.
    + rewrite assignments_to_assign, decide_False by discriminate.
      rewrite assignments_to_app, Hnone. reflexivity.
    + exists (Assign F_status (set_status analyzing job) :: log1),
        (set_status completed j1), [].
      repeat split; [exact Hpre | now left].
  - destruct (some_text (error_message j1)) eqn:He; cbn; rewrite Hp.
    all: repeat split; try congruence; try discriminate.
    all: try (rewrite assignments_to_assign, decide_False by discriminate;
              rewrite assignments_to_app, Hnone; reflexivity).
    + exists (Assign F_status (set_status analyzing job) :: log1),
        (set_status failed j1), [].
      repeat split; [exact Hpre | now right].
    + exists (Assign F_status (set_status analyzing job) :: log1),
        (set_status failed j1),
        [Assign F_error_message
           (set_error_message (Some "No pull requests created")
              (set_status failed j1))].
      repeat split; [exact Hpre | now right].
Qed.

(** An instance: the example run reaches the end of the iteration and ends
    completed. *)
Lemma final_disposition_witness :
  exists j1 log1,
    candidate_iteration Example.system Example.job = Some (Ok tt, j1, log1)
    /\ (status (final_job Example.system Example.job) = completed <->
        some_nonempty (pull_requests (final_job Example.system Example.job)) = true).
Proof.
  eexists. eexists. split; [vm_compute; reflexivity |].
  eapply (final_disposition Example.system "job-1" Example.alarm
            [Example.repo_a; Example.repo_b] 100).
  vm_compute. reflexivity.
Defined.

(** ** C5: the iteration over candidates *)

Local Transparent process_candidates.

Lemma visited_app (l1 l2 : list Entry) : visited (l1 ++ l2) = visited l1 ++ visited l2.
Proof. unfold visited. apply omap_app. Qed.

(** The processing of a candidate starts with its visit, and visits no
    other. *)
Lemma process_candidate_visited (self : CodeResearcherSystem) (gh : GitHubHandler)
    (i : nat) (c : Scored) (j : ResearchJob) :
  visited (snd (process_candidate self gh i c j)) = [fst c].
Proof.
  unfold process_candidate. unfold_proc. cbn.
  repeat next_case; reflexivity.
Qed.

Lemma process_candidates_visited (self : CodeResearcherSystem) (gh : GitHubHandler)
    (cs : list Scored) (i : nat) (j : ResearchJob) :
  visited (snd (process_candidates self gh i cs j)) `prefix_of` (fst <$> cs).
Proof.
  revert i j. induction cs as [| c cs IH]; intros i j; [now exists [] |].
  cbn [process_candidates]. unfold mbind, proc_bind.
  pose proof (process_candidate_visited self gh i c j) as Hv.
  destruct (process_candidate self gh i c j) as [[[[] | msg] j1] log1]; cbn in Hv.
  - specialize (IH (S i) j1).
    destruct (process_candidates self gh (S i) cs j1) as [[r j2] log2].
    cbn [snd] in IH |- *. destruct IH as [k Hk]. exists k.
    rewrite visited_app, Hv.
    change (fst <$> c :: cs) with (fst c :: (fst <$> cs)). now rewrite Hk.
  - cbn [snd]. rewrite Hv. now exists (fst <$> cs).
Qed.

(** When its workspace can be made and removed, the processing of a
    candidate returns whatever the collaborators do, and an exception of
    theirs is recorded as the job's error message. *)
Lemma process_candidate_returns (self : CodeResearcherSystem) (gh : GitHubHandler)
    (i : nat) (c : Scored) (j : ResearchJob) :
  workspace_enter self i = Ok tt ->
  workspace_exit self i = Ok tt ->
  match process_candidate self gh i c j with
  | (r, j', log) =>
      r = Ok tt
      /\ forall msg,
           candidate_error self gh i (fst c) = Some msg ->
           error_message j' = Some msg
           /\ In (Some msg) (error_message <$> assignments_to F_error_message log)
  end.
Proof.
  intros He Hx.
  unfold process_candidate, candidate_error. unfold_proc. rewrite He, Hx. cbn.
  repeat next_case.
  all: split; [reflexivity |]; intros m Hm; try discriminate.
  all: injection Hm as <-; split; [reflexivity |].
  all: repeat (rewrite assignments_to_assign;
               first [rewrite decide_True by reflexivity
                     | rewrite decide_False by discriminate]).
  all: now left.
Qed.

Lemma process_candidates_returns (self : CodeResearcherSystem) (gh : GitHubHandler)
    (cs : list Scored) (i : nat) (j : ResearchJob) :
  (forall k, workspace_enter self k = Ok tt /\ workspace_exit self k = Ok tt) ->
  match process_candidates self gh i cs j with
  | (r, j', log) =>
      r = Ok tt
      /\ visited log = fst <$> cs
      /\ forall n c msg,
           cs !! n = Some c ->
           candidate_error self gh (i + n) (fst c) = Some msg ->
           In (Some msg) (error_message <$> assignments_to F_error_message log)
  end.
Proof.
  intros Hw. revert i j. induction cs as [| c cs IH]; intros i j.
  - cbn. repeat split. intros n c msg H. discriminate.
  - cbn [process_candidates]. unfold mbind, proc_bind.
    pose proof (process_candidate_visited self gh i c j) as Hv.
    pose proof (process_candidate_returns self gh i c j
                  (proj1 (Hw i)) (proj2 (Hw i))) as Hr.
    destruct (process_candidate self gh i c j) as [[r1 j1] log1].
    destruct Hr as [-> Herr]. cbn in Hv.
    specialize (IH (S i) j1).
    destruct (process_candidates self gh (S i) cs j1) as [[r j2] log2].
    destruct IH as (-> & Hv2 & Herr2).
    split; [reflexivity |]. split.
    + rewrite visited_app, Hv, Hv2. reflexivity.
    + intros n c' msg Hn Hm. rewrite assignments_to_app, fmap_app.
      apply in_or_app. destruct n as [| n].
      * left. injection Hn as <-. rewrite Nat.add_0_r in Hm.
        now apply Herr.
      * right. apply (Herr2 n c' msg); [exact Hn |].
        now replace (S i + n) with (i + S n) by lia.
Qed.

Lemma update_job_status_visited (self : CodeResearcherSystem) (j : ResearchJob) :
  visited (snd (update_job_status self j)) = [].
Proof.
  unfold update_job_status. unfold_proc.
  destruct (some_nonempty (pull_requests j)); cbn; [reflexivity |].
  now destruct (some_text (error_message j)).
Qed.

(** The log of a run that enters the loop: the first assignment, the log
    of the loop, and a rest without visits. *)
Lemma log_of_iteration (self : CodeResearcherSystem) (gh : GitHubHandler)
    (job : ResearchJob) (c : Scored) (cs : list Scored) :
  github_handler self = Some gh ->
  identify_relevant_repositories (alert job) (repositories job) = c :: cs ->
  exists rest,
    log_of self job
    = Assign F_status (set_status analyzing job)
      :: snd (process_candidates self gh 0 (firstn 2 (c :: cs))
                (set_status analyzing job)) ++ rest
    /\ visited rest = [].
Proof.
  intros Hgh Hrel.
  unfold log_of, run, _process_research_job. unfold_proc. rewrite Hgh.
  cbn [alert repositories set_status]. rewrite Hrel.
  destruct (process_candidates self gh 0 (firstn 2 (c :: cs))
              (set_status analyzing job)) as [[[[] | msg] j1] log1].
  - pose proof (update_job_status_returns self j1) as Hr.
    pose proof (update_job_status_visited self j1) as Hv.
    destruct (update_job_status self j1) as [[r j2] log2].
    cbn in Hr, Hv. subst r. now exists log2.
  - now eexists.
Qed.

(** The temporary workspace is outside the [try] of a candidate: when it
    cannot be made, the exception ends the run through the handler of the
    whole method, and the candidates after this one are not visited. *)
Lemma workspace_failure_ends_job
    (self : CodeResearcherSystem) (gh : GitHubHandler) (job : ResearchJob)
    (c : Scored) (cs : list Scored) (msg : string) :
  github_handler self = Some gh ->
  identify_relevant_repositories (alert job) (repositories job) = c :: cs ->
  workspace_enter self 0 = Raise msg ->
  visited (log_of self job) = [fst c]
  /\ status (final_job self job) = failed
  /\ error_message (final_job self job) = Some msg
  /\ completed_at (final_job self job) = Some (now self).
Proof.
  intros Hgh Hrel Hw.
  unfold final_job, log_of, run, _process_research_job. unfold_proc.
  rewrite Hgh. cbn [alert repositories set_status]. rewrite Hrel.
  cbn [firstn process_candidates].
  unfold process_candidate. unfold_proc. cbn [fst]. rewrite Hw.
  destruct cs; cbn; repeat split.
Qed.

(** C5, amended. The processing of a job visits candidates one after the
    other, in the order of the ranking, and never more than the first 2. An
    exception raised by the clone, the analysis or the pull request
    creation for a candidate is recorded as the job's error message and
    does not stop the processing, provided the temporary workspace of
    every candidate can be made and removed: then all of the first 2
    candidates are visited whatever these collaborators do, and when the
    clone fails for the first of two candidates and the second one
    succeeds, the job ends completed, with exactly the one pull request
    URL and with the error message of the first candidate. An exception
    raised while the workspace of the first candidate is made ends the
    job, failed and with that message, and no other candidate is visited. *)
Theorem candidate_processing
    (self : CodeResearcherSystem) (gh : GitHubHandler) (id : string) (a : Alert)
    (repos : list RepositoryConfig) (created : nat) :
  github_handler self = Some gh ->
  let job := new_job id a repos created in
  let ranked := identify_relevant_repositories a repos in
  let log := log_of self job in
  (visited log `prefix_of` (fst <$> firstn 2 ranked) /\ length (visited log) <= 2)
  /\ ((forall k, workspace_enter self k = Ok tt /\ workspace_exit self k = Ok tt) ->
      visited log = fst <$> firstn 2 ranked
      /\ forall n c msg,
           firstn 2 ranked !! n = Some c ->
           candidate_error self gh n (fst c) = Some msg ->
           In (Some msg) (error_message <$> assignments_to F_error_message log))
  /\ (forall c1 c2 rest msg res url,
        ranked = c1 :: c2 :: rest ->
        workspace_enter self 0 = Ok tt -> workspace_exit self 0 = Ok tt ->
        workspace_enter self 1 = Ok tt -> workspace_exit self 1 = Ok tt ->
        clone_repository gh 0 (fst c1) = Raise msg ->
        clone_repository gh 1 (fst c2) = Ok tt ->
        analyze_crash self 1 (fst c2) = Ok res ->
        analysis_complete res = true ->
        fix_proposals res <> [] ->
        create_pull_request_for_fixes gh 1 (fst c2) (fix_proposals res) = Ok url ->
        status (final_job self job) = completed
        /\ pull_requests (final_job self job) = Some [url]
        /\ error_message (final_job self job) = Some msg)
  /\ (forall c cs msg,
        ranked = c :: cs ->
        workspace_enter self 0 = Raise msg ->
        visited log = [fst c]
        /\ status (final_job self job) = failed
        /\ error_message (final_job self job) = Some msg
        /\ completed_at (final_job self job) = Some (now self)).
Proof.
  intros Hgh job ranked log.
  assert (Hvis : visited log `prefix_of` (fst <$> firstn 2 ranked)
                 /\ ((forall k, workspace_enter self k = Ok tt
                                /\ workspace_exit self k = Ok tt) ->
                     visited log = fst <$> firstn 2 ranked
                     /\ forall n c msg,
                          firstn 2 ranked !! n = Some c ->
                          candidate_error self gh n (fst c) = Some msg ->
                          In (Some msg)
                            (error_message <$> assignments_to F_error_message log))).
  { subst log. destruct ranked as [| c cs] eqn:Erel.
    - assert (Hlog : visited (log_of self job) = []).
      { unfold log_of, run, _process_research_job. unfold_proc. rewrite Hgh.
        cbn [alert repositories set_status job new_job].
        fold ranked. now rewrite Erel. }
      rewrite Hlog. split; [now exists [] |]. intros _. split; [reflexivity |].
      intros n c msg H. discriminate.
    - destruct (log_of_iteration self gh job c cs Hgh Erel) as (rest & -> & Hrest).
      pose proof (process_candidates_visited self gh (firstn 2 (c :: cs)) 0
                    (set_status analyzing job)) as Hpre.
      pose proof (process_candidates_returns self gh (firstn 2 (c :: cs)) 0
                    (set_status analyzing job)) as Hret.
      destruct (process_candidates self gh 0 (firstn 2 (c :: cs))
                  (set_status analyzing job)) as [[r j1] log1].
      cbn [snd] in *.
      assert (Hv : visited (Assign F_status (set_status analyzing job)
                            :: log1 ++ rest) = visited log1).
      { change (visited (Assign F_status (set_status analyzing job) :: log1 ++ rest))
          with (visited (log1 ++ rest)).
        now rewrite visited_app, Hrest, app_nil_r. }
      rewrite Hv. split; [exact Hpre |].
      intros Hw. destruct (Hret Hw) as (_ & Hvl & Herr).
      split; [exact Hvl |].
      intros n c' msg Hn Hm.
      rewrite assignments_to_assign, decide_False by discriminate.
      rewrite assignments_to_app, fmap_app. apply in_or_app. left.
      now apply (Herr n c' msg). }
  destruct Hvis as [Hpre Hall].
  split; [split; [exact Hpre |] | split; [exact Hall | split]].
  - apply prefix_length in Hpre. rewrite length_fmap, length_take in Hpre. lia.
  - intros c1 c2 rest msg res url Erel He0 Hx0 He1 Hx1 Hc0 Hc1 Han Hcomplete Hfix Hpr.
    unfold final_job, run, _process_research_job. unfold_proc. rewrite Hgh.
    cbn [alert repositories set_status job new_job].
    fold ranked. rewrite Erel.
    cbn [firstn process_candidates].
    unfold process_candidate, update_job_status. unfold_proc.
    cbn [fst]. rewrite He0, Hc0, Hx0, He1, Hc1, Han. cbn.
    rewrite Hcomplete, (bool_decide_eq_true_2 _ Hfix), Hpr, Hx1. cbn.
    repeat split.
  - intros c cs msg Erel Hw.
    exact (workspace_failure_ends_job self gh job c cs msg Hgh Erel Hw).
Qed.

(** An instance: in the example run the clone of the first candidate
    fails and the second candidate succeeds. *)
Lemma candidate_processing_witness :
  github_handler Example.system = Some Example.handler
  /\ status (final_job Example.system Example.job) = completed
  /\ pull_requests (final_job Example.system Example.job)
     = Some ["https://github.com/acme/billing_api/pull/1"]
  /\ error_message (final_job Example.system Example.job) = Some "clone failed".
Proof.
  split; [reflexivity |].
  pose proof (candidate_processing Example.system Example.handler "job-1"
                Example.alarm [Example.repo_a; Example.repo_b] 100 eq_refl)
    as (_ & _ & H & _).
  eapply H; try (vm_compute; reflexivity).
  vm_compute. discriminate.
Defined.

(** C5 as stated fails: the workspace of a candidate is made inside the
    loop and outside the [try] of the candidate. Here both profiles are
    ranked and every collaborator would succeed for the second, but the
    workspace of the first cannot be made: the exception ends the job,
    failed, and the second candidate is not visited. *)
Lemma workspace_failure_skips_candidate :
  (identify_relevant_repositories Example.alarm [Example.repo_a; Example.repo_b]).*1
  = [Example.repo_a; Example.repo_b]
  /\ visited (log_of Example2.system_without_workspace Example.job)
     = [Example.repo_a]
  /\ status (final_job Example2.system_without_workspace Example.job) = failed
  /\ error_message (final_job Example2.system_without_workspace Example.job)
     = Some "No space left on device"
  /\ pull_requests (final_job Example2.system_without_workspace Example.job) = None.
Proof. vm_compute. repeat split. Qed.

(** ** C8: wrapped and direct payloads *)

Section ParsingProperties.

Variable json_loads : string -> option json.
Variable json_dumps : json -> string.

(** C8, amended. For every alarm payload [P] without a ["Message"] entry
    that [json.loads] reads back from its encoding, parsing [P] directly
    and parsing an envelope whose ["Message"] entry is the JSON encoding
    of [P] give the same alert; each of its fields is the entry of [P]
    under the field's key, and the empty string when [P] has none. *)
Theorem wrapped_equals_direct (P envelope : dict) :
  dict_mem "Message" P = false ->
  json_loads (json_dumps (JObj P)) = Some (JObj P) ->
  dict_lookup "Message" envelope = Some (JStr (json_dumps (JObj P))) ->
  from_sns_message json_loads envelope = from_sns_message json_loads P
  /\ exists alert,
       from_sns_message json_loads P = Some alert
       /\ forall key field,
            In (key, field) alert_fields ->
            field alert = default (JStr EmptyString) (dict_lookup key P).
Proof.
  intros HP Hrt Henv. split.
  - unfold from_sns_message, dict_get. rewrite HP. unfold dict_mem.
    rewrite Henv. cbn. now rewrite Hrt.
  - unfold from_sns_message. rewrite HP. eexists. split; [reflexivity |].
    intros key field Hin. cbn in Hin.
    repeat (destruct Hin as [Hin | Hin]; [now inversion Hin |]).
    destruct Hin.
Qed.

End ParsingProperties.

(** An instance: the alarm of the parsing tests, in a notification
    envelope. *)
Lemma wrapped_equals_direct_witness :
  dict_mem "Message" Example.payload = false
  /\ from_sns_message MiniJson.loads
       [("Type", JStr "Notification");
        ("Message", JStr (MiniJson.dumps (JObj Example.payload)))]
     = from_sns_message MiniJson.loads Example.payload.
Proof.
  split; [reflexivity |].
  apply (wrapped_equals_direct MiniJson.loads MiniJson.dumps Example.payload);
    vm_compute; reflexivity.
Defined.

(** C8 as stated fails for a payload that has a ["Message"] entry of its
    own: read directly, that entry is taken for the payload. *)
Lemma wrapped_differs_from_direct :
  MiniJson.loads (MiniJson.dumps (JObj Example.payload_with_message))
  = Some (JObj Example.payload_with_message)
  /\ from_sns_message MiniJson.loads
       [("Message", JStr (MiniJson.dumps (JObj Example.payload_with_message)))]
     <> from_sns_message MiniJson.loads Example.payload_with_message
  /\ alarm_name <$> from_sns_message MiniJson.loads Example.payload_with_message
     = Some (JStr EmptyString)
  /\ alarm_name <$> from_sns_message MiniJson.loads
       [("Message", JStr (MiniJson.dumps (JObj Example.payload_with_message)))]
     = Some (JStr "X").
Proof.
  split; [vm_compute; reflexivity |].
  split; [vm_compute; discriminate |].
  split; vm_compute; reflexivity.
Qed.

(** ** Words and keywords *)

Local Arguments String.append : simpl nomatch.
Local Transparent identify_relevant_repositories.

Lemma str_app_nil_r (s : string) : String.append s EmptyString = s.
Proof. induction s as [|c s IH]; simpl; congruence. Qed.

Lemma str_app_assoc (a b c : string) :
  String.append (String.append a b) c = String.append a (String.append b c).
Proof. induction a as [|x a IH]; simpl; congruence. Qed.

Lemma str_length_app (a b : string) :
  String.length (String.append a b) = String.length a + String.length b.
Proof. induction a as [|x a IH]; simpl; congruence. Qed.

Lemma all_chars_app (keep : ascii -> bool) (a b : string) :
  Str2.all_chars keep (String.append a b)
  = Str2.all_chars keep a && Str2.all_chars keep b.
Proof.
  induction a as [|x a IH]; simpl; [reflexivity|].
  rewrite IH. apply andb_assoc.
Qed.

Lemma all_chars_impl (p q : ascii -> bool) (s : string) :
  (forall c, p c = true -> q c = true) ->
  Str2.all_chars p s = true -> Str2.all_chars q s = true.
Proof.
  intros Hpq. induction s as [|c s IH]; simpl; [reflexivity|].
  intros [Hc Hs]%andb_true_iff. rewrite (Hpq c Hc). simpl. exact (IH Hs).
Qed.

Lemma word_runs_runs (cur s : string) :
  Str.word_runs cur s = Str2.runs Str.is_word_char cur s.
Proof.
  revert cur. induction s as [|c s IH]; intros cur; simpl; [reflexivity|].
  rewrite !IH. reflexivity.
Qed.

Lemma flush_Forall (P : string -> Prop) (cur : string) :
  (cur <> EmptyString -> P cur) -> List.Forall P (Str.flush cur).
Proof.
  intros H. destruct cur; simpl; constructor; [|constructor].
  apply H. discriminate.
Qed.

(** The characters of a run are characters of the text, and a run is not
    empty. *)
Lemma runs_chars (keep P : ascii -> bool) (cur s : string) :
  Str2.all_chars P cur = true -> Str2.all_chars P s = true ->
  List.Forall (fun w => Str2.all_chars P w = true /\ w <> EmptyString)
    (Str2.runs keep cur s).
Proof.
  revert cur. induction s as [|c s IH]; intros cur Hcur Hs; simpl in *.
  - apply flush_Forall. auto.
  - apply andb_true_iff in Hs as [Hc Hs]. destruct (keep c).
    + apply IH; [|exact Hs]. rewrite all_chars_app, Hcur. simpl. now rewrite Hc.
    + apply List.Forall_app. split; [apply flush_Forall; auto|].
      apply IH; [reflexivity|exact Hs].
Qed.

(** A run consists of kept characters. *)
Lemma runs_kept (keep : ascii -> bool) (cur s : string) :
  Str2.all_chars keep cur = true ->
  List.Forall (fun w => Str2.all_chars keep w = true) (Str2.runs keep cur s).
Proof.
  revert cur. induction s as [|c s IH]; intros cur Hcur; simpl.
  - apply flush_Forall. auto.
  - destruct (keep c) eqn:Hc.
    + apply IH. rewrite all_chars_app, Hcur. simpl. now rewrite Hc.
    + apply List.Forall_app. split; [apply flush_Forall; auto|].
      apply IH. reflexivity.
Qed.

(** A run is a piece of the text. *)
Lemma runs_substring (keep : ascii -> bool) (cur s : string) :
  List.Forall
    (fun w => exists pre post,
       String.append cur s = String.append pre (String.append w post))
    (Str2.runs keep cur s).
Proof.
  revert cur. induction s as [|c s IH]; intros cur; simpl.
  - apply flush_Forall. intros _. exists EmptyString, EmptyString.
    simpl. now rewrite !str_app_nil_r.
  - destruct (keep c).
    + specialize (IH (String.append cur (String c EmptyString))).
      rewrite str_app_assoc in IH. exact IH.
    + apply List.Forall_app. split.
      * apply flush_Forall. intros _. exists EmptyString, (String c s).
        reflexivity.
      * specialize (IH EmptyString). simpl in IH.
        eapply List.Forall_impl; [|exact IH].
        intros w (pre & post & E).
        exists (String.append cur (String c pre)), post.
        rewrite str_app_assoc. simpl. now rewrite E.
Qed.

Lemma lower_char_not_upper (c : ascii) : Str.is_upper (Str.lower_char c) = false.
Proof. destruct c as [[] [] [] [] [] [] [] []]; reflexivity. Qed.

Lemma lower_not_upper (s : string) :
  Str2.all_chars (fun c => negb (Str.is_upper c)) (Str.lower s) = true.
Proof.
  induction s as [|c s IH]; simpl; [reflexivity|].
  now rewrite lower_char_not_upper, IH.
Qed.

Lemma lower_idempotent (s : string) : Str.lower (Str.lower s) = Str.lower s.
Proof.
  induction s as [|c s IH]; simpl; [reflexivity|]. rewrite IH. f_equal.
  unfold Str.lower_char at 1. now rewrite lower_char_not_upper.
Qed.

Lemma filter_Forall {A} (p : A -> bool) (P : A -> Prop) (l : list A) :
  List.Forall P l -> List.Forall (fun x => P x /\ p x = true) (List.filter p l).
Proof.
  induction 1 as [|x l Hx Hl IH]; simpl; [constructor|].
  destruct (p x) eqn:E; [constructor; auto|exact IH].
Qed.

(** X1: of a text of ASCII characters, every word
    [_extract_words_from_text] returns is made of lower-case letters,
    digits and underscores only, is longer than two characters, is no stop
    word, and occurs in the lower-cased text as it stands. *)
Theorem words_well_formed (text : string) :
  Str2.all_chars Str2.is_ascii text = true ->
  List.Forall
    (fun w => Str2.all_chars Str2.is_lower_word_char w = true
              /\ 2 < String.length w
              /\ (w ∉ stop_words)
              /\ Str.substring_of w (Str.lower text))
    (_extract_words_from_text text).
Proof.
  intros _.
  unfold _extract_words_from_text, Str.findall_words.
  rewrite word_runs_runs.
  pose proof (runs_kept Str.is_word_char EmptyString (Str.lower text) eq_refl) as Hk.
  pose proof (runs_chars Str.is_word_char (fun c => negb (Str.is_upper c))
                EmptyString (Str.lower text) eq_refl (lower_not_upper text)) as Hl.
  pose proof (runs_substring Str.is_word_char EmptyString (Str.lower text)) as Hs.
  set (words := Str2.runs Str.is_word_char EmptyString (Str.lower text)) in *.
  clearbody words.
  induction words as [|w words IH]; simpl; [constructor|].
  inversion Hk as [|? ? Hk1 Hk2]; inversion Hl as [|? ? [Hl1 _] Hl2];
    inversion Hs as [|? ? Hs1 Hs2]; subst.
  specialize (IH Hk2 Hl2 Hs2).
  destruct (negb (bool_decide (w ∈ stop_words)) && long_word w) eqn:E; [|exact IH].
  constructor; [|exact IH].
  apply andb_true_iff in E as [E1 E2].
  apply negb_true_iff, bool_decide_eq_false in E1.
  unfold long_word in E2. apply Nat.ltb_lt in E2.
  repeat split; [|exact E2|exact E1|exact Hs1].
  clear - Hk1 Hl1. induction w as [|c w IHw]; simpl in *; [reflexivity|].
  apply andb_true_iff in Hk1 as [Hc Hk1]. apply andb_true_iff in Hl1 as [Hu Hl1].
  rewrite (IHw Hk1 Hl1), andb_true_r.
  unfold Str2.is_lower_word_char. unfold Str.is_word_char in Hc.
  apply negb_true_iff in Hu. rewrite Hu in Hc. exact Hc.
Qed.

(** An instance: the alarm name of the examples. *)
Lemma words_well_formed_witness :
  List.Forall
    (fun w => Str2.all_chars Str2.is_lower_word_char w = true
              /\ 2 < String.length w
              /\ (w ∉ stop_words)
              /\ Str.substring_of w (Str.lower "HighErrorRate-Lambda-Function"))
    (_extract_words_from_text "HighErrorRate-Lambda-Function").
Proof.
  apply (words_well_formed "HighErrorRate-Lambda-Function"). reflexivity.
Defined.

Lemma words_of_empty : _extract_words_from_text EmptyString = [].
Proof. reflexivity. Qed.

Lemma words_long (text w : string) :
  w ∈ _extract_words_from_text text -> long_word w = true.
Proof.
  unfold _extract_words_from_text. intros Hw.
  apply list_elem_of_In, List.filter_In in Hw as [_ Hw].
  now apply andb_true_iff in Hw as [_ Hw].
Qed.

Lemma guarded_words (s : string) :
  (if truthy s then _extract_words_from_text s else [])
  = _extract_words_from_text s.
Proof. destruct s; reflexivity. Qed.

(** X2: the keywords of an alert are, without repetition, exactly the words
    of its alarm name, its namespace and its metric name; nothing else of
    the alert is read. *)
Theorem alert_keywords_sources (alert : Alert) :
  NoDup (_extract_alert_keywords alert)
  /\ forall k : string,
       k ∈ _extract_alert_keywords alert
       <-> k ∈ _extract_words_from_text (alarm_name alert)
           \/ k ∈ _extract_words_from_text (namespace alert)
           \/ k ∈ _extract_words_from_text (metric_name alert).
Proof.
  unfold _extract_alert_keywords. rewrite !guarded_words. split.
  - apply NoDup_elements.
  - intros k. rewrite elem_of_elements, elem_of_list_to_set.
    rewrite list_elem_of_In, List.filter_In, <- list_elem_of_In.
    rewrite !elem_of_app. split; [tauto|].
    intros H. split; [exact H|].
    destruct H as [H|[H|H]]; exact (words_long _ _ H).
Qed.

(** ** More on scores *)

(** The score of a non-empty keyword list as a sum of three parts. *)
Lemma score_parts (k : string) (ks : list string) (r : RepositoryConfig) :
  let alert_set : gset string := list_to_set (k :: ks) in
  (_calculate_relevance_score (k :: ks) r
   == Qmin ((match alert_keywords r with
             | [] => 3 # 10
             | _ :: _ =>
                 ratio (size (alert_set ∩ list_to_set (Str.lower <$> alert_keywords r)))
                       (size alert_set) * (8 # 10)
             end)
            + default 0 (priority_boost !! priority r)
            + ratio (size (alert_set ∩ list_to_set (_extract_words_from_text (name r))))
                    (length (k :: ks)) * (3 # 10))
           1)%Q.
Proof.
  intros alert_set. unfold _calculate_relevance_score. fold alert_set.
  rewrite py_min_Qmin. apply Q.min_compat; [|reflexivity].
  rewrite add_if_nonempty.
  apply Qplus_comp; [|reflexivity]. apply Qplus_comp; [|reflexivity].
  destruct (alert_keywords r) as [|kw kws]; [reflexivity|].
  rewrite (add_if_nonempty _ _ 0%Q). ring.
Qed.

Lemma ratio_term_nonneg (k n : nat) (w : Q) : (0 <= w)%Q -> (0 <= ratio k n * w)%Q.
Proof. intros Hw. apply Qmult_le_0_compat; [apply ratio_nonneg|exact Hw]. Qed.

Lemma keyword_part_nonneg (s t : gset string) (l : list string) :
  (0 <= match l with
        | [] => 3 # 10
        | _ :: _ => ratio (size (s ∩ t)) (size s) * (8 # 10)
        end)%Q.
Proof.
  destruct l; [vm_compute; discriminate|].
  apply ratio_term_nonneg. vm_compute; discriminate.
Qed.

(** X3: the score lies between 0 and 1, whatever the keywords and the
    profile. *)
Theorem score_bounds (kws : list string) (r : RepositoryConfig) :
  (0 <= _calculate_relevance_score kws r <= 1)%Q.
Proof.
  destruct kws as [|k ks]; [split; vm_compute; discriminate|].
  rewrite score_parts. split; [|apply Q.le_min_r].
  apply Q.min_glb; [|vm_compute; discriminate].
  pose proof (keyword_part_nonneg (list_to_set (k :: ks))
                (list_to_set (Str.lower <$> alert_keywords r)) (alert_keywords r)) as H1.
  pose proof (priority_boost_nonneg (priority r)) as H2.
  pose proof (ratio_term_nonneg
                (size (list_to_set (k :: ks) ∩ list_to_set
                         (_extract_words_from_text (name r)) : gset string))
                (length (k :: ks)) (3 # 10)) as H3.
  assert (H4 : (0 <= 3 # 10)%Q) by (vm_compute; discriminate).
  specialize (H3 H4). lra.
Qed.

Lemma priority_boost_other (p : string) :
  p <> "high" -> p <> "medium" -> default 0%Q (priority_boost !! p) = 0%Q.
Proof.
  intros Hh Hm. unfold priority_boost.
  rewrite !lookup_insert_ne by congruence.
  destruct (decide (p = "low")) as [->|Hl]; [reflexivity|].
  now rewrite lookup_singleton_ne by congruence.
Qed.

Lemma score_boost_le (kws : list string) (r : RepositoryConfig) (p q : string) :
  (default 0 (priority_boost !! p) <= default 0 (priority_boost !! q))%Q ->
  (_calculate_relevance_score kws (with_priority p r)
   <= _calculate_relevance_score kws (with_priority q r))%Q.
Proof.
  intros Hpq. destruct kws as [|k ks]; [apply Qle_refl|].
  rewrite !score_parts. simpl.
  apply Q.min_le_compat_r.
  apply Qplus_le_compat; [|apply Qle_refl].
  apply Qplus_le_compat; [apply Qle_refl|exact Hpq].
Qed.

(** X4: a priority other than high and medium counts as low, and with
    everything else equal a high profile scores at least as much as a
    medium one, and a medium one at least as much as a low one. *)
Theorem score_priority (kws : list string) (r : RepositoryConfig) (p : string) :
  p <> "high" -> p <> "medium" ->
  (_calculate_relevance_score kws (with_priority p r)
   == _calculate_relevance_score kws (with_priority "low" r))%Q
  /\ (_calculate_relevance_score kws (with_priority "low" r)
      <= _calculate_relevance_score kws (with_priority "medium" r))%Q
  /\ (_calculate_relevance_score kws (with_priority "medium" r)
      <= _calculate_relevance_score kws (with_priority "high" r))%Q.
Proof.
  intros Hh Hm. split; [|split].
  - apply Qle_antisym; apply score_boost_le;
      rewrite (priority_boost_other p Hh Hm); vm_compute; discriminate.
  - apply score_boost_le. vm_compute; discriminate.
  - apply score_boost_le. vm_compute; discriminate.
Qed.

(** An instance: a profile whose priority is written [urgent]. *)
Lemma score_priority_witness :
  (_calculate_relevance_score Example.keywords (with_priority "urgent" Example.repo_a)
   == _calculate_relevance_score Example.keywords (with_priority "low" Example.repo_a))%Q.
Proof.
  pose proof (score_priority Example.keywords Example.repo_a "urgent") as H.
  assert (H1 : "urgent" <> "high") by discriminate.
  assert (H2 : "urgent" <> "medium") by discriminate.
  exact (proj1 (H H1 H2)).
Defined.

(** X5: the configured keywords count as the set of their lower-cased
    forms: two profiles of the same name and priority whose keywords give
    the same such set score the same. *)
Theorem score_keywords_as_lowercase_set
    (kws : list string) (r r' : RepositoryConfig) :
  name r = name r' ->
  priority r = priority r' ->
  (list_to_set (Str.lower <$> alert_keywords r) : gset string)
  = list_to_set (Str.lower <$> alert_keywords r') ->
  _calculate_relevance_score kws r = _calculate_relevance_score kws r'.
Proof.
  intros Hn Hp Hk. unfold _calculate_relevance_score.
  destruct kws as [|k ks]; [reflexivity|].
  rewrite Hn, Hp.
  destruct (alert_keywords r) as [|a l] eqn:E, (alert_keywords r') as [|a' l'] eqn:E'.
  - reflexivity.
  - symmetry in Hk. apply list_to_set_nil_iff in Hk. discriminate.
  - apply list_to_set_nil_iff in Hk. discriminate.
  - now rewrite Hk.
Qed.

(** An instance: keywords in another case, order and number. *)
Lemma score_keywords_as_lowercase_set_witness :
  _calculate_relevance_score Example.keywords Example.repo_a
  = _calculate_relevance_score Example.keywords
      (mkRepositoryConfig "acme" "lambda-service" "token" "main" ["**/*.py"]
         ["ERROR"; "Lambda"; "error"] "high").
Proof.
  pose proof (score_keywords_as_lowercase_set Example.keywords Example.repo_a
                (mkRepositoryConfig "acme" "lambda-service" "token" "main"
                   ["**/*.py"] ["ERROR"; "Lambda"; "error"] "high")
                eq_refl eq_refl) as H.
  apply H. vm_compute. reflexivity.
Defined.

(** X6: with a non-empty keyword list a profile of high priority scores at
    least 0.2 and passes the threshold, whether or not anything matches. *)
Theorem high_priority_passes
    (kws : list string) (repo_configs : list RepositoryConfig) (r : RepositoryConfig) :
  kws <> [] ->
  priority r = "high" ->
  In r repo_configs ->
  (2 # 10 <= _calculate_relevance_score kws r)%Q
  /\ In (r, _calculate_relevance_score kws r) (relevant_repos kws repo_configs).
Proof.
  intros Hk Hp Hin.
  assert (H2 : (2 # 10 <= _calculate_relevance_score kws r)%Q).
  { destruct kws as [|k ks]; [congruence|].
    rewrite score_parts. apply Q.min_glb; [|vm_compute; discriminate].
    rewrite Hp.
    pose proof (keyword_part_nonneg (list_to_set (k :: ks))
                  (list_to_set (Str.lower <$> alert_keywords r)) (alert_keywords r)) as H1.
    pose proof (ratio_term_nonneg
                  (size (list_to_set (k :: ks) ∩ list_to_set
                           (_extract_words_from_text (name r)) : gset string))
                  (length (k :: ks)) (3 # 10)) as H3.
    assert (H4 : (0 <= 3 # 10)%Q) by (vm_compute; discriminate).
    specialize (H3 H4).
    change (default 0%Q (priority_boost !! "high")) with (2 # 10)%Q. lra. }
  split; [exact H2|].
  unfold relevant_repos. apply filter_In. split.
  - apply in_map_iff. now exists r.
  - apply above_threshold_lt. simpl. lra.
Qed.

(** An instance: profile A scored against keywords it has nothing to do
    with. *)
Lemma high_priority_passes_witness :
  (2 # 10 <= _calculate_relevance_score ["database"; "latency"] Example.repo_a)%Q.
Proof.
  assert (Hk : ["database"; "latency"] <> @nil string) by discriminate.
  assert (Hin : In Example.repo_a [Example.repo_b; Example.repo_a])
    by (right; left; reflexivity).
  pose proof (high_priority_passes ["database"; "latency"]
                [Example.repo_b; Example.repo_a] Example.repo_a Hk eq_refl Hin) as H.
  exact (proj1 H).
Defined.

Lemma ranked_in_relevant (alert : Alert) (repo_configs : list RepositoryConfig)
    (x : Scored) :
  In x (identify_relevant_repositories alert repo_configs) ->
  In x (relevant_repos (_extract_alert_keywords alert) repo_configs).
Proof.
  unfold identify_relevant_repositories, rank_with. intros Hx.
  apply In_firstn in Hx.
  exact (Permutation_in _ (sort_desc_perm snd _) Hx).
Qed.

(** X7: a profile that has keywords of its own, none of which is a keyword
    of the alert, whose name shares no word with the alert either, and
    whose priority is not high, scores at most 0.1 and is never ranked. *)
Theorem unrelated_repo_never_ranked
    (alert : Alert) (repo_configs : list RepositoryConfig) (r : RepositoryConfig) :
  let alert_set : gset string := list_to_set (_extract_alert_keywords alert) in
  alert_keywords r <> [] ->
  alert_set ∩ list_to_set (Str.lower <$> alert_keywords r) = ∅ ->
  alert_set ∩ list_to_set (_extract_words_from_text (name r)) = ∅ ->
  priority r <> "high" ->
  (_calculate_relevance_score (_extract_alert_keywords alert) r <= 1 # 10)%Q
  /\ ~ In r (identify_relevant_repositories alert repo_configs).*1.
Proof.
  intros alert_set Hk Ho Hn Hp.
  assert (Hs : (_calculate_relevance_score (_extract_alert_keywords alert) r
                <= 1 # 10)%Q).
  { destruct (_extract_alert_keywords alert) as [|k ks] eqn:E;
      [vm_compute; discriminate|].
    rewrite score_parts. subst alert_set. rewrite Ho, Hn.
    destruct (alert_keywords r) as [|kw kws]; [congruence|].
    rewrite size_empty, !ratio_0.
    eapply Qle_trans; [apply Q.le_min_l|].
    assert (Hb : (default 0 (priority_boost !! priority r) <= 1 # 10)%Q).
    { destruct (decide (priority r = "medium")) as [->|Hm]; [vm_compute; discriminate|].
      rewrite (priority_boost_other _ Hp Hm). vm_compute; discriminate. }
    lra. }
  split; [exact Hs|].
  intros Hin. apply in_map_iff in Hin as ([r' s] & Hr & Hin). simpl in Hr. subst r'.
  apply ranked_in_relevant in Hin. unfold relevant_repos in Hin.
  apply filter_In in Hin as [Hin Ha].
  apply in_map_iff in Hin as (r' & Hr' & _). inversion Hr'; subst.
  apply above_threshold_lt in Ha. simpl in Ha. lra.
Qed.

(** An instance: a billing service of medium priority, for the alarm of a
    function. *)
Lemma unrelated_repo_never_ranked_witness :
  ~ In (mkRepositoryConfig "acme" "billing" "token" "main" [] ["invoice"] "medium")
      (identify_relevant_repositories Example.alarm
         [mkRepositoryConfig "acme" "billing" "token" "main" [] ["invoice"] "medium";
          Example.repo_a]).*1.
Proof.
  pose proof (unrelated_repo_never_ranked Example.alarm
                [mkRepositoryConfig "acme" "billing" "token" "main" [] ["invoice"]
                   "medium"; Example.repo_a]
                (mkRepositoryConfig "acme" "billing" "token" "main" [] ["invoice"]
                   "medium")) as H.
  cbv zeta in H.
  assert (H1 : ["invoice"] <> @nil string) by discriminate.
  assert (H4 : "medium" <> "high") by discriminate.
  refine (proj2 (H H1 _ _ H4)); vm_compute; reflexivity.
Defined.

(** X8: the ranking has as many entries as profiles pass the threshold, up
    to three; when at most three pass it is a rearrangement of them, so
    none is left out. *)
Theorem ranking_keeps_up_to_three (alert : Alert) (repo_configs : list RepositoryConfig) :
  let passing := relevant_repos (_extract_alert_keywords alert) repo_configs in
  length (identify_relevant_repositories alert repo_configs) = Nat.min 3 (length passing)
  /\ (length passing <= 3 ->
      identify_relevant_repositories alert repo_configs ≡ₚ passing).
Proof.
  cbv zeta. unfold identify_relevant_repositories, rank_with.
  set (passing := relevant_repos _ _).
  pose proof (sort_desc_perm snd passing) as Hp. split.
  - rewrite length_take. f_equal. exact (Permutation_length Hp).
  - intros Hle. rewrite firstn_all2; [exact Hp|].
    exact (eq_ind_r (fun n => n <= 3) Hle (Permutation_length Hp)).
Qed.

(** ** Ignore patterns *)

Lemma validate_alert_alarm (config : HandlerConfig) (alert : Alert) :
  state alert = "ALARM" ->
  validate_alert config alert
  = forallb (fun pattern => negb (Str.contains pattern (Str.lower (alarm_name alert))))
      (default [] (ignore_patterns config)).
Proof.
  intros Hs. unfold validate_alert. rewrite bool_decide_eq_false_2 by tauto.
  induction (default [] (ignore_patterns config)) as [|p ps IH]; [reflexivity|].
  simpl. destruct (Str.contains p _); [reflexivity|exact IH].
Qed.

Lemma validate_alert_not_alarm (config : HandlerConfig) (alert : Alert) :
  state alert <> "ALARM" -> validate_alert config alert = false.
Proof. intros Hs. unfold validate_alert. now rewrite bool_decide_eq_true_2. Qed.

Lemma contains_empty (s : string) : Str.contains EmptyString s = true.
Proof. apply contains_iff. exists EmptyString, s. reflexivity. Qed.

(** X9: an empty string among the ignore patterns is part of every alarm
    name, so no alert is accepted at all. *)
Theorem empty_ignore_pattern_rejects_all (config : HandlerConfig) (alert : Alert) :
  In EmptyString (default [] (ignore_patterns config)) ->
  validate_alert config alert = false.
Proof.
  intros Hin.
  destruct (decide (state alert = "ALARM")) as [Hs|Hs];
    [|now apply validate_alert_not_alarm].
  rewrite validate_alert_alarm by exact Hs.
  apply not_true_is_false. intros H. rewrite forallb_forall in H.
  specialize (H _ Hin). now rewrite contains_empty in H.
Qed.

(** An instance: the alarm of the examples. *)
Lemma empty_ignore_pattern_rejects_all_witness :
  validate_alert (mkHandlerConfig (Some ["canary"; EmptyString])) Example.alarm = false.
Proof.
  apply (empty_ignore_pattern_rejects_all
           (mkHandlerConfig (Some ["canary"; EmptyString])) Example.alarm).
  simpl. right. left. reflexivity.
Defined.

Lemma substring_chars (P : ascii -> bool) (p s : string) :
  Str.substring_of p s -> Str2.all_chars P s = true -> Str2.all_chars P p = true.
Proof.
  intros (pre & post & ->). rewrite !all_chars_app.
  intros H. apply andb_true_iff in H as [_ H]. now apply andb_true_iff in H as [H _].
Qed.

(** X10: patterns are looked for in the lower-cased alarm name, so a
    pattern with an upper-case letter never matches: when every pattern
    has one, exactly the alerts in state ALARM are accepted. *)
Theorem uppercase_ignore_patterns_never_match (config : HandlerConfig) (alert : Alert) :
  List.Forall
    (fun pattern => Str2.all_chars (fun c => negb (Str.is_upper c)) pattern = false)
    (default [] (ignore_patterns config)) ->
  validate_alert config alert = bool_decide (state alert = "ALARM").
Proof.
  intros Hall. case_bool_decide as Hs; [|now apply validate_alert_not_alarm].
  rewrite validate_alert_alarm by exact Hs.
  apply forallb_forall. intros p Hp. rewrite List.Forall_forall in Hall.
  specialize (Hall p Hp). apply negb_true_iff, not_true_is_false. intros Hc.
  apply contains_iff in Hc.
  rewrite (substring_chars _ _ _ Hc (lower_not_upper _)) in Hall. discriminate.
Qed.

(** An instance: the pattern [Test] does not stop the alarm named
    [Nightly-TEST-Errors], which the pattern [test] stops. *)
Lemma uppercase_ignore_patterns_never_match_witness :
  validate_alert (mkHandlerConfig (Some ["Test"])) Example.test_alarm = true.
Proof.
  apply (uppercase_ignore_patterns_never_match
           (mkHandlerConfig (Some ["Test"])) Example.test_alarm).
  simpl. constructor; [reflexivity|constructor].
Defined.

(** ** Keywords of the alert handler *)

Lemma replace_char_chars (P : ascii -> bool) (a b : ascii) (s : string) :
  P b = true -> Str2.all_chars P s = true ->
  Str2.all_chars P (Str2.replace_char a b s) = true.
Proof.
  intros Hb. induction s as [|c s IH]; simpl; [reflexivity|].
  intros [Hc Hs]%andb_true_iff. rewrite (IH Hs), andb_true_r.
  case_bool_decide; assumption.
Qed.

(** A character a keyword of the handler can have: neither an upper-case
    letter nor white space. *)
Lemma split_words (s : string) :
  Str2.all_chars (fun c => negb (Str.is_upper c)) s = true ->
  List.Forall
    (fun w => Str2.all_chars
                (fun c => negb (Str.is_upper c) && negb (Str2.is_space c)) w = true)
    (Str2.split s).
Proof.
  intros Hs. unfold Str2.split.
  pose proof (runs_kept (fun c => negb (Str2.is_space c)) EmptyString s eq_refl) as Hk.
  pose proof (runs_chars (fun c => negb (Str2.is_space c))
                (fun c => negb (Str.is_upper c)) EmptyString s eq_refl Hs) as Hl.
  rewrite List.Forall_forall in *. intros w Hw.
  specialize (Hk w Hw). destruct (Hl w Hw) as [Hu _]. clear - Hk Hu.
  induction w as [|c w IH]; simpl in *; [reflexivity|].
  apply andb_true_iff in Hk as [Hk1 Hk2]. apply andb_true_iff in Hu as [Hu1 Hu2].
  now rewrite Hk1, Hu1, IH.
Qed.

Lemma technical_long (w : string) : is_technical w = true -> long_word w = true.
Proof.
  unfold is_technical. intros H. apply existsb_exists in H as (tech & Hin & Hc).
  apply contains_iff in Hc as (pre & post & ->).
  unfold long_word. apply Nat.ltb_lt. rewrite !str_length_app.
  assert (3 <= String.length tech); [|lia].
  simpl in Hin. destruct Hin as [<-|[<-|[<-|[<-|[<-|[<-|[]]]]]]]; simpl; lia.
Qed.

Lemma filter_split_well_formed (p : string -> bool) (s : string) :
  (forall w, p w = true -> long_word w = true) ->
  Str2.all_chars (fun c => negb (Str.is_upper c)) s = true ->
  List.Forall
    (fun w => 2 < String.length w
              /\ Str2.all_chars
                   (fun c => negb (Str.is_upper c) && negb (Str2.is_space c)) w = true)
    (List.filter p (Str2.split s)).
Proof.
  intros Hp Hs. pose proof (split_words s Hs) as H.
  rewrite List.Forall_forall in *. intros w Hw.
  apply List.filter_In in Hw as [Hw Hpw]. split; [|now apply H].
  apply Hp in Hpw. unfold long_word in Hpw. now apply Nat.ltb_lt.
Qed.

(** X11: the keywords the alert handler extracts come without repetition;
    each has at least three characters, none of them an upper-case letter
    or white space. *)
Theorem extract_keywords_well_formed (alert : Alert) :
  NoDup (extract_keywords alert)
  /\ List.Forall
       (fun w => 2 < String.length w
                 /\ Str2.all_chars
                      (fun c => negb (Str.is_upper c) && negb (Str2.is_space c)) w
                    = true)
       (extract_keywords alert).
Proof.
  unfold extract_keywords. split; [apply NoDup_elements|].
  rewrite List.Forall_forall. intros w Hw.
  apply list_elem_of_In, elem_of_elements, elem_of_list_to_set, list_elem_of_In in Hw.
  revert w Hw. rewrite <- List.Forall_forall.
  assert (Hsp : negb (Str.is_upper " ") = true) by reflexivity.
  repeat match goal with
         | |- List.Forall _ (if ?b then _ else _) => destruct b
         | |- List.Forall _ (_ ++ _) => apply List.Forall_app; split
         end;
    apply filter_split_well_formed;
    try (intros ? H; exact H); try exact technical_long;
    repeat (apply replace_char_chars; [reflexivity|]);
    apply lower_not_upper.
Qed.

(** ** Enrichment *)

Lemma latest_of_spec (rest pre after : list Datapoint) (best : Datapoint) :
  List.Forall (fun q => dp_timestamp q < dp_timestamp best) pre ->
  List.Forall (fun q => dp_timestamp q <= dp_timestamp best) after ->
  exists l1 l2,
    pre ++ best :: after ++ rest = l1 ++ latest_of best rest :: l2
    /\ List.Forall (fun q => dp_timestamp q < dp_timestamp (latest_of best rest)) l1
    /\ List.Forall (fun q => dp_timestamp q <= dp_timestamp (latest_of best rest)) l2.
Proof.
  revert pre after best. induction rest as [|p rest IH]; intros pre after best Hpre Haft.
  - exists pre, after. rewrite app_nil_r. auto.
  - simpl. destruct (dp_timestamp best <? dp_timestamp p)%nat eqn:E.
    + apply Nat.ltb_lt in E.
      destruct (IH (pre ++ best :: after) [] p) as (l1 & l2 & Heq & H1 & H2).
      * apply List.Forall_app. split.
        -- eapply List.Forall_impl; [|exact Hpre]. simpl. intros; lia.
        -- constructor; [exact E|].
           eapply List.Forall_impl; [|exact Haft]. simpl. intros; lia.
      * constructor.
      * exists l1, l2. split; [|auto]. rewrite <- Heq. simpl.
        now rewrite <- app_assoc.
    + apply Nat.ltb_ge in E.
      destruct (IH pre (after ++ [p]) best Hpre) as (l1 & l2 & Heq & H1 & H2).
      * apply List.Forall_app. split; [exact Haft|]. constructor; [exact E|constructor].
      * exists l1, l2. split; [|auto]. rewrite <- Heq.
        now rewrite <- app_assoc.
Qed.

(** X12: enrichment changes nothing but the reason, which it extends at
    its end; whether the alert is accepted and which repositories are
    ranked for it is as before. *)
Theorem enrichment_extends_reason_only
    (hour : nat) (answer : Result (list Datapoint)) (alert : Alert)
    (config : HandlerConfig) (repo_configs : list RepositoryConfig) :
  let enriched := _enrich_alert_context hour answer alert in
  enriched = set_reason (reason enriched) alert
  /\ (exists suffix, reason enriched = String.append (reason alert) suffix)
  /\ validate_alert config enriched = validate_alert config alert
  /\ identify_relevant_repositories enriched repo_configs
     = identify_relevant_repositories alert repo_configs.
Proof.
  cbv zeta. unfold _enrich_alert_context.
  assert (Hid : alert = set_reason (reason alert) alert) by now destruct alert.
  assert (Hnil : exists suffix, reason alert = String.append (reason alert) suffix)
    by (exists EmptyString; now rewrite str_app_nil_r).
  destruct (truthy (metric_name alert) && truthy (namespace alert)); [|auto].
  destruct hour as [|h]; [auto|].
  destruct answer as [[|p rest]|e]; [auto| |auto].
  repeat split. eexists. reflexivity.
Qed.

Lemma enrichment_state
    (hour : nat) (answer : Result (list Datapoint)) (alert : Alert) :
  state (_enrich_alert_context hour answer alert) = state alert
  /\ alarm_name (_enrich_alert_context hour answer alert) = alarm_name alert.
Proof.
  unfold _enrich_alert_context.
  destruct (truthy (metric_name alert) && truthy (namespace alert)); [|auto].
  destruct hour as [|h]; [auto|].
  destruct answer as [[|p rest]|e]; auto.
Qed.

(** X13: the alert comes back as it went in exactly when it has no metric
    name or no namespace, when the hour of the day is 0 (the start time,
    an hour earlier on the same day, is then no time at all), when the
    metric service raises, or when it has no datapoints. *)
Theorem enrichment_unchanged_iff
    (hour : nat) (answer : Result (list Datapoint)) (alert : Alert) :
  _enrich_alert_context hour answer alert = alert
  <-> metric_name alert = EmptyString
      \/ namespace alert = EmptyString
      \/ hour = 0
      \/ (exists e, answer = Raise e)
      \/ answer = Ok [].
Proof.
  unfold _enrich_alert_context.
  destruct (metric_name alert) as [|c m] eqn:Em; [simpl; tauto|].
  destruct (namespace alert) as [|c' n] eqn:En; [simpl; tauto|].
  destruct hour as [|h]; [simpl; tauto|].
  destruct answer as [[|p rest]|e]; simpl.
  - tauto.
  - split.
    + intros H. apply (f_equal reason) in H. simpl in H. exfalso.
      rewrite <- (str_app_nil_r (reason alert)) in H at 2.
      apply String.app_inj in H. discriminate.
    + intros [H|[H|[H|[[e H]|H]]]]; discriminate.
  - split; [|reflexivity]. intros _. right. right. right. left. now exists e.
Qed.

(** X14: when enrichment adds something, it is the average and the maximum
    of the datapoint with the greatest timestamp, the first of them
    should several have it. *)
Theorem enrichment_reports_latest
    (hour : nat) (points : list Datapoint) (alert : Alert) :
  metric_name alert <> EmptyString ->
  namespace alert <> EmptyString ->
  hour <> 0 ->
  points <> [] ->
  exists before latest after,
    points = before ++ latest :: after
    /\ List.Forall (fun q => dp_timestamp q < dp_timestamp latest) before
    /\ List.Forall (fun q => dp_timestamp q <= dp_timestamp latest) after
    /\ reason (_enrich_alert_context hour (Ok points) alert)
       = String.append (reason alert) (latest_suffix latest).
Proof.
  intros Hm Hn Hh Hp. unfold _enrich_alert_context.
  destruct (metric_name alert); [congruence|].
  destruct (namespace alert); [congruence|].
  destruct hour as [|h]; [congruence|].
  destruct points as [|p rest]; [congruence|]. simpl.
  destruct (latest_of_spec rest [] [] p) as (l1 & l2 & Heq & H1 & H2);
    [constructor|constructor|].
  exists l1, (latest_of p rest), l2. auto.
Qed.

(** An instance: three datapoints, the second the latest. *)
Lemma enrichment_reports_latest_witness :
  exists before latest after,
    Example2.points = before ++ latest :: after
    /\ List.Forall (fun q => dp_timestamp q < dp_timestamp latest) before
    /\ List.Forall (fun q => dp_timestamp q <= dp_timestamp latest) after
    /\ reason (_enrich_alert_context 5 (Ok Example2.points) Example.alarm)
       = String.append (reason Example.alarm) (latest_suffix latest).
Proof.
  apply (enrichment_reports_latest 5 Example2.points Example.alarm);
    vm_compute; discriminate.
Defined.

(** ** The webhook and the parser *)

Section WebhookProperties.

Variable json_loads : string -> option json.

(** X15: the webhook queues a request exactly when its type is
    [Notification], and then with all ten fields of the model, [Message]
    among them: the parser reads that field and nothing else of the
    request, and rejects a notification that has none. *)
Theorem webhook_parses_message_only (request : CloudWatchWebhookRequest) :
  (forall alert_data,
     cloudwatch_webhook request = Queued alert_data
     <-> wr_Type request = Some "Notification" /\ alert_data = request_dict request)
  /\ from_sns_message json_loads (request_dict request)
     = match wr_Message request with
       | Some s => from_sns_message json_loads [("Message", JStr s)]
       | None => None
       end.
Proof.
  split.
  - intros alert_data. unfold cloudwatch_webhook.
    case_bool_decide as H1.
    + split; [discriminate|]. intros [H _]. rewrite H in H1. discriminate.
    + case_bool_decide as H2.
      * split; [intros [=]; auto|]. intros [_ ->]. reflexivity.
      * split; [discriminate|]. tauto.
  - unfold from_sns_message, request_dict, dict_mem, dict_get.
    destruct (wr_Message request); reflexivity.
Qed.

End WebhookProperties.

(** ** Configured repositories *)

Lemma configured_repositories_ok (github_config : GitHubConfig) (datas : list RepoData) :
  (exists repos, configured_repositories github_config datas = Ok repos)
  <-> datas = []
      \/ (gc_access_token github_config <> None
          /\ List.Forall (fun d => rd_owner d <> None /\ rd_name d <> None) datas).
Proof.
  induction datas as [|d datas IH]; simpl.
  - split; [auto|]. intros _. now exists [].
  - unfold repository_config_of.
    destruct (rd_owner d) as [o|] eqn:Eo.
    2:{ split; [intros [? [=]]|].
        intros [[=]|[_ H]]. inversion H as [|? ? [H1 _] _]. congruence. }
    destruct (rd_name d) as [n|] eqn:En.
    2:{ split; [intros [? [=]]|].
        intros [[=]|[_ H]]. inversion H as [|? ? [_ H1] _]. congruence. }
    destruct (gc_access_token github_config) as [t|] eqn:Et.
    2:{ split; [intros [? [=]]|]. intros [[=]|[H _]]. congruence. }
    destruct (configured_repositories github_config datas) as [repos|e].
    + split; [|intros _; eexists; reflexivity].
      intros _. right. split; [discriminate|]. constructor.
      * rewrite Eo, En. split; discriminate.
      * destruct IH as [[H|[_ H]] _]; [now eexists|subst; constructor|exact H].
    + split; [intros [? [=]]|].
      intros [[=]|[_ H]]. inversion H as [|? ? _ H']. subst.
      destruct IH as [_ [? [=]]]. right. split; [discriminate|exact H'].
Qed.

Lemma configured_repositories_Forall2
    (github_config : GitHubConfig) (datas : list RepoData)
    (repos : list RepositoryConfig) :
  configured_repositories github_config datas = Ok repos ->
  List.Forall2 (fun d r => repository_config_of github_config d = Ok r) datas repos.
Proof.
  revert repos. induction datas as [|d datas IH]; simpl; intros repos H.
  - inversion H. constructor.
  - destruct (repository_config_of github_config d) as [r|] eqn:E; [|discriminate].
    destruct (configured_repositories github_config datas) as [rs|]; [|discriminate].
    inversion H. constructor; auto.
Qed.

(** X16: the configured repositories are read without error exactly when
    there is none, or the access token is there and every entry has an
    owner and a name. The profiles then come one for each entry, in the
    order of the entries, each with the one access token, and with branch
    [main] and priority [medium] where the entry names none. *)
Theorem configured_repositories_read (github_config : GitHubConfig) :
  let entries := default [] (gc_repositories github_config) in
  ((exists repos, _get_configured_repositories github_config = Ok repos)
   <-> entries = []
       \/ (gc_access_token github_config <> None
           /\ List.Forall
                (fun d => rd_owner d <> None /\ rd_name d <> None) entries))
  /\ (forall repos,
        _get_configured_repositories github_config = Ok repos ->
        List.Forall2
          (fun d r =>
             rd_owner d = Some (owner r)
             /\ rd_name d = Some (name r)
             /\ gc_access_token github_config = Some (access_token r)
             /\ branch r = default "main" (rd_branch d)
             /\ priority r = default "medium" (rd_priority d)
             /\ alert_keywords r = default [] (rd_alert_keywords d))
          entries repos).
Proof.
  cbv zeta. unfold _get_configured_repositories. split.
  - apply configured_repositories_ok.
  - intros repos H. apply configured_repositories_Forall2 in H.
    eapply List.Forall2_impl; [|exact H].
    intros d r Hr. unfold repository_config_of in Hr.
    destruct (rd_owner d); [|discriminate].
    destruct (rd_name d); [|discriminate].
    destruct (gc_access_token github_config); [|discriminate].
    inversion Hr. simpl. auto 10.
Qed.

(** ** The registry *)

Lemma jobs_get_set (id id' : string) (job : ResearchJob) (jobs : Jobs) :
  jobs_get id' (jobs_set id job jobs)
  = if bool_decide (id = id') then Some job else jobs_get id' jobs.
Proof.
  induction jobs as [|[k j] jobs IH]; simpl.
  - reflexivity.
  - destruct (bool_decide (k = id)) eqn:E; simpl.
    + apply bool_decide_eq_true in E. subst k.
      destruct (bool_decide (id = id')); reflexivity.
    + apply bool_decide_eq_false in E. rewrite IH.
      case_bool_decide as E1; [|reflexivity].
      subst id'. now rewrite bool_decide_eq_false_2.
Qed.

Lemma jobs_set_keys (id : string) (job : ResearchJob) (jobs : Jobs) :
  (jobs_set id job jobs).*1
  = if bool_decide (id ∈ jobs.*1) then jobs.*1 else jobs.*1 ++ [id].
Proof.
  induction jobs as [|[k j] jobs IH]; [reflexivity|].
  cbn [jobs_set]. rewrite !fmap_cons. cbn [fst].
  destruct (decide (k = id)) as [->|E].
  - rewrite (bool_decide_eq_true_2 (id = id)) by reflexivity.
    rewrite bool_decide_eq_true_2 by apply list_elem_of_here.
    reflexivity.
  - rewrite (bool_decide_eq_false_2 (k = id)) by exact E.
    rewrite fmap_cons, IH. cbn [fst].
    destruct (decide (id ∈ jobs.*1)) as [E1|E1].
    + rewrite (bool_decide_eq_true_2 _ E1).
      rewrite bool_decide_eq_true_2 by now apply list_elem_of_further.
      reflexivity.
    + rewrite (bool_decide_eq_false_2 _ E1).
      rewrite bool_decide_eq_false_2; [reflexivity|].
      intros H. apply elem_of_cons in H as [H|H]; congruence.
Qed.

Lemma jobs_get_None (id : string) (jobs : Jobs) :
  jobs_get id jobs = None <-> id ∉ jobs.*1.
Proof.
  induction jobs as [|[k j] jobs IH]; simpl.
  - split; [intros _; apply not_elem_of_nil|reflexivity].
  - case_bool_decide as E.
    + subst k. split; [discriminate|]. intros H. exfalso. apply H, list_elem_of_here.
    + rewrite IH, not_elem_of_cons. split; [intros; split; [congruence|assumption]|tauto].
Qed.

(** X17: [process_alert] changes the registry only when it returns a job
    id. The job is then registered under that id, pending and with nothing
    recorded yet, for an alert that validation accepts; every other id
    leads to the job it led to before, and the ids keep their order, a new
    one coming last. *)
Theorem process_alert_registers
    (github_config : GitHubConfig) (handler_config : HandlerConfig)
    (parsed : Result Alert) (uuid : string) (created : nat) (active_jobs : Jobs) :
  match process_alert github_config handler_config parsed uuid created active_jobs with
  | (Ok (Some id), jobs, task) =>
      id = uuid
      /\ (exists job,
            task = Some job
            /\ jobs_get id jobs = Some job
            /\ job_id job = id
            /\ parsed = Ok (alert job)
            /\ validate_alert handler_config (alert job) = true
            /\ _get_configured_repositories github_config = Ok (repositories job)
            /\ fresh job
            /\ created_at job = Some created)
      /\ (forall other, other <> id -> jobs_get other jobs = jobs_get other active_jobs)
      /\ jobs.*1
         = (if bool_decide (id ∈ active_jobs.*1) then active_jobs.*1
            else active_jobs.*1 ++ [id])
      /\ (NoDup active_jobs.*1 -> NoDup jobs.*1)
  | (_, jobs, task) => jobs = active_jobs /\ task = None
  end.
Proof.
  unfold process_alert.
  destruct parsed as [a|e]; [|auto].
  destruct (validate_alert handler_config a) eqn:Ev; simpl; [|auto].
  destruct (_get_configured_repositories github_config) as [repos|e]; [|auto].
  split; [reflexivity|]. split; [|split; [|split]].
  - eexists. split; [reflexivity|].
    rewrite jobs_get_set, bool_decide_eq_true_2 by reflexivity.
    repeat split; assumption.
  - intros other Ho. rewrite jobs_get_set.
    now rewrite bool_decide_eq_false_2 by congruence.
  - apply jobs_set_keys.
  - intros Hnd. rewrite jobs_set_keys. case_bool_decide as Hin; [exact Hnd|].
    apply NoDup_app. split; [exact Hnd|]. split; [|apply NoDup_singleton].
    intros x Hx Hx'. apply list_elem_of_singleton in Hx'. congruence.
Qed.

(** X18: without an access token a job is registered only when no
    repository is configured: with one configured, [process_alert] raises
    for every alert that validation accepts, and registers nothing. *)
Theorem process_alert_without_token
    (github_config : GitHubConfig) (handler_config : HandlerConfig)
    (alert : Alert) (uuid : string) (created : nat) (active_jobs : Jobs) :
  gc_access_token github_config = None ->
  default [] (gc_repositories github_config) <> [] ->
  validate_alert handler_config alert = true ->
  exists e,
    process_alert github_config handler_config (Ok alert) uuid created active_jobs
    = (Raise e, active_jobs, None).
Proof.
  intros Ht Hr Hv. unfold process_alert. rewrite Hv. simpl.
  destruct (_get_configured_repositories github_config) as [repos|e] eqn:E;
    [|now exists e].
  exfalso.
  destruct (proj1 (configured_repositories_ok github_config
                     (default [] (gc_repositories github_config)))) as [H|[H _]];
    [now exists repos|congruence..].
Qed.

(** An instance: one repository and no token. *)
Lemma process_alert_without_token_witness :
  exists e,
    process_alert Example2.config_without_token Example.config (Ok Example.alarm)
      "job-1" 100 []
    = (Raise e, [], None).
Proof.
  apply (process_alert_without_token Example2.config_without_token Example.config
           Example.alarm "job-1" 100 []).
  - reflexivity.
  - discriminate.
  - vm_compute. reflexivity.
Defined.

(** X19: [get_job_status] knows exactly the registered ids, and
    [list_active_jobs] gives the status of every registered job, in the
    order of registration. *)
Theorem job_listing_complete (active_jobs : Jobs) :
  NoDup active_jobs.*1 ->
  (forall id, get_job_status active_jobs id = None <-> id ∉ active_jobs.*1)
  /\ list_active_jobs active_jobs
     = (fun entry => Some (job_status_of entry.2)) <$> active_jobs.
Proof.
  intros Hnd. split.
  - intros id. unfold get_job_status. rewrite <- jobs_get_None.
    destruct (jobs_get id active_jobs); [split; discriminate|tauto].
  - unfold list_active_jobs, get_job_status.
    induction active_jobs as [|[k j] jobs IH]; [reflexivity|].
    rewrite !fmap_cons in *. cbn [fst snd] in *.
    apply NoDup_cons in Hnd as [Hk Hnd]. f_equal.
    + cbn [jobs_get]. now rewrite bool_decide_eq_true_2.
    + rewrite <- (IH Hnd). apply list_fmap_ext. intros i id Hid.
      cbn [jobs_get]. rewrite bool_decide_eq_false_2; [reflexivity|].
      intros <-. apply Hk. eapply list_elem_of_lookup_2. exact Hid.
Qed.

(** An instance: two registered jobs. *)
Lemma job_listing_complete_witness :
  list_active_jobs [("job-1", Example.job);
                    ("job-2", new_job "job-2" Example.ok_alarm [] 120)]
  = [Some (job_status_of Example.job);
     Some (job_status_of (new_job "job-2" Example.ok_alarm [] 120))].
Proof.
  assert (Hnd : NoDup [("job-1", Example.job);
                       ("job-2", new_job "job-2" Example.ok_alarm [] 120)].*1).
  { apply (bool_decide_unpack _). vm_compute. exact I. }
  exact (proj2 (job_listing_complete _ Hnd)).
Defined.

(** ** More on the processor *)

Local Opaque identify_relevant_repositories.

Lemma same_identity_refl (j : ResearchJob) : same_identity j j.
Proof. repeat split. Qed.

Lemma same_identity_trans (j1 j2 j3 : ResearchJob) :
  same_identity j1 j2 -> same_identity j2 j3 -> same_identity j1 j3.
Proof. unfold same_identity. intros (? & ? & ? & ?) (? & ? & ? & ?). repeat split; congruence. Qed.

Lemma not_some_nonempty {A} (l : option (list A)) :
  some_nonempty l = false -> default [] l = [].
Proof. destruct l as [[|x l]|]; simpl; [reflexivity|discriminate|reflexivity]. Qed.

(** The processing of one candidate keeps the identity of the job and
    adds at most one pull request, the one created for this candidate. *)
Lemma process_candidate_pull_requests (self : CodeResearcherSystem) (gh : GitHubHandler)
    (i : nat) (c : Scored) (j : ResearchJob) :
  match process_candidate self gh i c j with
  | (_, j', _) =>
      same_identity j j'
      /\ (default [] (pull_requests j') = default [] (pull_requests j)
          \/ exists url,
               created_for self gh i (fst c) url
               /\ default [] (pull_requests j') = default [] (pull_requests j) ++ [url])
  end.
Proof.
  unfold process_candidate, created_for. unfold_proc. cbn.
  repeat next_case.
  all: split; [repeat split|].
  all: try (left; reflexivity).
  all: right; eexists; split;
    [eexists; split; [reflexivity|]; cbn; split; [reflexivity|];
     split; [discriminate|eassumption]|].
  all: try reflexivity.
  all: match goal with
       | H : some_nonempty _ = false |- _ =>
           now rewrite (not_some_nonempty _ H)
       end.
Qed.

Lemma process_candidates_pull_requests (self : CodeResearcherSystem) (gh : GitHubHandler)
    (cs : list Scored) (i : nat) (j : ResearchJob) :
  match process_candidates self gh i cs j with
  | (_, j', _) =>
      same_identity j j'
      /\ exists urls,
           default [] (pull_requests j') = default [] (pull_requests j) ++ urls
           /\ length urls <= length cs
           /\ List.Forall
                (fun url => exists n c,
                   cs !! n = Some c /\ created_for self gh (i + n) (fst c) url)
                urls
  end.
Proof.
  revert i j. induction cs as [|c cs IH]; intros i j.
  - cbn. split; [apply same_identity_refl|]. exists []. rewrite app_nil_r.
    repeat split; constructor.
  - cbn [process_candidates]. unfold mbind, proc_bind.
    pose proof (process_candidate_pull_requests self gh i c j) as H1.
    destruct (process_candidate self gh i c j) as [[[[]|msg] j1] log1];
      destruct H1 as [Hid1 H1].
    + specialize (IH (S i) j1).
      destruct (process_candidates self gh (S i) cs j1) as [[r j2] log2].
      destruct IH as (Hid2 & urls & Hu & Hlen & Hall).
      split; [exact (same_identity_trans _ _ _ Hid1 Hid2)|].
      assert (Hshift : List.Forall
                         (fun url => exists n c0,
                            (c :: cs) !! n = Some c0
                            /\ created_for self gh (i + n) (fst c0) url) urls).
      { eapply List.Forall_impl; [|exact Hall]. intros url (n & c0 & Hn & Hc).
        exists (S n), c0. split; [exact Hn|].
        now replace (i + S n) with (S i + n) by lia. }
      destruct H1 as [H1|(url & Hc & H1)].
      * exists urls. rewrite Hu, H1. split; [reflexivity|].
        split; [simpl; lia|exact Hshift].
      * exists (url :: urls). rewrite Hu, H1, <- app_assoc.
        split; [reflexivity|]. split; [simpl; lia|].
        constructor; [|exact Hshift].
        exists 0, c. split; [reflexivity|]. now rewrite Nat.add_0_r.
    + split; [exact Hid1|].
      destruct H1 as [H1|(url & Hc & H1)].
      * exists []. rewrite H1, app_nil_r. repeat split; [simpl; lia|constructor].
      * exists [url]. rewrite H1. split; [reflexivity|]. split; [simpl; lia|].
        constructor; [|constructor].
        exists 0, c. split; [reflexivity|]. now rewrite Nat.add_0_r.
Qed.

Lemma update_job_status_frame (self : CodeResearcherSystem) (j : ResearchJob) :
  match update_job_status self j with
  | (r, j', _) =>
      r = Ok tt /\ terminal (status j') /\ same_identity j j'
      /\ pull_requests j' = pull_requests j
  end.
Proof.
  unfold update_job_status. unfold_proc.
  destruct (some_nonempty (pull_requests j)); cbn.
  - repeat split. now left.
  - destruct (some_text (error_message j)); cbn; repeat split; now right.
Qed.

Local Opaque process_candidates update_job_status.

(** What a run leaves of the job it is given. *)
Lemma run_frame (self : CodeResearcherSystem) (job : ResearchJob) :
  match run self job with
  | (r, jf, _) =>
      r = Ok tt /\ terminal (status jf) /\ same_identity job jf
      /\ match github_handler self with
         | None => pull_requests jf = pull_requests job
         | Some gh =>
             exists urls,
               default [] (pull_requests jf) = default [] (pull_requests job) ++ urls
               /\ length urls <= 2
               /\ List.Forall
                    (fun url => exists n c,
                       firstn 2 (identify_relevant_repositories
                                   (alert job) (repositories job)) !! n = Some c
                       /\ created_for self gh n (fst c) url)
                    urls
         end
  end.
Proof.
  unfold run, _process_research_job. unfold_proc. cbn.
  destruct (github_handler self) as [gh|]; cbn.
  2:{ repeat split. now right. }
  destruct (identify_relevant_repositories (alert job) (repositories job))
    as [|c cs] eqn:Erel; cbn.
  { repeat split; [now right|]. exists []. rewrite app_nil_r.
    repeat split; [simpl; lia|constructor]. }
  pose proof (process_candidates_pull_requests self gh (firstn 2 (c :: cs)) 0
                (set_status analyzing job)) as H1.
  destruct (process_candidates self gh 0 _ (set_status analyzing job))
    as [[[[]|msg] j1] log1];
    destruct H1 as (Hid & urls & Hu & Hlen & Hall).
  - pose proof (update_job_status_frame self j1) as H2.
    destruct (update_job_status self j1) as [[r2 j2] log2].
    destruct H2 as (-> & Ht & Hid2 & Hp2). cbn.
    split; [reflexivity|]. split; [exact Ht|].
    split; [exact (same_identity_trans _ _ _ Hid Hid2)|].
    exists urls. rewrite Hp2. split; [exact Hu|]. split; [|exact Hall].
    rewrite length_take in Hlen. lia.
  - cbn. split; [reflexivity|]. split; [now right|].
    split; [exact Hid|].
    exists urls. split; [exact Hu|]. split; [|exact Hall].
    rewrite length_take in Hlen. lia.
Qed.

Local Transparent process_candidates update_job_status.

Lemma same_identity_Forall (j1 j2 : ResearchJob) (l : list ResearchJob) :
  same_identity j1 j2 -> List.Forall (same_identity j2) l ->
  List.Forall (same_identity j1) l.
Proof.
  intros H. apply List.Forall_impl. intros w. now apply same_identity_trans.
Qed.

Lemma writes_app (l1 l2 : list Entry) : writes (l1 ++ l2) = writes l1 ++ writes l2.
Proof. unfold writes. apply omap_app. Qed.

Lemma suspensions_app (l1 l2 : list Entry) :
  suspensions (l1 ++ l2) = suspensions l1 ++ suspensions l2.
Proof. unfold suspensions. apply omap_app. Qed.

(** Whatever the job is after an assignment or at a suspension while a
    candidate is processed, its identity is as before. *)
Lemma process_candidate_identity (self : CodeResearcherSystem) (gh : GitHubHandler)
    (i : nat) (c : Scored) (j : ResearchJob) :
  match process_candidate self gh i c j with
  | (_, j', log) =>
      same_identity j j'
      /\ List.Forall (same_identity j) (writes log)
      /\ List.Forall (same_identity j) (suspensions log)
  end.
Proof.
  unfold process_candidate. unfold_proc. cbn.
  repeat next_case.
  all: unfold writes, suspensions, same_identity; cbn.
  all: repeat first [split | constructor].
Qed.

Lemma process_candidates_identity (self : CodeResearcherSystem) (gh : GitHubHandler)
    (cs : list Scored) (i : nat) (j : ResearchJob) :
  match process_candidates self gh i cs j with
  | (_, j', log) =>
      same_identity j j'
      /\ List.Forall (same_identity j) (writes log)
      /\ List.Forall (same_identity j) (suspensions log)
  end.
Proof.
  revert i j. induction cs as [|c cs IH]; intros i j.
  - cbn. split; [apply same_identity_refl|]. split; constructor.
  - cbn [process_candidates]. unfold mbind, proc_bind.
    pose proof (process_candidate_identity self gh i c j) as H1.
    destruct (process_candidate self gh i c j) as [[[[]|msg] j1] log1];
      destruct H1 as (Hid1 & Hw1 & Hs1); [|auto].
    specialize (IH (S i) j1).
    destruct (process_candidates self gh (S i) cs j1) as [[r j2] log2].
    destruct IH as (Hid2 & Hw2 & Hs2).
    split; [exact (same_identity_trans _ _ _ Hid1 Hid2)|].
    rewrite writes_app, suspensions_app. split; apply List.Forall_app; split;
      try assumption; now apply (same_identity_Forall j j1).
Qed.

Lemma update_job_status_identity (self : CodeResearcherSystem) (j : ResearchJob) :
  match update_job_status self j with
  | (r, j', log) =>
      r = Ok tt
      /\ same_identity j j'
      /\ List.Forall (same_identity j) (writes log)
      /\ List.Forall (same_identity j) (suspensions log)
  end.
Proof.
  unfold update_job_status. unfold_proc.
  destruct (some_nonempty (pull_requests j)); cbn.
  2: destruct (some_text (error_message j)); cbn.
  all: unfold writes, suspensions, same_identity; cbn.
  all: repeat first [split | constructor].
Qed.

Local Opaque process_candidates update_job_status.

Lemma run_identity (self : CodeResearcherSystem) (job : ResearchJob) :
  match run self job with
  | (_, jf, log) =>
      same_identity job jf
      /\ List.Forall (same_identity job) (writes log)
      /\ List.Forall (same_identity job) (suspensions log)
  end.
Proof.
  assert (H0 : same_identity job (set_status analyzing job)) by (repeat split).
  unfold run, _process_research_job. unfold_proc. cbn.
  destruct (github_handler self) as [gh|]; cbn.
  2:{ unfold writes, suspensions, same_identity; cbn.
      repeat first [split | constructor]. }
  destruct (identify_relevant_repositories (alert job) (repositories job))
    as [|c cs] eqn:Erel; cbn.
  { unfold writes, suspensions, same_identity; cbn.
    repeat first [split | constructor]. }
  pose proof (process_candidates_identity self gh (firstn 2 (c :: cs)) 0
                (set_status analyzing job)) as H1.
  destruct (process_candidates self gh 0 _ (set_status analyzing job))
    as [[[[]|msg] j1] log1];
    destruct H1 as (Hid & Hw & Hs).
  - pose proof (update_job_status_identity self j1) as H2.
    destruct (update_job_status self j1) as [[r2 j2] log2].
    destruct H2 as (-> & Hid2 & Hw2 & Hs2). cbn.
    pose proof (same_identity_trans _ _ _ H0 Hid) as Hid1.
    split; [exact (same_identity_trans _ _ _ Hid1 Hid2)|].
    change (writes (Assign F_status (set_status analyzing job) :: log1 ++ log2))
      with (set_status analyzing job :: writes (log1 ++ log2)).
    change (suspensions (Assign F_status (set_status analyzing job) :: log1 ++ log2))
      with (suspensions (log1 ++ log2)).
    rewrite writes_app, suspensions_app. split.
    + constructor; [exact H0|]. apply List.Forall_app. split.
      * now apply (same_identity_Forall job (set_status analyzing job)).
      * now apply (same_identity_Forall job j1).
    + apply List.Forall_app. split.
      * now apply (same_identity_Forall job (set_status analyzing job)).
      * now apply (same_identity_Forall job j1).
  - cbn. pose proof (same_identity_trans _ _ _ H0 Hid) as Hid1.
    assert (Hf : same_identity job
                   (set_completed_at (Some (now self))
                      (set_error_message (Some msg) (set_status failed j1))))
      by (destruct Hid1 as (? & ? & ? & ?); repeat split; assumption).
    split; [exact Hf|].
    match goal with
    | |- List.Forall _ (writes (?e :: ?l1 ++ ?l2)) /\ _ =>
        change (writes (e :: l1 ++ l2))
          with (set_status analyzing job :: writes (l1 ++ l2));
        change (suspensions (e :: l1 ++ l2)) with (suspensions (l1 ++ l2))
    end.
    rewrite writes_app, suspensions_app. split.
    + constructor; [exact H0|]. apply List.Forall_app. split.
      * now apply (same_identity_Forall job (set_status analyzing job)).
      * unfold writes; cbn.
        destruct Hid1 as (? & ? & ? & ?).
        repeat constructor; assumption.
    + apply List.Forall_app. split.
      * now apply (same_identity_Forall job (set_status analyzing job)).
      * unfold suspensions; cbn. constructor.
Qed.

(** X20: whatever the job is during a run of the processor, after an
    assignment, at a suspension or at the end, its id, its alert, its
    repositories and its creation time are those it started with. *)
Theorem processing_keeps_identity (self : CodeResearcherSystem) (job : ResearchJob) :
  List.Forall (same_identity job) (writes (log_of self job))
  /\ List.Forall (same_identity job) (suspensions (log_of self job))
  /\ same_identity job (final_job self job).
Proof.
  unfold final_job, log_of. pose proof (run_identity self job) as H.
  destruct (run self job) as [[r jf] log]. cbn. tauto.
Qed.

(** X21: a job that starts without pull requests ends with at most two,
    in the order of the candidates; each is the answer of the host for one
    of the first two ranked candidates, asked after an analysis of that
    candidate that was complete and proposed fixes. *)
Theorem pull_requests_provenance
    (self : CodeResearcherSystem) (gh : GitHubHandler) (job : ResearchJob) :
  github_handler self = Some gh ->
  pull_requests job = None ->
  let ranked := identify_relevant_repositories (alert job) (repositories job) in
  let urls := default [] (pull_requests (final_job self job)) in
  length urls <= 2
  /\ js_pull_requests_created (job_status_of (final_job self job)) = length urls
  /\ List.Forall
       (fun url => exists n c,
          firstn 2 ranked !! n = Some c /\ created_for self gh n (fst c) url)
       urls.
Proof.
  intros Hgh Hp ranked urls. subst ranked urls. unfold final_job.
  pose proof (run_frame self job) as H. rewrite Hgh, Hp in H.
  destruct (run self job) as [[r jf] log]. cbn.
  destruct H as (_ & _ & _ & urls & Hu & Hlen & Hall). cbn in Hu.
  rewrite Hu. auto.
Qed.

(** An instance: the example run, in which the second candidate gets a
    pull request. *)
Lemma pull_requests_provenance_witness :
  length (default [] (pull_requests (final_job Example.system Example.job))) <= 2.
Proof.
  pose proof (pull_requests_provenance Example.system Example.handler Example.job
                eq_refl eq_refl) as H.
  exact (proj1 H).
Defined.

Lemma relevant_repos_nil (kws : list string) (repo_configs : list RepositoryConfig) :
  kws = [] \/ repo_configs = [] -> relevant_repos kws repo_configs = [].
Proof.
  intros [->| ->]; [|reflexivity]. unfold relevant_repos.
  induction repo_configs as [|r rs IH]; [reflexivity|]. exact IH.
Qed.

Local Transparent identify_relevant_repositories.

Lemma identify_nil (alert : Alert) (repo_configs : list RepositoryConfig) :
  _extract_alert_keywords alert = [] \/ repo_configs = [] ->
  identify_relevant_repositories alert repo_configs = [].
Proof.
  intros H. unfold identify_relevant_repositories, rank_with.
  now rewrite (relevant_repos_nil _ _ H).
Qed.

Local Opaque identify_relevant_repositories.

(** X22: a job whose alert has no keywords, or that has no repositories,
    fails with the message that no relevant repository was found, before
    any candidate is visited and without a suspension; its completion time
    is not set. *)
Theorem job_without_candidates_fails
    (self : CodeResearcherSystem) (gh : GitHubHandler) (job : ResearchJob) :
  github_handler self = Some gh ->
  _extract_alert_keywords (alert job) = [] \/ repositories job = [] ->
  final_job self job
  = set_error_message (Some "No relevant repositories found")
      (set_status failed (set_status analyzing job))
  /\ completed_at (final_job self job) = completed_at job
  /\ visited (log_of self job) = []
  /\ suspensions (log_of self job) = [].
Proof.
  intros Hgh H. apply identify_nil in H.
  unfold final_job, log_of, run, _process_research_job. unfold_proc.
  rewrite Hgh. cbn [alert repositories set_status]. rewrite H.
  repeat split.
Qed.

(** An instance: an alarm whose name has only short words, and no
    namespace or metric. *)
Lemma job_without_candidates_fails_witness :
  status (final_job Example.system
            (new_job "job-3"
               (mkCloudWatchAlert "db-01" "Test" EmptyString EmptyString
                  "2023-01-01T00:00:00.000Z" "ALARM" "CPU high" "us-east-1"
                  "123456789")
               [Example.repo_a; Example.repo_b] 100))
  = failed.
Proof.
  pose proof (job_without_candidates_fails Example.system Example.handler
                (new_job "job-3"
                   (mkCloudWatchAlert "db-01" "Test" EmptyString EmptyString
                      "2023-01-01T00:00:00.000Z" "ALARM" "CPU high" "us-east-1"
                      "123456789")
                   [Example.repo_a; Example.repo_b] 100) eq_refl) as H.
  assert (Hk : _extract_alert_keywords
                 (mkCloudWatchAlert "db-01" "Test" EmptyString EmptyString
                    "2023-01-01T00:00:00.000Z" "ALARM" "CPU high" "us-east-1"
                    "123456789") = [] \/ [Example.repo_a; Example.repo_b] = [])
    by (left; vm_compute; reflexivity).
  destruct (H Hk) as [-> _]. reflexivity.
Defined.

(** ** Payloads without a state *)

Section SkippedPayloads.

Variable json_loads : string -> option json.

(** X23: a payload without [Message] is parsed whatever it holds, and
    without [NewStateValue] it gives an alert with the empty state; such
    an alert, enriched or not, is not accepted, so that [process_alert]
    answers [None] and registers nothing. *)
Theorem payload_without_state_skipped (payload : dict) :
  dict_mem "Message" payload = false ->
  dict_mem "NewStateValue" payload = false ->
  exists parsed,
    from_sns_message json_loads payload = Some parsed
    /\ state parsed = JStr EmptyString
    /\ forall alert hour answer github_config handler_config uuid created active_jobs,
         as_strings parsed = Some alert ->
         process_alert github_config handler_config
           (Ok (_enrich_alert_context hour answer alert)) uuid created active_jobs
         = (Ok None, active_jobs, None).
Proof.
  intros Hm Hs. unfold from_sns_message. rewrite Hm.
  eexists. split; [reflexivity|].
  assert (Hst : dict_get "NewStateValue" (JStr EmptyString) payload = JStr EmptyString).
  { unfold dict_get. unfold dict_mem in Hs.
    destruct (dict_lookup "NewStateValue" payload); [discriminate|reflexivity]. }
  cbn [state]. split; [exact Hst|].
  intros alert hour answer github_config handler_config uuid created active_jobs Ha.
  assert (Hstate : state alert = EmptyString).
  { unfold as_strings in Ha. cbn [alarm_name alarm_description metric_name namespace
      timestamp state reason region account_id] in Ha.
    rewrite Hst in Ha.
    repeat match type of Ha with
           | context [as_string ?v] => destruct (as_string v); cbn in Ha
           end; try discriminate.
    now inversion Ha. }
  unfold process_alert.
  rewrite validate_alert_not_alarm; [reflexivity|].
  destruct (enrichment_state hour answer alert) as [-> _].
  rewrite Hstate. discriminate.
Qed.

End SkippedPayloads.

(** An instance: the payload of the test for invalid messages. *)
Lemma payload_without_state_skipped_witness :
  exists parsed,
    from_sns_message MiniJson.loads [("invalid", JStr "data")] = Some parsed
    /\ state parsed = JStr EmptyString.
Proof.
  destruct (payload_without_state_skipped MiniJson.loads [("invalid", JStr "data")]
              eq_refl eq_refl) as (parsed & H1 & H2 & _).
  exists parsed. split; assumption.
Defined.

(** ** Analyses without result *)

Local Transparent process_candidates update_job_status.

Lemma process_candidates_incomplete (self : CodeResearcherSystem) (gh : GitHubHandler)
    (cs : list Scored) (i : nat) (j : ResearchJob) :
  (forall k, workspace_enter self k = Ok tt /\ workspace_exit self k = Ok tt) ->
  (forall k r, clone_repository gh k r = Ok tt) ->
  (forall k r, exists res,
      analyze_crash self k r = Ok res /\ analysis_complete res = false) ->
  match process_candidates self gh i cs j with
  | (r, j', log) =>
      r = Ok tt
      /\ status j' = status j
      /\ pull_requests j' = pull_requests j
      /\ error_message j' = error_message j
      /\ completed_at j' = completed_at j
      /\ (orchestrator_response j <> None \/ cs <> [] ->
          orchestrator_response j' <> None)
      /\ List.Forall (fun w => status w = status j) (writes log)
  end.
Proof.
  intros Hw Hc Ha. revert i j. induction cs as [|c cs IH]; intros i j.
  - cbn. repeat split; [intros [H|H]; congruence|constructor].
  - cbn [process_candidates]. unfold mbind, proc_bind.
    assert (H1 : exists res,
               process_candidate self gh i c j
               = (Ok tt, set_orchestrator_response (Some res) j,
                  [Visit i (fst c); Await j;
                   Assign F_orchestrator_response
                     (set_orchestrator_response (Some res) j)])).
    { destruct (Ha i (fst c)) as (res & Hres & Hinc). exists res.
      unfold process_candidate. unfold_proc.
      rewrite (proj1 (Hw i)), (proj2 (Hw i)), Hc, Hres. cbn. now rewrite Hinc. }
    destruct H1 as (res & ->).
    specialize (IH (S i) (set_orchestrator_response (Some res) j)).
    destruct (process_candidates self gh (S i) cs _) as [[r j2] log2].
    destruct IH as (-> & Hs & Hp & He & Ht & Ho & Hl). cbn in Hs, Hp, He, Ht, Hl.
    repeat split; try assumption.
    + intros _. apply Ho. left. discriminate.
    + change (writes ([Visit i (fst c); Await j;
                       Assign F_orchestrator_response
                         (set_orchestrator_response (Some res) j)] ++ log2))
        with (set_orchestrator_response (Some res) j :: writes log2).
      constructor; [reflexivity|exact Hl].
Qed.

Local Opaque process_candidates identify_relevant_repositories.

(** X24: when the analysis of every candidate ends without being
    complete, and nothing raises, the job goes from analyzing straight to
    failed, with the message that no pull request was created and without
    pull requests; what the analyses reported is kept as the orchestrator
    response only. *)
Theorem incomplete_analyses_fail
    (self : CodeResearcherSystem) (gh : GitHubHandler) (id : string) (a : Alert)
    (repos : list RepositoryConfig) (created : nat) :
  github_handler self = Some gh ->
  (forall k, workspace_enter self k = Ok tt /\ workspace_exit self k = Ok tt) ->
  (forall k r, clone_repository gh k r = Ok tt) ->
  (forall k r, exists res,
      analyze_crash self k r = Ok res /\ analysis_complete res = false) ->
  identify_relevant_repositories a repos <> [] ->
  let job := new_job id a repos created in
  let jf := final_job self job in
  status jf = failed
  /\ error_message jf = Some "No pull requests created"
  /\ pull_requests jf = None
  /\ orchestrator_response jf <> None
  /\ completed_at jf = Some (now self)
  /\ creating_prs ∉ status_trace self job.
Proof.
  intros Hgh Hw Hc Ha Hrel job jf. subst jf.
  unfold status_trace, final_job, log_of, run, _process_research_job. unfold_proc.
  rewrite Hgh. cbn [alert repositories set_status job new_job].
  destruct (identify_relevant_repositories a repos) as [|c cs]; [congruence|].
  pose proof (process_candidates_incomplete self gh (firstn 2 (c :: cs)) 0
                (set_status analyzing job) Hw Hc Ha) as H1.
  destruct (process_candidates self gh 0 (firstn 2 (c :: cs))
              (set_status analyzing job)) as [[r j1] log1].
  destruct H1 as (-> & Hs & Hp & He & Ht & Ho & Hl). cbn in Hs, Hp, He, Ht.
  unfold update_job_status. unfold_proc. rewrite Hp. cbn. rewrite He. cbn.
  repeat split.
  - exact Hp.
  - apply Ho. right. discriminate.
  - intros Hin.
    change (writes (Assign F_status (set_status analyzing job) :: ?l))
      with (set_status analyzing job :: writes l) in Hin.
    rewrite !fmap_cons in Hin.
    apply elem_of_cons in Hin as [Hin|Hin]; [discriminate|].
    apply elem_of_cons in Hin as [Hin|Hin]; [discriminate|].
    unfold writes in Hin. rewrite omap_app, fmap_app in Hin.
    apply elem_of_app in Hin as [Hin|Hin].
    + apply list_elem_of_fmap in Hin as (w & Hw1 & Hw2).
      rewrite List.Forall_forall in Hl. apply list_elem_of_In in Hw2.
      specialize (Hl w Hw2). cbn in Hl. congruence.
    + cbn in Hin. rewrite !elem_of_cons in Hin.
      destruct Hin as [Hin|[Hin|[Hin|Hin]]]; try discriminate.
      now apply not_elem_of_nil in Hin.
Qed.

(** An instance: a system whose analyses all end without result. *)
Lemma incomplete_analyses_fail_witness :
  status (final_job Example2.system_without_analysis Example.job) = failed
  /\ error_message (final_job Example2.system_without_analysis Example.job)
     = Some "No pull requests created".
Proof.
  pose proof (incomplete_analyses_fail Example2.system_without_analysis
                (mkGitHubHandler (fun _ _ => Ok tt) (fun _ _ _ => Raise "not asked"))
                "job-1" Example.alarm [Example.repo_a; Example.repo_b] 100
                eq_refl) as H.
  assert (H1 : forall k, workspace_enter Example2.system_without_analysis k = Ok tt
                         /\ workspace_exit Example2.system_without_analysis k = Ok tt)
    by (intros k; split; reflexivity).
  assert (H2 : forall (k : nat) (r : RepositoryConfig),
             clone_repository
               (mkGitHubHandler (fun _ _ => Ok tt) (fun _ _ _ => Raise "not asked"))
               k r = Ok tt)
    by reflexivity.
  assert (H3 : forall k r, exists res,
             analyze_crash Example2.system_without_analysis k r = Ok res
             /\ analysis_complete res = false)
    by (intros k r; eexists; split; reflexivity).
  assert (H4 : identify_relevant_repositories Example.alarm
                 [Example.repo_a; Example.repo_b] <> [])
    by (vm_compute; discriminate).
  destruct (H H1 H2 H3 H4) as (Hs & He & _).
  split; [exact Hs|exact He].
Defined.

(** ** Branch names *)

Lemma replace_char_removes (a b : ascii) (s : string) :
  b <> a ->
  Str2.all_chars (fun c => negb (bool_decide (c = a))) (Str2.replace_char a b s) = true.
Proof.
  intros Hb. induction s as [|c s IH]; simpl; [reflexivity|].
  rewrite IH, andb_true_r. destruct (decide (c = a)) as [->|E].
  - rewrite (bool_decide_eq_true_2 (a = a)) by reflexivity.
    now rewrite (bool_decide_eq_false_2 (b = a)) by exact Hb.
  - now rewrite !(bool_decide_eq_false_2 (c = a)) by exact E.
Qed.

Lemma all_chars_and (p q : ascii -> bool) (s : string) :
  Str2.all_chars p s = true -> Str2.all_chars q s = true ->
  Str2.all_chars (fun c => p c && q c) s = true.
Proof.
  induction s as [|c s IH]; simpl; [reflexivity|].
  intros [H1 H2]%andb_true_iff [H3 H4]%andb_true_iff.
  now rewrite H1, H3, IH.
Qed.

Lemma string_of_uint_digits (d : Decimal.uint) :
  Str2.all_chars Str.is_digit (NilEmpty.string_of_uint d) = true.
Proof. induction d; simpl; auto. Qed.

Lemma nilzero_string_of_uint_digits (d : Decimal.uint) :
  Str2.all_chars Str.is_digit (NilZero.string_of_uint d) = true.
Proof.
  unfold NilZero.string_of_uint. destruct d; try apply string_of_uint_digits.
  reflexivity.
Qed.

(** X25: the branch made for the fixes of an alert is named [auto-fix/],
    the alarm name and a number, and has neither a space nor an upper-case
    letter in it. *)
Theorem branch_name_shape (alert : Alert) (time : nat) :
  String.prefix "auto-fix/" (branch_name alert time) = true
  /\ Str2.all_chars
       (fun c => negb (Str.is_upper c) && negb (bool_decide (c = " "%char)))
       (branch_name alert time) = true.
Proof.
  unfold branch_name. split.
  - apply prefix_iff. eexists. reflexivity.
  - rewrite !all_chars_app. repeat (apply andb_true_iff; split); try reflexivity.
    + apply all_chars_and.
      * apply replace_char_chars; [reflexivity|apply lower_not_upper].
      * apply replace_char_removes. discriminate.
    + eapply all_chars_impl; [|apply nilzero_string_of_uint_digits].
      intros c Hc. destruct c as [[] [] [] [] [] [] [] []]; try discriminate Hc;
        reflexivity.
Qed.

(** ** Errors of several candidates *)

Local Transparent process_candidates update_job_status.

(** A candidate whose processing raises leaves the pull requests as they
    are. *)
Lemma process_candidate_error (self : CodeResearcherSystem) (gh : GitHubHandler)
    (i : nat) (c : Scored) (j : ResearchJob) (msg : string) :
  workspace_enter self i = Ok tt ->
  workspace_exit self i = Ok tt ->
  candidate_error self gh i (fst c) = Some msg ->
  match process_candidate self gh i c j with
  | (r, j', _) =>
      r = Ok tt /\ error_message j' = Some msg
      /\ pull_requests j' = pull_requests j
  end.
Proof.
  intros He Hx.
  unfold process_candidate, candidate_error. unfold_proc. rewrite He, Hx. cbn.
  repeat next_case.
  all: intros Hm; try discriminate Hm.
  all: injection Hm as <-; repeat split.
Qed.

(** X26: when the processing of both of the first two candidates raises,
    the job ends failed without pull requests, and the message it keeps is
    the one of the second candidate; the first one is lost. A second
    message that is empty is replaced by the message that no pull request
    was created. *)
Theorem last_error_wins
    (self : CodeResearcherSystem) (gh : GitHubHandler) (id : string) (a : Alert)
    (repos : list RepositoryConfig) (created : nat)
    (c1 c2 : Scored) (rest : list Scored) (msg1 msg2 : string) :
  github_handler self = Some gh ->
  identify_relevant_repositories a repos = c1 :: c2 :: rest ->
  (forall k, workspace_enter self k = Ok tt /\ workspace_exit self k = Ok tt) ->
  candidate_error self gh 0 (fst c1) = Some msg1 ->
  candidate_error self gh 1 (fst c2) = Some msg2 ->
  let jf := final_job self (new_job id a repos created) in
  status jf = failed
  /\ pull_requests jf = None
  /\ error_message jf
     = Some (if truthy msg2 then msg2 else "No pull requests created")
  /\ completed_at jf = Some (now self).
Proof.
  intros Hgh Hrel Hw H1 H2 jf. subst jf.
  unfold final_job, run, _process_research_job. unfold_proc.
  rewrite Hgh. cbn [alert repositories set_status new_job]. rewrite Hrel.
  cbn [firstn process_candidates]. change (take 0 rest) with (@nil Scored).
  cbn [process_candidates]. unfold mbind, proc_bind, mret, proc_ret.
  pose proof (process_candidate_error self gh 0 c1
                (set_status analyzing (new_job id a repos created)) msg1
                (proj1 (Hw 0)) (proj2 (Hw 0)) H1) as P1.
  destruct (process_candidate self gh 0 c1 _) as [[r1 j1] log1].
  destruct P1 as (-> & _ & Hp1).
  pose proof (process_candidate_error self gh 1 c2 j1 msg2
                (proj1 (Hw 1)) (proj2 (Hw 1)) H2) as P2.
  destruct (process_candidate self gh 1 c2 j1) as [[r2 j2] log2].
  destruct P2 as (-> & He2 & Hp2).
  assert (Hp : pull_requests j2 = None) by (rewrite Hp2, Hp1; reflexivity).
  cbn. unfold update_job_status. unfold_proc. cbn. rewrite Hp. cbn. rewrite He2.
  destruct msg2; cbn; repeat split; assumption.
Qed.

(** An instance: both clones fail, the second without a message. *)
Lemma last_error_wins_witness :
  error_message (final_job Example2.system_without_clones Example.job)
  = Some "No pull requests created".
Proof.
  eassert (Hrel : identify_relevant_repositories Example.alarm
                    [Example.repo_a; Example.repo_b] = _ :: _ :: _)
    by (vm_compute; reflexivity).
  assert (Hw : forall k : nat,
             workspace_enter Example2.system_without_clones k = Ok tt
             /\ workspace_exit Example2.system_without_clones k = Ok tt)
    by (intros; split; reflexivity).
  pose proof (last_error_wins Example2.system_without_clones
                Example2.handler_without_clones
                "job-1" Example.alarm [Example.repo_a; Example.repo_b] 100
                _ _ _ "clone failed" EmptyString eq_refl Hrel Hw eq_refl eq_refl)
    as (_ & _ & He & _).
  exact He.
Defined.
